(** * Conv-KNRM: a shallow embedding of [knrm/model/model_knrm.py]

    The development follows the Python module, leaves first:

    - [Paths]       the checkpoint file names built by [KNRM.train] and
                    [KNRM.test];
    - [Tensor]      the list-based tensor operations the graph is made of
                    (TensorFlow float32 tensors are idealised as lists of
                    real numbers);
    - [KernelBank]  the kernel centres and widths ([BaseNN.kernal_mus] and
                    [BaseNN.kernel_sigmas]);
    - [VarScope]    TensorFlow's variable store, which decides the names
                    of the convolution filters;
    - [Graph]       [KNRM.__init__], [KNRM.model], [KNRM.conv_model], the
                    hinge loss, and the graphs [train] and [test] build;
    - [Float32]     the two forward passes once more, over values that are
                    a number, an infinity or not-a-number, and where they
                    agree with the passes over the reals;
    - [Run]         the session-level behaviour of [KNRM.train],
                    [KNRM.test] and the [__main__] block, in a state and
                    exception monad;
    - [Embedding]   [KNRM.load_word2vec];
    - [GraphFacts], [RunFacts]
                    further properties of the graph and of the runs. *)

From Stdlib Require Import String Ascii Bool Arith ZArith Lia List.
From Stdlib Require Import DecimalString.
From Stdlib Require Import Reals Lra.
Import ListNotations.

(* ===================================================================== *)
(** ** Checkpoint paths *)
(* ===================================================================== *)

Module Paths.

Local Open Scope string_scope.

(** [saver.save(sess, checkpoint_dir + '/data.ckpt')], line 439. *)
Definition train_best_path (checkpoint_dir : string) : string :=
  checkpoint_dir ++ "/data.ckpt".

(** [saver.save(sess, checkpoint_dir + '/final_data.ckpt')], line 444. *)
Definition train_final_path (checkpoint_dir : string) : string :=
  checkpoint_dir ++ "/final_data.ckpt".

(** [p = checkpoint_dir + 'data.ckpt'], line 492. *)
Definition test_restore_path (checkpoint_dir : string) : string :=
  checkpoint_dir ++ "data.ckpt".




(* --------------------------------------------------------------------- *)
(** *** Lemmas on strings *)

Lemma append_nil_r (s : string) : s ++ "" = s.
Proof. induction s as [|c s IH]; simpl; [reflexivity | now rewrite IH]. Qed.


Lemma append_inv_head (a b c : string) : a ++ b = a ++ c -> b = c.
Proof.
  induction a as [|x a IH]; simpl; intros H; [exact H | ].
  injection H as H. now apply IH.
Qed.






End Paths.

(* ===================================================================== *)
(** ** Tensor operations *)
(* ===================================================================== *)

(** TensorFlow's float32 tensors are idealised: a scalar is a real number,
    a rank-1 tensor a list, a rank-2 tensor a list of rows.  The operations
    below are the ones [model] and [conv_model] call, with the axis
    arguments the source passes them. *)

Module Tensor.

Local Open Scope R_scope.

Definition Vec := list R.
Definition Mat := list Vec.

(** [tf.reduce_sum] over one axis. *)
Definition reduce_sum (v : Vec) : R := fold_right Rplus 0 v.

(** [tf.reduce_mean] over all the elements. *)
Definition reduce_mean (v : Vec) : R := reduce_sum v / INR (length v).

(** Contraction of two vectors, the inner step of [tf.matmul]. *)
Definition dot (u v : Vec) : R :=
  reduce_sum (map (fun p => fst p * snd p) (combine u v)).

(** [tf.sqrt(tf.reduce_sum(tf.square(x), 2, keep_dims=True))] on one row. *)
Definition l2_norm (v : Vec) : R := sqrt (reduce_sum (map Rsqr v)).

(** [x / norm] on one row, over the reals.  On a row of norm zero the
    quotient of the reals is a number where float32 gives not-a-number:
    [Float32.fnormalize] is the float32 operation, and the two agree on
    every row of non-zero norm ([Float32.fnormalize_num]). *)
Definition normalize (v : Vec) : Vec := map (fun x => x / l2_norm v) v.

(** [tf.nn.embedding_lookup]: one row of the table per id.  An id outside
    the table selects the empty row here; TensorFlow fails the run instead,
    which the float pass models ([Float32.in_table]). *)
Definition embedding_lookup (emb : Mat) (ids : list nat) : Mat :=
  map (fun i => nth i emb []) ids.

(** [tf.matmul(a, tf.transpose(b, perm=[0, 2, 1]))] on one batch element:
    entry [i][j] contracts row [i] of [a] with row [j] of [b]. *)
Definition matmul_nt (a b : Mat) : Mat :=
  map (fun ai => map (fun bj => dot ai bj) b) a.

(** [tf.nn.relu]. *)
Definition relu (x : R) : R := Rmax x 0.

(** [tf.exp(-tf.square(tf.subtract(s, mu)) / tf.multiply(tf.square(sigma), 2))]. *)
Definition gaussian (mu sigma s : R) : R :=
  exp (- Rsqr (s - mu) / (Rsqr sigma * 2)).

(** [tf.log(tf.maximum(kde, 1e-10)) * 0.01], line 126. *)
Definition log_clamp (kde : R) : R := ln (Rmax kde 1e-10) * 0.01.

(** [tf.log1p(kde)], line 232. *)
Definition log1p (kde : R) : R := ln (1 + kde).

(** Three lists walked in step, stopping at the shortest. *)
Fixpoint map3 {A B C D : Type} (f : A -> B -> C -> D)
  (la : list A) (lb : list B) (lc : list C) : list D :=
  match la, lb, lc with
  | a :: la', b :: lb', c :: lc' => f a b c :: map3 f la' lb' lc'
  | _, _, _ => []
  end.

(** Four lists walked in step: the batch axis of the four inputs. *)
Fixpoint map4 {A B C D E : Type} (f : A -> B -> C -> D -> E)
  (la : list A) (lb : list B) (lc : list C) (ld : list D) : list E :=
  match la, lb, lc, ld with
  | a :: la', b :: lb', c :: lc', d :: ld' => f a b c d :: map4 f la' lb' lc' ld'
  | _, _, _, _ => []
  end.

(** *** Kernel pooling (one batch element)

    [kde_row] is [tf.reduce_sum(tmp, [2])] at one query position and one
    kernel: the masked Gaussian responses summed over the document axis. *)
Definition kde_row (mu sigma : R) (sim_row mask_row : Vec) : R :=
  reduce_sum (map (fun p => gaussian mu sigma (fst p) * snd p)
                  (combine sim_row mask_row)).

(** [tf.reduce_sum(kde * q_weights, [1])] for one kernel, after the
    compression [compress] of the path. *)
Definition soft_tf (compress : R -> R) (sim mask : Mat) (q_weights : Vec)
  (mu sigma : R) : R :=
  reduce_sum (map3 (fun s m w => compress (kde_row mu sigma s m) * w)
                   sim mask q_weights).

(** The [n_bins] features of one similarity matrix. *)
Definition kernel_pooling (compress : R -> R) (sim mask : Mat)
  (q_weights : Vec) (mu sigma : Vec) : Vec :=
  map (fun k => soft_tf compress sim mask q_weights (fst k) (snd k))
      (combine mu sigma).

(** *** One-dimensional convolution, [padding='same'], stride 1 *)

(** A filter bank: [kernel] is indexed [filter][offset][channel]
    (TensorFlow stores the same numbers as [offset][channel][filter]),
    [bias] has one entry per filter. *)
Record ConvFilter : Type := {
  kernel : list (list Vec);
  bias : Vec
}.

(** Zero rows before and after the sequence: [(size-1)/2] in front, the
    rest behind, so that the output keeps the length of the input. *)
Definition pad_same (size channels : nat) (x : Mat) : Mat :=
  repeat (repeat 0 channels) ((size - 1) / 2)
  ++ x
  ++ repeat (repeat 0 channels) ((size - 1) - (size - 1) / 2).

Definition windows (size : nat) (x : Mat) (n : nat) : list Mat :=
  map (fun t => firstn size (skipn t x)) (seq 0 n).

Definition conv_at (w : Mat) (k : list Vec) (b : R) : R :=
  reduce_sum (map (fun p => dot (fst p) (snd p)) (combine w k)) + b.

(** [tf.layers.conv1d(x, filters, size, padding='same',
    activation=tf.nn.relu)] on one batch element. *)
Definition conv1d (f : ConvFilter) (size channels : nat) (x : Mat) : Mat :=
  map (fun w => map (fun kb => relu (conv_at w (fst kb) (snd kb)))
                    (combine (kernel f) (bias f)))
      (windows size (pad_same size channels x) (length x)).

(* --------------------------------------------------------------------- *)
(** *** Lemmas *)

Lemma map3_length {A B C D : Type} (f : A -> B -> C -> D) la lb lc :
  length la = length lb -> length la = length lc ->
  length (map3 f la lb lc) = length la.
Proof.
  revert lb lc. induction la as [|a la IH]; intros [|b lb] [|c lc]; simpl;
    try discriminate; auto.
Qed.

Lemma map4_length {A B C D E : Type} (f : A -> B -> C -> D -> E) la lb lc ld :
  length la = length lb -> length la = length lc -> length la = length ld ->
  length (map4 f la lb lc ld) = length la.
Proof.
  revert lb lc ld.
  induction la as [|a la IH]; intros [|b lb] [|c lc] [|d ld]; simpl;
    try discriminate; auto.
Qed.

Lemma map4_length_min {A B C D E : Type} (f : A -> B -> C -> D -> E) la lb lc ld :
  length (map4 f la lb lc ld)
  = Nat.min (length la) (Nat.min (length lb) (Nat.min (length lc) (length ld))).
Proof.
  revert lb lc ld.
  induction la as [|a la IH]; intros [|b lb] [|c lc] [|d ld]; simpl;
    try reflexivity.
  now rewrite IH.
Qed.



Lemma kernel_pooling_length compress sim mask qw mu sigma :
  length (kernel_pooling compress sim mask qw mu sigma)
  = Nat.min (length mu) (length sigma).
Proof. unfold kernel_pooling. now rewrite length_map, length_combine. Qed.

Lemma gaussian_pos mu sigma s : 0 < gaussian mu sigma s.
Proof. unfold gaussian. apply exp_pos. Qed.

Lemma reduce_sum_nonneg (v : Vec) : Forall (fun x => 0 <= x) v -> 0 <= reduce_sum v.
Proof.
  induction 1 as [|x v Hx _ IH]; simpl; [lra | lra].
Qed.

(** With a mask that has no negative entry the summed density is
    non-negative. *)
Lemma kde_row_nonneg mu sigma sim_row mask_row :
  Forall (fun m => 0 <= m) mask_row -> 0 <= kde_row mu sigma sim_row mask_row.
Proof.
  intros Hm. unfold kde_row. apply reduce_sum_nonneg.
  revert sim_row. induction Hm as [|m mask_row Hm0 _ IH]; intros [|s sim_row];
    simpl; constructor.
  - pose proof (gaussian_pos mu sigma s). nra.
  - apply IH.
Qed.

Lemma ln_le (x y : R) : 0 < x -> x <= y -> ln x <= ln y.
Proof.
  intros Hx [Hlt | ->]; [left; now apply ln_increasing | right; reflexivity].
Qed.

(** The clamp bounds the argument of the logarithm away from zero. *)
Lemma clamp_floor (kde : R) : 1e-10 <= Rmax kde 1e-10.
Proof. apply Rmax_r. Qed.

Lemma log_clamp_floor (kde : R) : ln 1e-10 * 0.01 <= log_clamp kde.
Proof.
  unfold log_clamp. apply Rmult_le_compat_r; [lra | ].
  apply ln_le; [lra | apply clamp_floor].
Qed.

Lemma log1p_nonneg (kde : R) : 0 <= kde -> 0 <= log1p kde.
Proof.
  intros H. unfold log1p. rewrite <- ln_1. apply ln_le; lra.
Qed.

(** On every non-negative density the unigram compression lies strictly
    below the multi-scale one. *)
Lemma log_clamp_lt_log1p (kde : R) : 0 <= kde -> log_clamp kde < log1p kde.
Proof.
  intros H. unfold log_clamp, log1p, Rmax.
  destruct (Rle_dec kde 1e-10) as [Hle | Hgt].
  - assert (ln 1e-10 < 0) by (rewrite <- ln_1; apply ln_increasing; lra).
    assert (0 <= ln (1 + kde)) by (rewrite <- ln_1; apply ln_le; lra).
    nra.
  - assert (Hk : 0 < kde) by lra.
    assert (Hlt : ln kde < ln (1 + kde)) by (apply ln_increasing; lra).
    assert (0 <= ln (1 + kde)) by (rewrite <- ln_1; apply ln_le; lra).
    destruct (Rle_dec 0 (ln kde)); nra.
Qed.

(** The hyperbolic tangent takes its values strictly between -1 and 1. *)
Lemma tanh_range (x : R) : -1 < tanh x < 1.
Proof.
  unfold tanh, sinh, cosh.
  pose proof (exp_pos x) as Hp. pose proof (exp_pos (- x)) as Hn.
  assert (Hc : 0 < (exp x + exp (- x)) / 2) by lra.
  split.
  - apply Rmult_lt_reg_r with ((exp x + exp (- x)) / 2); [exact Hc | ].
    unfold Rdiv at 2. rewrite Rmult_assoc, Rinv_l by lra. lra.
  - apply Rmult_lt_reg_r with ((exp x + exp (- x)) / 2); [exact Hc | ].
    unfold Rdiv at 1. rewrite Rmult_assoc, Rinv_l by lra. lra.
Qed.

End Tensor.

(* ===================================================================== *)
(** ** Kernel bank *)
(* ===================================================================== *)

Module KernelBank.

Import Tensor.
Local Open Scope R_scope.

(** Modelled from the spec: [BaseNN.kernal_mus] and [BaseNN.kernel_sigmas]
    live in the package [knrm.model], whose source is not part of
    [model_knrm.py]; [KNRM.__init__] only calls them (lines 48-49, with
    [use_exact=True]).  The definitions below follow the specification of
    the Kernel Bank: bin spacing [2.0 / (n_bins - 1)]; entry 0 is the
    exact-match bin with [mu = 1.0] and a fixed width; the other
    [n_bins - 1] centres are the mid-points of consecutive bins of that
    spacing laid over [-1, 1), listed in increasing order; every other
    width is [lamb] times the spacing.

    The specification fixes the exact-match width only as "a small fixed
    constant (e.g. 1e-3)".  It is therefore the variable [exact_sigma] of
    this section, an arbitrary real: what is proved below holds for every
    positive value of it, and nothing depends on the example value. *)
Definition bin_size (n_bins : nat) : R := 2 / (INR n_bins - 1).

Definition kernal_mus (n_bins : nat) : Vec :=
  1 :: map (fun k => -1 + bin_size n_bins / 2 + INR k * bin_size n_bins)
           (seq 0 (n_bins - 1)).

Section ExactMatchWidth.

Variable exact_sigma : R.

Definition kernel_sigmas (n_bins : nat) (lamb : R) : Vec :=
  exact_sigma :: repeat (lamb * bin_size n_bins) (n_bins - 1).

End ExactMatchWidth.

(* --------------------------------------------------------------------- *)

Lemma bin_size_pos (n_bins : nat) : (2 <= n_bins)%nat -> 0 < bin_size n_bins.
Proof.
  intros H. unfold bin_size.
  assert (2 <= INR n_bins) by (change 2 with (INR 2); now apply le_INR).
  apply Rdiv_lt_0_compat; lra.
Qed.

Lemma kernal_mus_length (n_bins : nat) :
  (1 <= n_bins)%nat -> length (kernal_mus n_bins) = n_bins.
Proof. intros H. unfold kernal_mus. simpl. rewrite length_map, length_seq. lia. Qed.

Lemma kernel_sigmas_length (exact_sigma : R) (n_bins : nat) (lamb : R) :
  (1 <= n_bins)%nat -> length (kernel_sigmas exact_sigma n_bins lamb) = n_bins.
Proof. intros H. unfold kernel_sigmas. simpl. rewrite repeat_length. lia. Qed.

Lemma kernal_mus_nth (n_bins i : nat) :
  (i < n_bins - 1)%nat ->
  nth (S i) (kernal_mus n_bins) 0
  = -1 + bin_size n_bins / 2 + INR i * bin_size n_bins.
Proof.
  intros H. unfold kernal_mus. simpl.
  set (centre := fun k => -1 + bin_size n_bins / 2 + INR k * bin_size n_bins).
  rewrite (nth_indep _ 0 (centre 0%nat))
    by (rewrite length_map, length_seq; exact H).
  rewrite (map_nth centre), seq_nth by exact H. reflexivity.
Qed.

Lemma kernel_sigmas_nth (exact_sigma : R) (n_bins i : nat) (lamb : R) :
  (i < n_bins - 1)%nat ->
  nth (S i) (kernel_sigmas exact_sigma n_bins lamb) 0 = lamb * bin_size n_bins.
Proof.
  intros H. unfold kernel_sigmas. simpl.
  apply nth_repeat_lt. exact H.
Qed.

(** The exact-match width is a constant, the other widths scale with
    [lamb] and shrink with [n_bins]: whatever positive constant is used,
    some positive [lamb] puts the other widths strictly below it. *)
Lemma small_lamb_undercuts (exact_sigma : R) (n_bins : nat) :
  (2 <= n_bins)%nat -> 0 < exact_sigma ->
  exists lamb,
    0 < lamb
    /\ nth 1 (kernel_sigmas exact_sigma n_bins lamb) 0
       < nth 0 (kernel_sigmas exact_sigma n_bins lamb) 0.
Proof.
  intros Hn Hs. pose proof (bin_size_pos n_bins Hn) as Hb.
  exists (exact_sigma / 2 / bin_size n_bins). split.
  - apply Rdiv_lt_0_compat; lra.
  - rewrite kernel_sigmas_nth by lia. simpl.
    replace (exact_sigma / 2 / bin_size n_bins * bin_size n_bins)
      with (exact_sigma / 2) by (field; lra).
    lra.
Qed.

(** C6 (as stated, refuted).  Whatever positive value the fixed exact-match
    width has, it is not below the other widths for every [n_bins >= 2] and
    every [lamb > 0]: for each bin count some positive [lamb] puts the
    other widths strictly below it.  At the specification's example value
    [1e-3], two bins and [lamb = 1e-4] give the other width [2e-4]. *)
Lemma exact_sigma_not_smallest :
  (forall exact_sigma n_bins, 0 < exact_sigma -> (2 <= n_bins)%nat ->
     exists lamb,
       0 < lamb
       /\ nth 1 (kernel_sigmas exact_sigma n_bins lamb) 0
          < nth 0 (kernel_sigmas exact_sigma n_bins lamb) 0)
  /\ (2 <= 2)%nat /\ 0 < 1e-4
  /\ nth 1 (kernel_sigmas 1e-3 2 1e-4) 0 = 2e-4
  /\ nth 0 (kernel_sigmas 1e-3 2 1e-4) 0 = 1e-3
  /\ nth 1 (kernel_sigmas 1e-3 2 1e-4) 0 < nth 0 (kernel_sigmas 1e-3 2 1e-4) 0.
Proof.
  split; [intros c n Hc Hn; now apply small_lamb_undercuts | ].
  split; [lia | split; [lra | ]].
  unfold kernel_sigmas, bin_size. simpl. repeat split; lra.
Qed.

(** C6 (amended).  For every positive value [exact_sigma] of the fixed
    exact-match width, every [n_bins >= 2] and every [lamb > 0], the kernel
    bank has [n_bins] centres and [n_bins] widths; the exact-match bin has
    centre 1 and the width [exact_sigma], which depends neither on [n_bins]
    nor on [lamb]; the other centres are strictly increasing, consecutive
    ones [2 / (n_bins - 1)] apart; every other width equals [lamb] times
    that spacing; all widths are positive; and the exact-match width is
    below the others exactly when it is below [lamb] times the spacing. *)
Theorem kernel_bank_shape (exact_sigma : R) (n_bins : nat) (lamb : R) :
  0 < exact_sigma -> (2 <= n_bins)%nat -> 0 < lamb ->
  length (kernal_mus n_bins) = n_bins
  /\ length (kernel_sigmas exact_sigma n_bins lamb) = n_bins
  /\ nth 0 (kernal_mus n_bins) 0 = 1
  /\ nth 0 (kernel_sigmas exact_sigma n_bins lamb) 0 = exact_sigma
  /\ (forall i, (1 <= i)%nat -> (S i < n_bins)%nat ->
        nth (S i) (kernal_mus n_bins) 0 - nth i (kernal_mus n_bins) 0
        = 2 / (INR n_bins - 1))
  /\ (forall i j, (1 <= i)%nat -> (i < j)%nat -> (j < n_bins)%nat ->
        nth i (kernal_mus n_bins) 0 < nth j (kernal_mus n_bins) 0)
  /\ (forall i, (1 <= i)%nat -> (i < n_bins)%nat ->
        nth i (kernel_sigmas exact_sigma n_bins lamb) 0
        = lamb * (2 / (INR n_bins - 1)))
  /\ Forall (fun s => 0 < s) (kernel_sigmas exact_sigma n_bins lamb)
  /\ (forall i, (1 <= i)%nat -> (i < n_bins)%nat ->
        (nth 0 (kernel_sigmas exact_sigma n_bins lamb) 0
         < nth i (kernel_sigmas exact_sigma n_bins lamb) 0
         <-> exact_sigma < lamb * (2 / (INR n_bins - 1)))).
Proof.
  intros Hc Hn Hl. pose proof (bin_size_pos n_bins Hn) as Hb.
  assert (Hn1 : 0 < INR n_bins - 1).
  { assert (2 <= INR n_bins) by (change 2 with (INR 2); now apply le_INR). lra. }
  split; [apply kernal_mus_length; lia | ].
  split; [apply kernel_sigmas_length; lia | ].
  split; [reflexivity | ]. split; [reflexivity | ].
  split.
  { intros [|i] Hi Hlt; [lia | ].
    rewrite !kernal_mus_nth by lia. rewrite S_INR. fold (bin_size n_bins). lra. }
  split.
  { intros [|i] [|j] Hi Hij Hj; try lia.
    rewrite !kernal_mus_nth by lia.
    assert (INR i < INR j) by (apply lt_INR; lia). nra. }
  split.
  { intros [|i] Hi Hlt; [lia | ].
    rewrite kernel_sigmas_nth by lia. reflexivity. }
  split.
  { unfold kernel_sigmas. constructor; [exact Hc | ].
    apply Forall_forall. intros s Hs. apply repeat_spec in Hs. subst s.
    now apply Rmult_lt_0_compat. }
  intros [|i] Hi Hlt; [lia | ].
  rewrite kernel_sigmas_nth by lia. simpl. reflexivity.
Qed.

Lemma kernel_bank_shape_default :
  0 < 1e-3 /\ (2 <= 11)%nat /\ 0 < 0.5
  /\ length (kernal_mus 11) = 11%nat
  /\ length (kernel_sigmas 1e-3 11 0.5) = 11%nat
  /\ nth 0 (kernal_mus 11) 0 = 1
  /\ nth 0 (kernel_sigmas 1e-3 11 0.5) 0 = 1e-3
  /\ Forall (fun s => 0 < s) (kernel_sigmas 1e-3 11 0.5).
Proof.
  assert (H0 : 0 < 1e-3) by lra.
  assert (H1 : (2 <= 11)%nat) by lia.
  assert (H2 : 0 < 0.5) by lra.
  destruct (kernel_bank_shape 1e-3 11 0.5 H0 H1 H2)
    as (Hm & Hs & Hm0 & Hs0 & _ & _ & _ & Hpos & _).
  repeat split; assumption.
Defined.

End KernelBank.

(* ===================================================================== *)
(** ** Variable scopes *)
(* ===================================================================== *)

(** [conv_model] obtains its convolution filters from [tf.layers.conv1d]
    inside [tf.variable_scope] blocks.  Which variable a layer reads is
    decided by TensorFlow's variable store: a layer without an explicit
    name takes the first free default name of the current scope
    ([conv1d], [conv1d_1], ...), the count of used names of a scope's
    children is reset when the scope is left, and [get_variable] creates or
    shares according to the reuse mode of the scope.  This module models
    that store as a state monad; [None] stands for the [ValueError] raised
    on a forbidden creation or reuse. *)

Module VarScope.

Local Open Scope string_scope.

(** The reuse mode of a scope: [False], [True] or [tf.AUTO_REUSE]. *)
Inductive Reuse : Type := NoReuse | MustReuse | AutoReuse.

Record Store : Type := {
  variables : list string;   (* names of the variables created so far *)
  opened : list string       (* scope names whose use is being counted *)
}.

Definition empty_store : Store := {| variables := []; opened := [] |}.

Record Scope : Type := {
  name : string;
  reuse : Reuse
}.

Definition root_scope : Scope := {| name := ""; reuse := NoReuse |}.

Definition Build (A : Type) : Type := Store -> option (A * Store).

Definition ret {A : Type} (a : A) : Build A := fun st => Some (a, st).

Definition bind {A B : Type} (m : Build A) (k : A -> Build B) : Build B :=
  fun st => match m st with
            | Some (a, st') => k a st'
            | None => None
            end.

Declare Scope build_scope.
Delimit Scope build_scope with build.
Notation "x <- m ;; k" := (bind m (fun x => k))
  (at level 61, m at next level, right associativity) : build_scope.
Local Open Scope build_scope.

Definition join (scope sub : string) : string :=
  match scope with
  | EmptyString => sub
  | _ => scope ++ "/" ++ sub
  end.

Definition scope_count (st : Store) (n : string) : nat :=
  count_occ string_dec (opened st) n.

(** [self._reuse or self._old.reuse]: an explicit truthy mode wins,
    otherwise the mode of the enclosing scope is inherited. *)
Definition inherit (r : option Reuse) (old : Reuse) : Reuse :=
  match r with
  | Some MustReuse => MustReuse
  | Some AutoReuse => AutoReuse
  | _ => old
  end.

(** Entering [with tf.variable_scope(sub, reuse=r)]. *)
Definition enter (old : Scope) (sub : string) (r : option Reuse) : Build Scope :=
  fun st =>
    let sc := {| name := join (name old) sub; reuse := inherit r (reuse old) |} in
    Some (sc, {| variables := variables st; opened := name sc :: opened st |}).

(** Leaving the block: the counts of the scope's children start again. *)
Definition leave (sc : Scope) : Build unit :=
  fun st =>
    Some (tt, {| variables := variables st;
                 opened := filter (fun k => negb (prefix (name sc ++ "/") k))
                                  (opened st) |}).

Definition with_scope {A : Type} (old : Scope) (sub : string)
  (r : option Reuse) (body : Scope -> Build A) : Build A :=
  sc <- enter old sub r ;;
  a <- body sc ;;
  _ <- leave sc ;;
  ret a.

(** [scope.reuse_variables()]. *)
Definition reuse_variables (sc : Scope) : Scope :=
  {| name := name sc; reuse := MustReuse |}.

Definition decimal (n : nat) : string :=
  NilEmpty.string_of_uint (Nat.to_uint n).

(** The first index from [idx] on whose suffixed name is unused. *)
Fixpoint first_free (st : Store) (full : string) (idx fuel : nat) : nat :=
  match fuel with
  | O => idx
  | S fuel' =>
      if Nat.eqb (scope_count st (full ++ "_" ++ decimal idx)) 0 then idx
      else first_free st full (S idx) fuel'
  end.

(** The default name a layer gets in scope [sc]: [prefix] itself when it
    is unused there, else [prefix_k] for the least unused [k >= 1].  At most
    [length (opened st)] names are in use, which bounds the search. *)
Definition unique_name (st : Store) (sc : Scope) (prefix : string) : string :=
  let full := join (name sc) prefix in
  if Nat.eqb (scope_count st full) 0 then prefix
  else prefix ++ "_" ++ decimal (first_free st full 1 (List.length (opened st))).

(** [tf.get_variable] under the reuse mode of [sc]: an existing variable
    is shared unless reuse is off, a missing one is created unless reuse is
    mandatory. *)
Definition get_variable (sc : Scope) (var : string) : Build string :=
  fun st =>
    let full := join (name sc) var in
    if existsb (String.eqb full) (variables st) then
      match reuse sc with
      | NoReuse => None
      | _ => Some (full, st)
      end
    else
      match reuse sc with
      | MustReuse => None
      | _ => Some (full, {| variables := (variables st ++ [full])%list;
                            opened := opened st |})
      end.

(** An unnamed [tf.layers.conv1d] built in scope [sc]: the layer takes a
    default-named scope of its own and gets its [kernel] and [bias] there.
    The result is the name of the layer's scope. *)
Definition conv1d_layer (sc : Scope) : Build string :=
  fun st =>
    (layer <- enter sc (unique_name st sc "conv1d") None ;;
     _ <- get_variable layer "kernel" ;;
     _ <- get_variable layer "bias" ;;
     _ <- leave layer ;;
     ret (name layer)) st.

End VarScope.

(* ===================================================================== *)
(** ** The scoring graph *)
(* ===================================================================== *)

Module Graph.

Import Tensor.
Import VarScope.
Local Open Scope R_scope.
Local Open Scope build_scope.

(** The configurable traits the class reads through [self]: those declared
    on [KNRM] (lines 38-43) and those inherited from [BaseNN]. *)
Record Config : Type := {
  n_bins : nat;
  vocabulary_size : nat;
  embedding_size : nat;
  batch_size : nat;
  max_q_len : nat;
  max_d_len : nat;
  max_epochs : nat;
  eval_frequency : Z;
  num_filters : nat
}.

(** [kernel_sizes = [1, 2, 3]], a plain class attribute (line 43). *)
Definition kernel_sizes : list nat := [1; 2; 3]%nat.

(** The values of the trainable variables held by a session.  The
    convolution filters are created by [tf.layers.conv1d] and are known to
    the session by the name of the variable scope of their layer. *)
Record Params : Type := {
  embeddings : Mat;
  W1 : Vec;
  b1 : R;
  W2 : Vec;
  conv_filter : string -> ConvFilter
}.



(** What a forward pass returns: [(sim, feats, lo), o]. *)
Record Forward (S : Type) : Type := {
  f_sim : S;
  f_feats : list Vec;
  f_lo : Vec;
  f_o : Vec
}.
Arguments f_sim {S} _.
Arguments f_feats {S} _.
Arguments f_lo {S} _.
Arguments f_o {S} _.

(** *** [KNRM.model] (unigram path), lines 86-162 *)

Definition model_sim (P : Params) (q d : list nat) : Mat :=
  let q_embed := embedding_lookup (embeddings P) q in
  let d_embed := embedding_lookup (embeddings P) d in
  let normalized_q_embed := map normalize q_embed in
  let normalized_d_embed := map normalize d_embed in
  matmul_nt normalized_q_embed normalized_d_embed.

Definition model_feats (mu sigma : Vec) (sim mask : Mat) (q_weights : Vec) : Vec :=
  kernel_pooling log_clamp sim mask q_weights mu sigma.

Definition model_lo (P : Params) (feats : Vec) : R := dot feats (W1 P) + b1 P.

Definition model (P : Params)
  (inputs_q inputs_d : list (list nat)) (mask : list Mat) (q_weights : list Vec)
  (mu sigma : Vec) : Forward (list Mat) :=
  let sim := map (fun qd => model_sim P (fst qd) (snd qd))
                 (combine inputs_q inputs_d) in
  let feats_flat :=
    map4 (fun q d m w => model_feats mu sigma (model_sim P q d) m w)
         inputs_q inputs_d mask q_weights in
  let lo := map (model_lo P) feats_flat in
  {| f_sim := sim; f_feats := feats_flat; f_lo := lo; f_o := map tanh lo |}.

(** *** [KNRM.conv_model] (multi-scale path), lines 164-271

    A convolution layer of the graph: its window size and the variable
    scopes that hold the query-side and the document-side filters. *)
Record ConvLayer : Type := {
  size : nat;
  q_scope : string;
  d_scope : string
}.

Definition conv_simis (cfg : Config) (P : Params) (layers : list ConvLayer)
  (q d : list nat) : list Mat :=
  let q_embed := embedding_lookup (embeddings P) q in
  let d_embed := embedding_lookup (embeddings P) d in
  let q_convs :=
    map (fun l => conv1d (conv_filter P (q_scope l)) (size l)
                         (embedding_size cfg) q_embed) layers in
  let d_convs :=
    map (fun l => conv1d (conv_filter P (d_scope l)) (size l)
                         (embedding_size cfg) d_embed) layers in
  let normalized_q_convs := map (map normalize) q_convs in
  let normalized_d_convs := map (map normalize) d_convs in
  flat_map (fun nq => map (fun nd => matmul_nt nq nd) normalized_d_convs)
           normalized_q_convs.

Definition conv_feats (mu sigma : Vec) (simis : list Mat) (mask : Mat)
  (q_weights : Vec) : Vec :=
  concat (map (fun sim => kernel_pooling log1p sim mask q_weights mu sigma) simis).

Definition conv_lo (P : Params) (feats : Vec) : R := dot feats (W2 P) + b1 P.

Definition conv_model (cfg : Config) (P : Params) (layers : list ConvLayer)
  (inputs_q inputs_d : list (list nat)) (mask : list Mat) (q_weights : list Vec)
  (mu sigma : Vec) : Forward (list (list Mat)) :=
  let simis := map (fun qd => conv_simis cfg P layers (fst qd) (snd qd))
                   (combine inputs_q inputs_d) in
  let feats_tmp :=
    map4 (fun q d m w => conv_feats mu sigma (conv_simis cfg P layers q d) m w)
         inputs_q inputs_d mask q_weights in
  let lo := map (conv_lo P) feats_tmp in
  {| f_sim := simis; f_feats := feats_tmp; f_lo := lo; f_o := map tanh lo |}.

(** *** The training loss, line 324 *)

(** [tf.maximum(0.0, 1 - o_pos + o_neg)] on one pair. *)
Definition hinge (o_pos o_neg : R) : R := Rmax 0 (1 - o_pos + o_neg).

(** [tf.reduce_mean(tf.maximum(0.0, 1 - o_pos + o_neg))]. *)
Definition loss (o_pos o_neg : Vec) : R :=
  reduce_mean (map (fun pn => hinge (fst pn) (snd pn)) (combine o_pos o_neg)).

(** *** Which variables a forward pass reads

    [conv_model] is split in two: [conv_model_graph] is the effect of
    building the graph on the variable store (the three [variable_scope]
    blocks and the six unnamed [conv1d] layers), [conv_model] above is the
    value the built graph computes from the filters so named. *)

Fixpoint conv_layers (sc : Scope) (sizes : list nat) : Build (list ConvLayer) :=
  match sizes with
  | [] => ret []
  | sz :: rest =>
      q <- conv1d_layer sc ;;
      d <- conv1d_layer sc ;;
      ls <- conv_layers sc rest ;;
      ret ({| size := sz; q_scope := q; d_scope := d |} :: ls)
  end.

Definition conv_model_graph (outer : Scope) : Build (list ConvLayer) :=
  layers <- with_scope outer "cnn" (Some AutoReuse)
              (fun sc => conv_layers sc kernel_sizes) ;;
  _ <- with_scope outer "kernel" (Some AutoReuse) (fun _ => ret tt) ;;
  _ <- with_scope outer "fc" (Some AutoReuse) (fun _ => ret tt) ;;
  ret layers.

Inductive ScoreGraph : Type :=
| Unigram
| MultiScale (layers : list ConvLayer).

(** The training graph, lines 312-323: the positive pass, then the
    negative pass (in conv mode after [scope.reuse_variables()]). *)
Definition train_graph (conv : bool) : Build (ScoreGraph * ScoreGraph) :=
  if negb conv then ret (Unigram, Unigram)
  else
    with_scope root_scope "model" None (fun scope =>
      pos <- conv_model_graph scope ;;
      neg <- conv_model_graph (reuse_variables scope) ;;
      ret (MultiScale pos, MultiScale neg)).

(** The inference graph, lines 479-483. *)
Definition test_graph (conv : bool) : Build ScoreGraph :=
  if negb conv then ret Unigram
  else
    with_scope root_scope "model" None (fun scope =>
      layers <- conv_model_graph scope ;;
      ret (MultiScale layers)).

(** The parameters a built pass refers to. *)
Inductive ParamRef : Type :=
| PEmbeddings
| PW1
| PW2
| PB1
| PConv (scope : string).

Definition params_read (g : ScoreGraph) : list ParamRef :=
  match g with
  | Unigram => [PEmbeddings; PW1; PB1]
  | MultiScale layers =>
      PEmbeddings
      :: flat_map (fun l => [PConv (q_scope l); PConv (d_scope l)]) layers
      ++ [PW2; PB1]
  end.

(** The score tensor [o] of a built pass. *)
Definition scores (cfg : Config) (P : Params) (g : ScoreGraph)
  (inputs_q inputs_d : list (list nat)) (mask : list Mat) (q_weights : list Vec)
  (mu sigma : Vec) : Vec :=
  match g with
  | Unigram => f_o (model P inputs_q inputs_d mask q_weights mu sigma)
  | MultiScale layers =>
      f_o (conv_model cfg P layers inputs_q inputs_d mask q_weights mu sigma)
  end.

(** [o_pos] and [o_neg] of one training step. *)
Definition train_scores (cfg : Config) (P : Params) (tg : ScoreGraph * ScoreGraph)
  (q d_pos d_neg : list (list nat)) (mask_pos mask_neg : list Mat)
  (q_weights : list Vec) (mu sigma : Vec) : Vec * Vec :=
  (scores cfg P (fst tg) q d_pos mask_pos q_weights mu sigma,
   scores cfg P (snd tg) q d_neg mask_neg q_weights mu sigma).

(** *** A small concrete model, used to exercise the statements *)

Definition sample_cfg : Config :=
  {| n_bins := 2; vocabulary_size := 2; embedding_size := 1;
     batch_size := 2; max_q_len := 1; max_d_len := 1;
     max_epochs := 2; eval_frequency := 10; num_filters := 1 |}.

Definition sample_params : Params :=
  {| embeddings := [[1]; [1]; [-1]];
     W1 := [1; 1];
     b1 := 0;
     W2 := repeat 1 18;
     conv_filter := fun _ => {| kernel := [[[1]]]; bias := [0] |} |}.

(** The layers and the variable store that building the conv graph in a
    fresh store yields (see [train_graph_conv] and [test_graph_conv]). *)
Definition conv_layers_built : list ConvLayer :=
  [ {| size := 1; q_scope := "model/cnn/conv1d"; d_scope := "model/cnn/conv1d_1" |};
    {| size := 2; q_scope := "model/cnn/conv1d_2"; d_scope := "model/cnn/conv1d_3" |};
    {| size := 3; q_scope := "model/cnn/conv1d_4"; d_scope := "model/cnn/conv1d_5" |} ].

Definition conv_store : Store :=
  {| variables :=
       ["model/cnn/conv1d/kernel"; "model/cnn/conv1d/bias";
        "model/cnn/conv1d_1/kernel"; "model/cnn/conv1d_1/bias";
        "model/cnn/conv1d_2/kernel"; "model/cnn/conv1d_2/bias";
        "model/cnn/conv1d_3/kernel"; "model/cnn/conv1d_3/bias";
        "model/cnn/conv1d_4/kernel"; "model/cnn/conv1d_4/bias";
        "model/cnn/conv1d_5/kernel"; "model/cnn/conv1d_5/bias"]%string;
     opened := ["model"%string] |}.

(* --------------------------------------------------------------------- *)
(** *** Properties of the graph *)

Lemma flat_map_product_length {A B C : Type} (g : A -> B -> C) la lb :
  length (flat_map (fun a => map (g a) lb) la) = (length la * length lb)%nat.
Proof.
  induction la as [|a la IH]; simpl; [reflexivity | ].
  now rewrite length_app, length_map, IH.
Qed.

Lemma conv_simis_length cfg P layers q d :
  length (conv_simis cfg P layers q d) = (length layers * length layers)%nat.
Proof.
  unfold conv_simis.
  rewrite (flat_map_product_length (fun nq nd => matmul_nt nq nd)).
  now rewrite !length_map.
Qed.

Lemma conv_feats_length mu sigma simis mask qw :
  length (conv_feats mu sigma simis mask qw)
  = (length simis * Nat.min (length mu) (length sigma))%nat.
Proof.
  unfold conv_feats. induction simis as [|s simis IH]; simpl; [reflexivity | ].
  now rewrite length_app, kernel_pooling_length, IH.
Qed.

Lemma tanh_all_in_range (lo : Vec) : Forall (fun s => -1 < s < 1) (map tanh lo).
Proof.
  apply Forall_forall. intros s Hs. apply in_map_iff in Hs.
  destruct Hs as (x & <- & _). apply tanh_range.
Qed.

(** The graph built for training in conv mode: six filter banks, and the
    negative pass names the very same six. *)
Lemma train_graph_conv :
  train_graph true empty_store
  = Some ((MultiScale conv_layers_built, MultiScale conv_layers_built), conv_store).
Proof. vm_compute. reflexivity. Qed.

Lemma test_graph_conv :
  test_graph true empty_store = Some (MultiScale conv_layers_built, conv_store).
Proof. vm_compute. reflexivity. Qed.

(** Built a second time without leaving the enclosing block, the layers
    would take fresh names: sharing hinges on the scope being re-entered. *)
Lemma conv_layers_twice_in_one_block :
  option_map fst
    ((sc <- enter root_scope "cnn" (Some AutoReuse) ;;
      _ <- conv_layers sc [1%nat] ;;
      conv_layers sc [1%nat]) empty_store)
  = Some [ {| size := 1; q_scope := "cnn/conv1d_2"; d_scope := "cnn/conv1d_3" |} ].
Proof. vm_compute. reflexivity. Qed.

Lemma hinge_zero_iff (o_pos o_neg : R) : hinge o_pos o_neg = 0 <-> 1 <= o_pos - o_neg.
Proof.
  unfold hinge, Rmax. destruct (Rle_dec 0 (1 - o_pos + o_neg)); split; intros; lra.
Qed.

Lemma hinge_pos (o_pos o_neg : R) : o_pos - o_neg < 1 -> 0 < hinge o_pos o_neg.
Proof.
  unfold hinge, Rmax. destruct (Rle_dec 0 (1 - o_pos + o_neg)); intros; lra.
Qed.

Lemma hinge_value (o_pos o_neg : R) :
  o_pos - o_neg <= 1 -> hinge o_pos o_neg = 1 - o_pos + o_neg.
Proof.
  unfold hinge, Rmax. destruct (Rle_dec 0 (1 - o_pos + o_neg)); intros; lra.
Qed.

(** C5 (as stated, refuted).  For the scores 0.9 and 0.2 the pair loss is
    0.3, not 0: the scores are only 0.7 apart, short of the margin. *)
Lemma hinge_example_not_zero :
  hinge 0.9 0.2 = 0.3 /\ hinge 0.9 0.2 <> 0.
Proof.
  assert (H : hinge 0.9 0.2 = 0.3) by (rewrite hinge_value; lra).
  split; [exact H | rewrite H; lra].
Qed.

(** C5 (amended).  The training loss is the mean over the batch of
    [max(0, 1 - o_pos + o_neg)]; the loss of a pair is zero exactly when
    [o_pos - o_neg >= 1] and positive otherwise; the scores 0.9 and 0.2
    give the pair loss 0.3, the scores 0.5 and 0.6 give 1.1. *)
Theorem hinge_loss_mean (o_pos o_neg : Vec) :
  loss o_pos o_neg
  = reduce_sum (map (fun pn => Rmax 0 (1 - fst pn + snd pn)) (combine o_pos o_neg))
    / INR (length (combine o_pos o_neg))
  /\ (forall p n : R,
        (hinge p n = 0 <-> 1 <= p - n) /\ (p - n < 1 -> 0 < hinge p n))
  /\ hinge 0.9 0.2 = 0.3
  /\ hinge 0.5 0.6 = 1.1.
Proof.
  split; [ | split; [ | split]].
  - unfold loss, reduce_mean. now rewrite length_map.
  - intros p n. split; [apply hinge_zero_iff | apply hinge_pos].
  - rewrite hinge_value; lra.
  - rewrite hinge_value; lra.
Qed.

(** C7. The positive and the negative forward pass of a training step are
    built over the same parameters: both read the one embedding table, in
    conv mode the same six convolution filter banks, and the same scoring
    weights and bias.  Consequently, fed the same document ids and mask,
    the two passes give the same score vector. *)
Theorem shared_parameters (cfg : Config) (conv : bool) :
  exists (tg : ScoreGraph * ScoreGraph) (st : Store),
    train_graph conv empty_store = Some (tg, st)
    /\ params_read (snd tg) = params_read (fst tg)
    /\ forall (P : Params) (q d : list (list nat)) (mask : list Mat)
              (q_weights : list Vec) (mu sigma : Vec),
         snd (train_scores cfg P tg q d d mask mask q_weights mu sigma)
         = fst (train_scores cfg P tg q d d mask mask q_weights mu sigma).
Proof.
  destruct conv.
  - exists (MultiScale conv_layers_built, MultiScale conv_layers_built), conv_store.
    split; [exact train_graph_conv | ]. split; reflexivity.
  - exists (Unigram, Unigram), empty_store.
    split; [reflexivity | ]. split; reflexivity.
Qed.

End Graph.

(* ===================================================================== *)
(** ** The forward pass with the special values of float32 *)
(* ===================================================================== *)

(** [Graph.model] and [Graph.conv_model] compute over the reals, where every
    division has a value.  The tensors of the program are float32: dividing
    zero by zero gives not-a-number, dividing another number by zero an
    infinity, and both spread through the rest of the computation.  This
    module is the same forward pass over values that are a number, an
    infinity or not-a-number.  Numbers are reals: rounding, overflow and the
    sign of zero are not modelled.  An id outside the embedding table makes
    the run fail ([InvalidArgumentError] from the lookup). *)

Module Float32.

Import Tensor.
Import Graph.
Local Open Scope R_scope.

Inductive F : Type :=
| Num (x : R)
| PInf
| NInf
| NaN.

Definition FVec := list F.
Definition FMat := list FVec.

(** The sign of a real. *)
Definition Rsign (x : R) : comparison :=
  match total_order_T x 0 with
  | inleft (left _) => Lt
  | inleft (right _) => Eq
  | inright _ => Gt
  end.

Definition fneg (a : F) : F :=
  match a with
  | Num x => Num (- x)
  | PInf => NInf
  | NInf => PInf
  | NaN => NaN
  end.

Definition fadd (a b : F) : F :=
  match a, b with
  | NaN, _ => NaN
  | _, NaN => NaN
  | Num x, Num y => Num (x + y)
  | PInf, NInf => NaN
  | NInf, PInf => NaN
  | PInf, _ => PInf
  | _, PInf => PInf
  | NInf, _ => NInf
  | _, NInf => NInf
  end.

Definition fsub (a b : F) : F := fadd a (fneg b).

(** An infinity of the given sign times the number [x]; also the number
    [x] divided by zero. *)
Definition finf (positive : bool) : F := if positive then PInf else NInf.

Definition fmul_inf (positive : bool) (x : R) : F :=
  match Rsign x with
  | Lt => finf (negb positive)
  | Eq => NaN
  | Gt => finf positive
  end.

Definition fmul (a b : F) : F :=
  match a, b with
  | NaN, _ => NaN
  | _, NaN => NaN
  | Num x, Num y => Num (x * y)
  | Num x, PInf => fmul_inf true x
  | PInf, Num x => fmul_inf true x
  | Num x, NInf => fmul_inf false x
  | NInf, Num x => fmul_inf false x
  | PInf, PInf => PInf
  | NInf, NInf => PInf
  | PInf, NInf => NInf
  | NInf, PInf => NInf
  end.

Definition fdiv (a b : F) : F :=
  match a, b with
  | NaN, _ => NaN
  | _, NaN => NaN
  | Num x, Num y => if Req_EM_T y 0 then fmul_inf true x else Num (x / y)
  | Num _, PInf => Num 0
  | Num _, NInf => Num 0
  | PInf, Num y => if Rlt_dec y 0 then NInf else PInf
  | NInf, Num y => if Rlt_dec y 0 then PInf else NInf
  | PInf, PInf => NaN
  | PInf, NInf => NaN
  | NInf, PInf => NaN
  | NInf, NInf => NaN
  end.

Definition fsqrt (a : F) : F :=
  match a with
  | Num x => if Rlt_dec x 0 then NaN else Num (sqrt x)
  | PInf => PInf
  | NInf => NaN
  | NaN => NaN
  end.

Definition fexp (a : F) : F :=
  match a with
  | Num x => Num (exp x)
  | PInf => PInf
  | NInf => Num 0
  | NaN => NaN
  end.

Definition flog (a : F) : F :=
  match a with
  | Num x =>
      match Rsign x with
      | Lt => NaN
      | Eq => NInf
      | Gt => Num (ln x)
      end
  | PInf => PInf
  | NInf => NaN
  | NaN => NaN
  end.

Definition ftanh (a : F) : F :=
  match a with
  | Num x => Num (tanh x)
  | PInf => Num 1
  | NInf => Num (-1)
  | NaN => NaN
  end.

(** [a < b]; false as soon as an operand is not-a-number. *)
Definition flt (a b : F) : bool :=
  match a, b with
  | NaN, _ => false
  | _, NaN => false
  | Num x, Num y => if Rlt_dec x y then true else false
  | PInf, _ => false
  | _, NInf => false
  | NInf, _ => true
  | Num _, PInf => true
  end.

(** What a forward pass returns: [(sim, feats, lo), o]. *)
Record FForward (S : Type) : Type := {
  ff_sim : S;
  ff_feats : list FVec;
  ff_lo : FVec;
  ff_o : FVec
}.
Arguments ff_sim {S} _.
Arguments ff_feats {S} _.
Arguments ff_lo {S} _.
Arguments ff_o {S} _.

Section Maximum.

(** [tf.maximum] is the larger operand.  What it returns when an operand
    is not-a-number differs between the kernels of TensorFlow; it is left
    open here, as the variable [max_nan]. *)
Variable max_nan : F -> F -> F.

Definition fmax (a b : F) : F :=
  match a, b with
  | NaN, _ => max_nan a b
  | _, NaN => max_nan a b
  | _, _ => if flt a b then b else a
  end.

(** *** Tensors *)

Definition fsum (v : FVec) : F := fold_right fadd (Num 0) v.

Definition fdot (u v : FVec) : F :=
  fsum (map (fun p => fmul (fst p) (snd p)) (combine u v)).

(** [x / tf.sqrt(tf.reduce_sum(tf.square(x), 2, keep_dims=True))] on one
    row of numbers. *)
Definition fnormalize (v : Vec) : FVec :=
  let norm := fsqrt (fsum (map (fun x => fmul (Num x) (Num x)) v)) in
  map (fun x => fdiv (Num x) norm) v.

Definition fmatmul_nt (a b : FMat) : FMat :=
  map (fun ai => map (fun bj => fdot ai bj) b) a.

(** [tf.exp(-tf.square(tf.subtract(s, mu)) / tf.multiply(tf.square(sigma), 2))]. *)
Definition fgaussian (mu sigma : R) (s : F) : F :=
  let diff := fsub s (Num mu) in
  fexp (fdiv (fneg (fmul diff diff))
             (fmul (fmul (Num sigma) (Num sigma)) (Num 2))).

(** [tf.log(tf.maximum(kde, 1e-10)) * 0.01], line 126. *)
Definition flog_clamp (kde : F) : F :=
  fmul (flog (fmax kde (Num 1e-10))) (Num 0.01).

(** [tf.log1p(kde)], line 232. *)
Definition flog1p (kde : F) : F := flog (fadd (Num 1) kde).

Definition fkde_row (mu sigma : R) (sim_row : FVec) (mask_row : Vec) : F :=
  fsum (map (fun p => fmul (fgaussian mu sigma (fst p)) (Num (snd p)))
            (combine sim_row mask_row)).

Definition fsoft_tf (compress : F -> F) (sim : FMat) (mask : Mat)
  (q_weights : Vec) (mu sigma : R) : F :=
  fsum (map3 (fun s m w => fmul (compress (fkde_row mu sigma s m)) (Num w))
             sim mask q_weights).

Definition fkernel_pooling (compress : F -> F) (sim : FMat) (mask : Mat)
  (q_weights : Vec) (mu sigma : Vec) : FVec :=
  map (fun k => fsoft_tf compress sim mask q_weights (fst k) (snd k))
      (combine mu sigma).

(** *** The two forward passes *)

(** Every id of the batch names a row of the embedding table. *)
Definition in_table (emb : Mat) (ids : list (list nat)) : bool :=
  forallb (forallb (fun i => Nat.ltb i (length emb))) ids.

Definition fmodel_sim (P : Params) (q d : list nat) : FMat :=
  let q_embed := embedding_lookup (embeddings P) q in
  let d_embed := embedding_lookup (embeddings P) d in
  let normalized_q_embed := map fnormalize q_embed in
  let normalized_d_embed := map fnormalize d_embed in
  fmatmul_nt normalized_q_embed normalized_d_embed.

Definition fmodel_feats (mu sigma : Vec) (sim : FMat) (mask : Mat)
  (q_weights : Vec) : FVec :=
  fkernel_pooling flog_clamp sim mask q_weights mu sigma.

Definition fmodel_lo (P : Params) (feats : FVec) : F :=
  fadd (fdot feats (map Num (W1 P))) (Num (b1 P)).

(** [KNRM.model], lines 86-162. *)
Definition fmodel (P : Params)
  (inputs_q inputs_d : list (list nat)) (mask : list Mat) (q_weights : list Vec)
  (mu sigma : Vec) : option (FForward (list FMat)) :=
  if in_table (embeddings P) inputs_q && in_table (embeddings P) inputs_d then
    let sim := map (fun qd => fmodel_sim P (fst qd) (snd qd))
                   (combine inputs_q inputs_d) in
    let feats_flat :=
      map4 (fun q d m w => fmodel_feats mu sigma (fmodel_sim P q d) m w)
           inputs_q inputs_d mask q_weights in
    let lo := map (fmodel_lo P) feats_flat in
    Some {| ff_sim := sim; ff_feats := feats_flat; ff_lo := lo;
            ff_o := map ftanh lo |}
  else None.

Definition fconv_simis (cfg : Config) (P : Params) (layers : list ConvLayer)
  (q d : list nat) : list FMat :=
  let q_embed := embedding_lookup (embeddings P) q in
  let d_embed := embedding_lookup (embeddings P) d in
  let q_convs :=
    map (fun l => conv1d (conv_filter P (q_scope l)) (size l)
                         (embedding_size cfg) q_embed) layers in
  let d_convs :=
    map (fun l => conv1d (conv_filter P (d_scope l)) (size l)
                         (embedding_size cfg) d_embed) layers in
  let normalized_q_convs := map (map fnormalize) q_convs in
  let normalized_d_convs := map (map fnormalize) d_convs in
  flat_map (fun nq => map (fun nd => fmatmul_nt nq nd) normalized_d_convs)
           normalized_q_convs.

Definition fconv_feats (mu sigma : Vec) (simis : list FMat) (mask : Mat)
  (q_weights : Vec) : FVec :=
  concat (map (fun sim => fkernel_pooling flog1p sim mask q_weights mu sigma) simis).

Definition fconv_lo (P : Params) (feats : FVec) : F :=
  fadd (fdot feats (map Num (W2 P))) (Num (b1 P)).

(** [KNRM.conv_model], lines 164-271. *)
Definition fconv_model (cfg : Config) (P : Params) (layers : list ConvLayer)
  (inputs_q inputs_d : list (list nat)) (mask : list Mat) (q_weights : list Vec)
  (mu sigma : Vec) : option (FForward (list (list FMat))) :=
  if in_table (embeddings P) inputs_q && in_table (embeddings P) inputs_d then
    let simis := map (fun qd => fconv_simis cfg P layers (fst qd) (snd qd))
                     (combine inputs_q inputs_d) in
    let feats_tmp :=
      map4 (fun q d m w => fconv_feats mu sigma (fconv_simis cfg P layers q d) m w)
           inputs_q inputs_d mask q_weights in
    let lo := map (fconv_lo P) feats_tmp in
    Some {| ff_sim := simis; ff_feats := feats_tmp; ff_lo := lo;
            ff_o := map ftanh lo |}
  else None.

(** The score tensor [o] of a built pass, as [sess.run] returns it. *)
Definition fscores (cfg : Config) (P : Params) (g : ScoreGraph)
  (inputs_q inputs_d : list (list nat)) (mask : list Mat) (q_weights : list Vec)
  (mu sigma : Vec) : option FVec :=
  match g with
  | Unigram => option_map ff_o (fmodel P inputs_q inputs_d mask q_weights mu sigma)
  | MultiScale layers =>
      option_map ff_o
        (fconv_model cfg P layers inputs_q inputs_d mask q_weights mu sigma)
  end.

End Maximum.



(* --------------------------------------------------------------------- *)
(** *** Where the float pass stays within the numbers *)

Lemma Rsign_pos (x : R) : 0 < x -> Rsign x = Gt.
Proof.
  intros H. unfold Rsign. destruct (total_order_T x 0) as [[Hlt | Heq] | Hgt];
    [lra | lra | reflexivity].
Qed.

Lemma Rsign_zero : Rsign 0 = Eq.
Proof.
  unfold Rsign. destruct (total_order_T 0 0) as [[Hlt | Heq] | Hgt];
    [lra | reflexivity | lra].
Qed.

Lemma fadd_nan_r (a : F) : fadd a NaN = NaN.
Proof. now destruct a. Qed.

Lemma fmul_nan_r (a : F) : fmul a NaN = NaN.
Proof. now destruct a. Qed.

Lemma fsum_num (v : Vec) : fsum (map Num v) = Num (reduce_sum v).
Proof.
  induction v as [|x v IH]; [reflexivity | ].
  change (fsum (map Num (x :: v))) with (fadd (Num x) (fsum (map Num v))).
  now rewrite IH.
Qed.


Lemma squares_nonneg (v : Vec) : 0 <= reduce_sum (map Rsqr v).
Proof.
  apply reduce_sum_nonneg. apply Forall_forall. intros x Hx.
  apply in_map_iff in Hx. destruct Hx as (y & <- & _). apply Rle_0_sqr.
Qed.

Lemma fnorm_num (v : Vec) :
  fsqrt (fsum (map (fun x => fmul (Num x) (Num x)) v)) = Num (l2_norm v).
Proof.
  replace (map (fun x => fmul (Num x) (Num x)) v) with (map Num (map Rsqr v))
    by (rewrite map_map; reflexivity).
  rewrite fsum_num. unfold fsqrt, l2_norm.
  destruct (Rlt_dec (reduce_sum (map Rsqr v)) 0) as [Hlt | _]; [ | reflexivity].
  pose proof (squares_nonneg v). lra.
Qed.


(** A row of zeros has norm zero: every entry of the normalised row is
    zero divided by zero. *)
Lemma fnormalize_zeros (v : Vec) :
  Forall (fun x => x = 0) v -> fnormalize v = map (fun _ => NaN) v.
Proof.
  intros H. unfold fnormalize. rewrite fnorm_num.
  assert (Hn : l2_norm v = 0).
  { unfold l2_norm. replace (reduce_sum (map Rsqr v)) with 0; [apply sqrt_0 | ].
    induction H as [|x v Hx _ IH]; [reflexivity | ].
    simpl. rewrite <- IH, Hx. unfold Rsqr. lra. }
  rewrite Hn. apply map_ext_in. intros x Hx.
  rewrite Forall_forall in H. rewrite (H x Hx). unfold fdiv.
  destruct (Req_EM_T 0 0) as [_ | Hne]; [ | now destruct Hne].
  unfold fmul_inf. now rewrite Rsign_zero.
Qed.




Section Refines.

Variable max_nan : F -> F -> F.

Lemma fmax_num (x y : R) : fmax max_nan (Num x) (Num y) = Num (Rmax x y).
Proof.
  unfold fmax, flt, Rmax.
  destruct (Rlt_dec x y), (Rle_dec x y); f_equal; lra.
Qed.

Lemma flog_clamp_num (kde : R) :
  flog_clamp max_nan (Num kde) = Num (log_clamp kde).
Proof.
  unfold flog_clamp, log_clamp. rewrite fmax_num. unfold flog.
  rewrite Rsign_pos; [reflexivity | ].
  pose proof (clamp_floor kde). lra.
Qed.






End Refines.












(** C4. In the kernel pooling step of [KNRM.model] (the unigram path)
    every summed density [kde] is turned into [log(max(kde, 1e-10)) * 0.01],
    and in that of [KNRM.conv_model] (the multi-scale path) into
    [log(1 + kde)]: the features of either forward pass, over the reals and
    over float32 values, are spelled out below, one row per batch element,
    and the scores are the hyperbolic tangent of the projection of exactly
    these features.  The clamp is applied before the logarithm: the
    logarithm's argument is never below [1e-10], so the compressed value
    has the finite floor [log(1e-10) * 0.01].  In float32 terms: the
    logarithm of a zero density alone is negative infinity, while the
    clamped compression of every number is a number, and of every value
    other than not-a-number is not negative infinity.  The two compressions
    are different functions: on every non-negative density - and under a
    mask without negative entries every density is non-negative - the
    unigram value is strictly below the multi-scale one. *)
Theorem kernel_pooling_compression (max_nan : F -> F -> F)
  (cfg : Config) (P : Params) (layers : list ConvLayer)
  (inputs_q inputs_d : list (list nat)) (mask : list Mat) (q_weights : list Vec)
  (mu sigma : Vec) :
  f_feats (model P inputs_q inputs_d mask q_weights mu sigma)
  = map4 (fun q d m w =>
            map (fun k =>
                   reduce_sum
                     (map3 (fun s_row m_row w_i =>
                              ln (Rmax (kde_row (fst k) (snd k) s_row m_row) 1e-10)
                              * 0.01 * w_i)
                           (model_sim P q d) m w))
                (combine mu sigma))
         inputs_q inputs_d mask q_weights
  /\ f_o (model P inputs_q inputs_d mask q_weights mu sigma)
     = map (fun feats => tanh (dot feats (W1 P) + b1 P))
           (f_feats (model P inputs_q inputs_d mask q_weights mu sigma))
  /\ length (f_feats (model P inputs_q inputs_d mask q_weights mu sigma))
     = Nat.min (length inputs_q)
         (Nat.min (length inputs_d) (Nat.min (length mask) (length q_weights)))
  /\ f_feats (conv_model cfg P layers inputs_q inputs_d mask q_weights mu sigma)
     = map4 (fun q d m w =>
               concat
                 (map (fun sim =>
                         map (fun k =>
                                reduce_sum
                                  (map3 (fun s_row m_row w_i =>
                                           ln (1 + kde_row (fst k) (snd k) s_row m_row)
                                           * w_i)
                                        sim m w))
                             (combine mu sigma))
                      (conv_simis cfg P layers q d)))
            inputs_q inputs_d mask q_weights
  /\ f_o (conv_model cfg P layers inputs_q inputs_d mask q_weights mu sigma)
     = map (fun feats => tanh (dot feats (W2 P) + b1 P))
           (f_feats (conv_model cfg P layers inputs_q inputs_d mask q_weights mu sigma))
  /\ length (f_feats (conv_model cfg P layers inputs_q inputs_d mask q_weights mu sigma))
     = Nat.min (length inputs_q)
         (Nat.min (length inputs_d) (Nat.min (length mask) (length q_weights)))
  /\ (forall r,
        fmodel max_nan P inputs_q inputs_d mask q_weights mu sigma = Some r ->
        ff_feats r
        = map4 (fun q d m w =>
                  map (fun k =>
                         fsum
                           (map3 (fun s_row m_row w_i =>
                                    fmul
                                      (fmul
                                         (flog (fmax max_nan
                                                  (fkde_row (fst k) (snd k) s_row m_row)
                                                  (Num 1e-10)))
                                         (Num 0.01))
                                      (Num w_i))
                                 (fmodel_sim P q d) m w))
                      (combine mu sigma))
               inputs_q inputs_d mask q_weights)
  /\ (forall r,
        fconv_model cfg P layers inputs_q inputs_d mask q_weights mu sigma = Some r ->
        ff_feats r
        = map4 (fun q d m w =>
                  concat
                    (map (fun sim =>
                            map (fun k =>
                                   fsum
                                     (map3 (fun s_row m_row w_i =>
                                              fmul
                                                (flog (fadd (Num 1)
                                                         (fkde_row (fst k) (snd k)
                                                                   s_row m_row)))
                                                (Num w_i))
                                           sim m w))
                                (combine mu sigma))
                         (fconv_simis cfg P layers q d)))
               inputs_q inputs_d mask q_weights)
  /\ (forall kde : R,
        0 < 1e-10 <= Rmax kde 1e-10
        /\ ln 1e-10 * 0.01 <= ln (Rmax kde 1e-10) * 0.01)
  /\ flog (Num 0) = NInf
  /\ (forall kde : R,
        flog_clamp max_nan (Num kde) = Num (ln (Rmax kde 1e-10) * 0.01))
  /\ (forall kde : F, kde <> NaN -> flog_clamp max_nan kde <> NInf)
  /\ (forall kde : R,
        0 <= kde ->
        0 <= ln (1 + kde) /\ ln (Rmax kde 1e-10) * 0.01 < ln (1 + kde))
  /\ (forall (mu0 sigma0 : R) (sim_row mask_row : Vec),
        Forall (fun m => 0 <= m) mask_row ->
        0 <= kde_row mu0 sigma0 sim_row mask_row).
Proof.
  split; [reflexivity | ]. split; [simpl; now rewrite map_map | ].
  split; [apply map4_length_min | ].
  split; [reflexivity | ]. split; [simpl; now rewrite map_map | ].
  split; [apply map4_length_min | ].
  split.
  { intros r. unfold fmodel. destruct (_ && _)%bool; [ | discriminate].
    intros H. injection H as <-. reflexivity. }
  split.
  { intros r. unfold fconv_model. destruct (_ && _)%bool; [ | discriminate].
    intros H. injection H as <-. reflexivity. }
  split.
  { intros kde. split; [split; [lra | apply clamp_floor] | apply log_clamp_floor]. }
  split; [unfold flog; now rewrite Rsign_zero | ].
  split; [intros kde; apply flog_clamp_num | ].
  split.
  { intros [x | | | ] Hk.
    - rewrite flog_clamp_num. discriminate.
    - unfold flog_clamp. simpl. unfold fmul_inf. rewrite Rsign_pos by lra.
      discriminate.
    - unfold flog_clamp. simpl. rewrite Rsign_pos by lra. discriminate.
    - now destruct Hk. }
  split.
  { intros kde H. split; [now apply log1p_nonneg | now apply log_clamp_lt_log1p]. }
  intros. now apply kde_row_nonneg.
Qed.

(** *** A padded batch row on the multi-scale path *)

(** Parameters as training starts from a loaded embedding table: the row
    of the padding id 0 is zero ([load_word2vec] fills only the rows its
    file names), the biases of the convolution layers are zero, and the
    filter of a layer has one row of weights per position of its window. *)
Definition padded_filter (sc : string) : ConvFilter :=
  if (String.eqb sc "model/cnn/conv1d" || String.eqb sc "model/cnn/conv1d_1")%bool
  then {| kernel := [[[1]]]; bias := [0] |}
  else if (String.eqb sc "model/cnn/conv1d_2" || String.eqb sc "model/cnn/conv1d_3")%bool
  then {| kernel := [[[1]; [1]]]; bias := [0] |}
  else {| kernel := [[[1]; [1]; [1]]]; bias := [0] |}.

Definition padded_params : Params :=
  {| embeddings := [[0]; [1]; [-1]];
     W1 := [1; 1];
     b1 := 0;
     W2 := repeat 1 18;
     conv_filter := padded_filter |}.

Lemma relu_zero (x : R) : x = 0 -> relu x = 0.
Proof. intros ->. unfold relu, Rmax. destruct (Rle_dec 0 0); reflexivity. Qed.



Lemma fkernel_pooling_length compress sim mask qw mu sigma :
  length (fkernel_pooling compress sim mask qw mu sigma)
  = Nat.min (length mu) (length sigma).
Proof. unfold fkernel_pooling. now rewrite length_map, length_combine. Qed.

Lemma fconv_simis_length cfg P layers q d :
  length (fconv_simis cfg P layers q d) = (length layers * length layers)%nat.
Proof.
  unfold fconv_simis.
  rewrite (flat_map_product_length (fun nq nd => fmatmul_nt nq nd)).
  now rewrite !length_map.
Qed.

Lemma fconv_feats_length mu sigma simis mask qw :
  length (fconv_feats mu sigma simis mask qw)
  = (length simis * Nat.min (length mu) (length sigma))%nat.
Proof.
  unfold fconv_feats. induction simis as [|s simis IH]; simpl; [reflexivity | ].
  now rewrite length_app, fkernel_pooling_length, IH.
Qed.




End Float32.

(* ===================================================================== *)
(** ** Running the model: [train], [test] and the command line *)
(* ===================================================================== *)

Module Run.

Import Tensor.
Import VarScope.
Import Graph.
Import Paths.
Local Open Scope R_scope.

(** *** Outcomes and effects *)

Inductive Exn : Type :=
| IOError (path : string)        (* [open] fails, or the saver cannot write *)
| TypeError                      (* [None] used as a string *)
| ValueError                     (* a fed value does not fit its placeholder *)
| ZeroDivisionError
| NotFoundError (path : string)  (* [saver.restore] finds no checkpoint *)
| InvalidArgumentError           (* an id outside the embedding table *)
| StopIteration.                 (* [next] on a generator that yields nothing *)

Inductive Result (A : Type) : Type :=
| Ok (a : A)
| Raise (e : Exn)
| Exit (code : Z).
Arguments Ok {A} _.
Arguments Raise {A} _.
Arguments Exit {A} _.

(** The status the process ends with: 0 on a normal return, 1 on an
    uncaught exception, the low byte of the code given to [exit]. *)
Definition exit_status {A : Type} (r : Result A) : Z :=
  match r with
  | Ok _ => 0
  | Raise _ => 1
  | Exit code => code mod 256
  end.

(** What a session does that can be seen from outside. *)
Inductive Event : Type :=
| InitAll                              (* [tf.initialize_all_variables().run()] *)
| Restore (path : string)              (* [saver.restore(sess, path)] *)
| TrainStep                            (* [sess.run([optimizer, loss], ...)] *)
| ValLoss                              (* [sess.run(loss, ...)] on validation data *)
| Save (path : string) (P : Params)    (* [saver.save(sess, path)] *)
| Score.                               (* [sess.run(o, ...)] *)

Record Sess : Type := {
  params : Params;          (* current values of the variables *)
  trace : list Event;       (* oldest first *)
  written : list string     (* the strings passed to [outfile.write], oldest first *)
}.

Definition M (A : Type) : Type := Sess -> Result A * Sess.

Definition ret {A : Type} (a : A) : M A := fun s => (Ok a, s).

Definition bind {A B : Type} (m : M A) (k : A -> M B) : M B :=
  fun s => match m s with
           | (Ok a, s') => k a s'
           | (Raise e, s') => (Raise e, s')
           | (Exit c, s') => (Exit c, s')
           end.

Declare Scope run_scope.
Delimit Scope run_scope with run.
Notation "x <- m ;; k" := (bind m (fun x => k))
  (at level 61, m at next level, right associativity) : run_scope.
Local Open Scope run_scope.

Definition raise {A : Type} (e : Exn) : M A := fun s => (Raise e, s).

(** The builtin [exit(code)]. *)
Definition exit {A : Type} (code : Z) : M A := fun s => (Exit code, s).

Definition log (e : Event) : M unit :=
  fun s => (Ok tt, {| params := params s; trace := trace s ++ [e];
                      written := written s |}).

Definition get_params : M Params := fun s => (Ok (params s), s).

Definition set_params (P : Params) : M unit :=
  fun s => (Ok tt, {| params := P; trace := trace s; written := written s |}).

(** [outfile.write(text)]. *)
Definition write (text : string) : M unit :=
  fun s => (Ok tt, {| params := params s; trace := trace s;
                      written := written s ++ [text] |}).

(** A [for] loop whose body updates the local variables [L]. *)
Fixpoint for_each {A L : Type} (body : L -> A -> M L) (l : list A) (acc : L) : M L :=
  match l with
  | [] => ret acc
  | a :: l' => acc' <- body acc a ;; for_each body l' acc'
  end.

(** [for _ in range(n)]. *)
Fixpoint repeat_m {L : Type} (n : nat) (body : L -> M L) (acc : L) : M L :=
  match n with
  | O => ret acc
  | S n' => acc' <- body acc ;; repeat_m n' body acc'
  end.

(** *** What the methods find around them *)

(** A batch of the pair reader: [X[u'q']], [X[u'd']], [X[u'd_aux']],
    [X[u'idf']]. *)
Record PairBatch : Type := {
  q : list (list nat);
  d : list (list nat);
  d_aux : list (list nat);
  idf : list Vec
}.

(** The record [tf.train.get_checkpoint_state] returns. *)
Record CheckpointState : Type := {
  model_checkpoint_path : string
}.

(** What the methods use and do not define: the helpers inherited from
    [BaseNN] ([gen_mask], [re_pad], the data generators, the kernel values
    set by [__init__]), the files, and the TensorFlow operations whose
    numeric content is not modelled (initialisers, the Adam update, the
    saver, the printing of a float). *)
Record Env : Type := {
  mus : Vec;
  sigmas : Vec;
  gen_mask : list (list nat) -> list (list nat) -> list Mat;
  re_pad_ids : list (list nat) -> nat -> list (list nat);
  re_pad_weights : list Vec -> nat -> list Vec;
  pairwise_reader : list string -> nat -> list PairBatch;
  val_pairwise_reader : list string -> nat -> list PairBatch;
  (* the first batch [pointwise_generate] yields, and the rest of the stream *)
  pointwise_generate : list string -> nat -> option (PairBatch * list string);
  read_file : string -> option (list string);
  can_write : string -> bool;
  get_checkpoint_state : string -> option CheckpointState;
  checkpoint_at : string -> option Params;
  initial_values : Params;
  minimize : Params -> Vec * Vec -> Params;
  (* what [tf.maximum] returns when an operand is not-a-number *)
  maximum_of_nan : Float32.F -> Float32.F -> Float32.F;
  format_score : Float32.F -> string
}.

Section Methods.

Variable env : Env.
Variable cfg : Config.

(** [open(path)] for reading. *)
Definition open_read (path : option string) : M (list string) :=
  match path with
  | None => raise TypeError
  | Some p =>
      match read_file env p with
      | Some lines => ret lines
      | None => raise (IOError p)
      end
  end.

(** [get_file_line_count], lines 26-32. *)
Definition get_file_line_count (file_path : option string) : M nat :=
  lines <- open_read file_path ;;
  ret (length lines).

(** [checkpoint_dir + suffix]. *)
Definition dir_plus (checkpoint_dir : option string) (suffix : string) : M string :=
  match checkpoint_dir with
  | None => raise TypeError
  | Some dir => ret (dir ++ suffix)%string
  end.

(** [saver.save(sess, path)]. *)
Definition saver_save (path : string) : M unit :=
  if can_write env path then
    P <- get_params ;;
    log (Save path P)
  else raise (IOError path).

(** [saver.restore(sess, path)]. *)
Definition saver_restore (path : string) : M unit :=
  match checkpoint_at env path with
  | Some P => _ <- set_params P ;; log (Restore path)
  | None => raise (NotFoundError path)
  end.

(** [tf.initialize_all_variables().run()]. *)
Definition initialize_all_variables : M unit :=
  _ <- set_params (initial_values env) ;; log InitAll.

(** Building a graph in a fresh variable store. *)
Definition build {A : Type} (b : Build A) : M A :=
  match b empty_store with
  | Some (a, _) => ret a
  | None => raise ValueError
  end.

(** Placeholder shapes: a fed value must have exactly the declared shape. *)
Definition has_shape2 {A : Type} (rows cols : nat) (m : list (list A)) : bool :=
  Nat.eqb (length m) rows && forallb (fun r => Nat.eqb (length r) cols) m.

Definition has_shape3 {A : Type} (n rows cols : nat) (t : list (list (list A))) : bool :=
  Nat.eqb (length t) n && forallb (has_shape2 rows cols) t.

Definition kernels_fit : bool :=
  Nat.eqb (length (mus env)) (n_bins cfg)
  && Nat.eqb (length (sigmas env)) (n_bins cfg).

(** The feed of a training or validation step (lines 367-374, 411-418). *)
Record PairFeed : Type := {
  feed_q : list (list nat);
  feed_pos_d : list (list nat);
  feed_neg_d : list (list nat);
  feed_q_weights : list Vec;
  feed_mask_pos : list Mat;
  feed_mask_neg : list Mat
}.

Definition pair_feed (X : PairBatch) (M_pos M_neg : list Mat) : PairFeed :=
  {| feed_q := re_pad_ids env (q X) (batch_size cfg);
     feed_pos_d := re_pad_ids env (d X) (batch_size cfg);
     feed_neg_d := re_pad_ids env (d_aux X) (batch_size cfg);
     feed_q_weights := re_pad_weights env (idf X) (batch_size cfg);
     feed_mask_pos := M_pos;
     feed_mask_neg := M_neg |}.

Definition pair_feed_fits (f : PairFeed) : bool :=
  has_shape2 (batch_size cfg) (max_q_len cfg) (feed_q f)
  && has_shape2 (batch_size cfg) (max_d_len cfg) (feed_pos_d f)
  && has_shape2 (batch_size cfg) (max_d_len cfg) (feed_neg_d f)
  && has_shape2 (batch_size cfg) (max_q_len cfg) (feed_q_weights f)
  && has_shape3 (batch_size cfg) (max_q_len cfg) (max_d_len cfg) (feed_mask_pos f)
  && has_shape3 (batch_size cfg) (max_q_len cfg) (max_d_len cfg) (feed_mask_neg f)
  && kernels_fit.

(** [o_pos] and [o_neg] under the current parameters. *)
Definition pair_scores (tg : ScoreGraph * ScoreGraph) (P : Params) (f : PairFeed)
  : Vec * Vec :=
  train_scores cfg P tg (feed_q f) (feed_pos_d f) (feed_neg_d f)
               (feed_mask_pos f) (feed_mask_neg f) (feed_q_weights f)
               (mus env) (sigmas env).

(** [sess.run([optimizer, loss], feed_dict=...)]. *)
Definition run_optimizer (tg : ScoreGraph * ScoreGraph) (f : PairFeed) : M R :=
  if pair_feed_fits f then
    P <- get_params ;;
    let o := pair_scores tg P f in
    _ <- set_params (minimize env P o) ;;
    _ <- log TrainStep ;;
    ret (loss (fst o) (snd o))
  else raise ValueError.

(** [sess.run(loss, feed_dict=...)]. *)
Definition run_loss (tg : ScoreGraph * ScoreGraph) (f : PairFeed) : M R :=
  if pair_feed_fits f then
    P <- get_params ;;
    let o := pair_scores tg P f in
    _ <- log ValLoss ;;
    ret (loss (fst o) (snd o))
  else raise ValueError.

(** The local variables of the training loop. *)
Record Locals : Type := {
  step : nat;
  smallest_val_loss : R;
  train_loss : R
}.

(** One pass over the validation stream, lines 404-423: the sum of the
    batch losses and the number of batches. *)
Definition validation_pass (tg : ScoreGraph * ScoreGraph)
  (val_pair_file_path : option string) : M R :=
  val_pair_stream <- open_read val_pair_file_path ;;
  acc <- for_each
           (fun (acc : R * nat) (X_val : PairBatch) =>
              let M_pos := gen_mask env (q X_val) (d X_val) in
              let M_neg := gen_mask env (q X_val) (d_aux X_val) in
              l <- run_loss tg (pair_feed X_val M_pos M_neg) ;;
              ret (fst acc + l, S (snd acc)))
           (val_pairwise_reader env val_pair_stream (batch_size cfg))
           (0, O) ;;
  match snd acc with
  | O => raise ZeroDivisionError
  | S _ => ret (fst acc / INR (snd acc))
  end.

(** The body of the batch loop, lines 358-439. *)
Definition train_batch (tg : ScoreGraph * ScoreGraph)
  (val_pair_file_path checkpoint_dir : option string)
  (loc : Locals) (X : PairBatch) : M Locals :=
  let step' := S (step loc) in
  let M_pos := gen_mask env (q X) (d X) in
  let M_neg := gen_mask env (q X) (d_aux X) in
  if negb (Nat.eqb (length (idf X)) (batch_size cfg)) then
    (* continue *)
    ret {| step := step'; smallest_val_loss := smallest_val_loss loc;
           train_loss := train_loss loc |}
  else
    train_batch_loss <- run_optimizer tg (pair_feed X M_pos M_neg) ;;
    let train_loss' := train_loss loc + train_batch_loss in
    if Z.eqb (eval_frequency cfg) 0 then raise ZeroDivisionError
    else if Z.eqb ((Z.of_nat step' + 1) mod eval_frequency cfg) 0 then
      val_loss <- validation_pass tg val_pair_file_path ;;
      if Rlt_dec val_loss (smallest_val_loss loc) then
        path <- dir_plus checkpoint_dir "/data.ckpt" ;;
        _ <- saver_save path ;;
        ret {| step := step'; smallest_val_loss := val_loss; train_loss := 0 |}
      else
        ret {| step := step'; smallest_val_loss := smallest_val_loss loc;
               train_loss := 0 |}
    else
      ret {| step := step'; smallest_val_loss := smallest_val_loss loc;
             train_loss := train_loss' |}.

(** One epoch, lines 356-442. *)
Definition train_epoch (tg : ScoreGraph * ScoreGraph)
  (train_pair_file_path val_pair_file_path checkpoint_dir : option string)
  (loc : Locals) : M Locals :=
  pair_stream <- open_read train_pair_file_path ;;
  for_each (train_batch tg val_pair_file_path checkpoint_dir)
           (pairwise_reader env pair_stream (batch_size cfg)) loc.

(** How the session gets its parameters, lines 337-349. *)
Definition train_start (checkpoint_dir : option string) (load_model : bool) : M unit :=
  if negb load_model then initialize_all_variables
  else
    match checkpoint_dir with
    | None => raise TypeError
    | Some dir =>
        match get_checkpoint_state env dir with
        | Some ckpt =>
            if String.eqb (model_checkpoint_path ckpt) "" then exit (-1)
            else saver_restore (model_checkpoint_path ckpt)
        | None => exit (-1)
        end
    end.

(** [KNRM.train], lines 273-444. *)
Definition train (train_pair_file_path val_pair_file_path checkpoint_dir : option string)
  (load_model conv : bool) : M unit :=
  train_size <- get_file_line_count train_pair_file_path ;;
  tg <- build (train_graph conv) ;;
  _ <- train_start checkpoint_dir load_model ;;
  _ <- repeat_m (max_epochs cfg)
         (train_epoch tg train_pair_file_path val_pair_file_path checkpoint_dir)
         {| step := 0; smallest_val_loss := 100000; train_loss := 0 |} ;;
  path <- dir_plus checkpoint_dir "/final_data.ckpt" ;;
  saver_save path.

(** [int(np.ceil(float(test_size) / self.batch_size))] for a positive
    batch size. *)
Definition ceil_div (n m : nat) : nat := ((n + m - 1) / m)%nat.

(** The feed of an inference step, lines 503-509. *)
Definition point_feed_fits (fq fd : list (list nat)) (fw : list Vec)
  (fm : list Mat) : bool :=
  has_shape2 (batch_size cfg) (max_q_len cfg) fq
  && has_shape2 (batch_size cfg) (max_d_len cfg) fd
  && has_shape2 (batch_size cfg) (max_q_len cfg) fw
  && has_shape3 (batch_size cfg) (max_q_len cfg) (max_d_len cfg) fm
  && kernels_fit.

(** [sess.run(o, feed_dict=test_feed_dict)]: the float32 scores of the
    batch, or the failure of the embedding lookup. *)
Definition run_scores (g : ScoreGraph) (X : PairBatch) (mask : list Mat)
  : M Float32.FVec :=
  let fq := re_pad_ids env (q X) (batch_size cfg) in
  let fd := re_pad_ids env (d X) (batch_size cfg) in
  let fw := re_pad_weights env (idf X) (batch_size cfg) in
  if point_feed_fits fq fd fw mask then
    P <- get_params ;;
    match Float32.fscores (maximum_of_nan env) cfg P g fq fd mask fw
                          (mus env) (sigmas env) with
    | Some o => _ <- log Score ;; ret o
    | None => raise InvalidArgumentError
    end
  else raise ValueError.

(** The line terminator of ['{0}\n'.format(score[0])]. *)
Definition newline : string := String "010"%char "".

(** ['{0}\n'.format(score[0])]. *)
Definition score_line (score : Float32.F) : string :=
  (format_score env score ++ newline)%string.

(** The body of the batch loop of [test], lines 500-515; the local state
    is what is left of the test point stream. *)
Definition test_batch (g : ScoreGraph) (test_point_stream : list string)
  : M (list string) :=
  match pointwise_generate env test_point_stream (batch_size cfg) with
  | None => raise StopIteration
  | Some (X, rest) =>
      let mask := gen_mask env (q X) (d X) in
      scores <- run_scores g X mask ;;
      _ <- for_each (fun (_ : unit) (score : Float32.F) =>
                       write (score_line score))
                    scores tt ;;
      ret rest
  end.

(** The batches the loop of [test] takes from the point stream, lines
    499-502: every round starts a generator on what the rounds before have
    left of the stream and takes its first batch. *)
Fixpoint point_batches (n : nat) (test_point_stream : list string)
  : option (list PairBatch) :=
  match n with
  | O => Some []
  | S n' =>
      match pointwise_generate env test_point_stream (batch_size cfg) with
      | None => None
      | Some (X, rest) => option_map (cons X) (point_batches n' rest)
      end
  end.

(** What [sess.run(o, feed_dict=test_feed_dict)] returns for the batch [X]
    under the parameters [P], lines 503-512. *)
Definition batch_scores (g : ScoreGraph) (P : Params) (X : PairBatch)
  : option Float32.FVec :=
  Float32.fscores (maximum_of_nan env) cfg P g
                  (re_pad_ids env (q X) (batch_size cfg))
                  (re_pad_ids env (d X) (batch_size cfg))
                  (gen_mask env (q X) (d X))
                  (re_pad_weights env (idf X) (batch_size cfg))
                  (mus env) (sigmas env).

(** How the session gets its parameters, lines 491-496. *)
Definition test_start (checkpoint_dir : option string) (load_model : bool) : M unit :=
  if load_model then
    p <- dir_plus checkpoint_dir "data.ckpt" ;;
    saver_restore p
  else initialize_all_variables.

(** [KNRM.test], lines 446-518. *)
Definition test (test_point_file_path output_file_path checkpoint_dir : option string)
  (load_model conv : bool) : M unit :=
  test_size <- get_file_line_count test_point_file_path ;;
  g <- build (test_graph conv) ;;
  test_point_stream <- open_read test_point_file_path ;;
  _ <- match output_file_path with
       | None => raise TypeError
       | Some p => if can_write env p then ret tt else raise (IOError p)
       end ;;
  _ <- test_start checkpoint_dir load_model ;;
  _ <- match batch_size cfg with
       | O => raise ZeroDivisionError
       | S _ =>
           repeat_m (ceil_div test_size (batch_size cfg)) (test_batch g)
                    test_point_stream
       end ;;
  ret tt.

(** *** The command line, lines 521-555 *)

Record Args : Type := {
  arg_train : bool;                       (* --train *)
  arg_train_file : option string;         (* --train_file *)
  arg_validation_file : option string;    (* --validation_file *)
  arg_load_model : bool;                  (* --load_model *)
  arg_test : bool;                        (* --test *)
  arg_test_file : option string;          (* --test_file *)
  arg_output_score_file : option string;  (* --output_score_file *)
  arg_checkpoint_dir : option string;     (* --checkpoint_dir *)
  arg_convolution : option string         (* --convolution; [None] is the default [False] *)
}.

(** Python's truth value of [args.convolution]. *)
Definition truthy (v : option string) : bool :=
  match v with
  | None => false
  | Some s => negb (String.eqb s "")
  end.

Definition main (args : Args) : M unit :=
  if arg_train args then
    train (arg_train_file args) (arg_validation_file args)
          (arg_checkpoint_dir args) (arg_load_model args)
          (truthy (arg_convolution args))
  else
    test (arg_test_file args) (arg_output_score_file args)
         (arg_checkpoint_dir args) true
         (truthy (arg_convolution args)).

End Methods.

(** *** A sample environment *)

(** Modelled from the spec: [BaseNN.re_pad], [BaseNN.gen_mask] and the
    readers of [knrm.data.DataGenerator] are used by [train] and [test] but
    defined outside [model_knrm.py].  The sample environment gives them
    the behaviour the specification describes: [re_pad] fills a short
    batch with zero rows up to the batch size, [gen_mask] marks the pairs
    of non-padding terms, the readers cut the stream in batches of
    [batch_size] lines and yield a final shorter batch.  Every line stands
    for the query [[1]] with document [[1]] and weight [[1]]. *)

Definition sample_re_pad {A : Type} (zero : A) (width : nat)
  (D : list (list A)) (batch_size : nat) : list (list A) :=
  D ++ repeat (repeat zero width) (batch_size - length D).

Definition sample_gen_mask (batch_size : nat) (Q D : list (list nat)) : list Mat :=
  map (fun qd =>
         map (fun qi => map (fun dj => if Nat.eqb qi 0 || Nat.eqb dj 0
                                       then 0 else 1) (snd qd))
             (fst qd))
      (combine (sample_re_pad 0%nat 1 Q batch_size)
               (sample_re_pad 0%nat 1 D batch_size)).

Definition sample_batch (n : nat) : PairBatch :=
  {| q := repeat [1%nat] n; d := repeat [1%nat] n;
     d_aux := repeat [1%nat] n; idf := repeat [1] n |}.

Fixpoint sample_reader (fuel : nat) (stream : list string) (batch_size : nat)
  : list PairBatch :=
  match fuel, stream with
  | S fuel', _ :: _ =>
      sample_batch (length (firstn batch_size stream))
      :: sample_reader fuel' (skipn batch_size stream) batch_size
  | _, _ => []
  end.

Definition sample_pointwise (stream : list string) (batch_size : nat)
  : option (PairBatch * list string) :=
  match stream with
  | [] => None
  | _ :: _ => Some (sample_batch (length (firstn batch_size stream)),
                    skipn batch_size stream)
  end.

Definition sample_files (path : string) : option (list string) :=
  if String.eqb path "train.txt" then Some ["a"; "b"]%string
  else if String.eqb path "val.txt" then Some ["a"; "b"]%string
  else if String.eqb path "test.txt" then Some ["a"; "b"; "c"]%string
  else None.

Definition sample_env : Env :=
  {| mus := [1; 0];
     sigmas := [1e-3; 1];
     gen_mask := sample_gen_mask 2;
     re_pad_ids := sample_re_pad 0%nat 1;
     re_pad_weights := sample_re_pad 0 1;
     pairwise_reader := fun stream => sample_reader (length stream) stream;
     val_pairwise_reader := fun stream => sample_reader (length stream) stream;
     pointwise_generate := sample_pointwise;
     read_file := sample_files;
     can_write := fun _ => true;
     get_checkpoint_state := fun _ => None;
     checkpoint_at := fun path =>
       if String.eqb path "ckpt/data.ckpt" then Some sample_params else None;
     initial_values := sample_params;
     minimize := fun P _ => P;
     maximum_of_nan := fun a _ => a;
     format_score := fun _ => "0.0"%string |}.

Definition fresh_session : Sess :=
  {| params := sample_params; trace := []; written := [] |}.

(** Events without the parameter values they carry. *)
Inductive EventKind : Type :=
| KInitAll
| KRestore (path : string)
| KTrainStep
| KValLoss
| KSave (path : string)
| KScore.

Definition kind (e : Event) : EventKind :=
  match e with
  | InitAll => KInitAll
  | Restore p => KRestore p
  | TrainStep => KTrainStep
  | ValLoss => KValLoss
  | Save p _ => KSave p
  | Score => KScore
  end.

Definition is_ok {A : Type} (r : Result A) : bool :=
  match r with Ok _ => true | _ => false end.

(** No checkpoint that train could resume from: the state record is
    missing, or it names no checkpoint (line 344). *)
Definition usable_checkpoint (env : Env) (dir : string) : option string :=
  match get_checkpoint_state env dir with
  | Some ckpt =>
      if String.eqb (model_checkpoint_path ckpt) "" then None
      else Some (model_checkpoint_path ckpt)
  | None => None
  end.

(** The checkpoints a session has saved, oldest first. *)
Definition saved_paths (tr : list Event) : list string :=
  flat_map (fun e => match e with Save p _ => [p] | _ => [] end) tr.

Definition not_save (e : Event) : Prop :=
  match e with Save _ _ => False | _ => True end.

(** Every save in [tr] comes directly after the evaluation of a validation
    loss; [prev] tells whether the event just before [tr] was one. *)
Fixpoint saves_after_validation (prev : bool) (tr : list Event) : bool :=
  match tr with
  | [] => true
  | Save _ _ :: tr' => prev && saves_after_validation false tr'
  | ValLoss :: tr' => saves_after_validation true tr'
  | _ :: tr' => saves_after_validation false tr'
  end.

(** An event that is not a save, or a save of the best-validation
    checkpoint of [checkpoint_dir]. *)
Definition best_save_only (checkpoint_dir : option string) (e : Event) : Prop :=
  match e with
  | Save p _ => exists dir, checkpoint_dir = Some dir /\ p = train_best_path dir
  | _ => True
  end.

Definition not_init (e : Event) : Prop :=
  match e with InitAll => False | _ => True end.

Definition is_score (e : Event) : Prop :=
  match e with Score => True | _ => False end.

(** [m] only appends to the trace, and only events satisfying [Q]. *)
Definition emits {A : Type} (Q : Event -> Prop) (m : M A) : Prop :=
  forall s r s', m s = (r, s') ->
    exists tr, trace s' = trace s ++ tr /\ Forall Q tr.

Definition sample_args : Args :=
  {| arg_train := false; arg_train_file := None; arg_validation_file := None;
     arg_load_model := false; arg_test := true;
     arg_test_file := Some "test.txt"%string;
     arg_output_score_file := Some "out.txt"%string;
     arg_checkpoint_dir := Some "ckpt/"%string;
     arg_convolution := None |}.

(** Sample runs: training from scratch for two epochs, and inference as
    the command line starts it. *)
Definition sample_training : Result unit * Sess :=
  train sample_env sample_cfg (Some "train.txt"%string) (Some "val.txt"%string)
        (Some "ckpt"%string) false false fresh_session.

Definition sample_inference : Result unit * Sess :=
  main sample_env sample_cfg sample_args fresh_session.

(* --------------------------------------------------------------------- *)
(** *** Reasoning about the monad *)

Lemma bind_ok {A B : Type} (m : M A) (k : A -> M B) s b s' :
  bind m k s = (Ok b, s') ->
  exists a s1, m s = (Ok a, s1) /\ k a s1 = (Ok b, s').
Proof.
  unfold bind. destruct (m s) as [[a | e | c] s1]; intros H;
    try discriminate H. now exists a, s1.
Qed.

Section Emits.

Variable Q : Event -> Prop.

Lemma emits_ret {A : Type} (a : A) : emits Q (ret a).
Proof.
  intros s r s' H. injection H as <- <-. exists []. now rewrite app_nil_r.
Qed.

Lemma emits_raise {A : Type} (e : Exn) : emits Q (@raise A e).
Proof.
  intros s r s' H. injection H as <- <-. exists []. now rewrite app_nil_r.
Qed.

Lemma emits_exit {A : Type} (c : Z) : emits Q (@exit A c).
Proof.
  intros s r s' H. injection H as <- <-. exists []. now rewrite app_nil_r.
Qed.

Lemma emits_get_params : emits Q get_params.
Proof.
  intros s r s' H. injection H as <- <-. exists []. now rewrite app_nil_r.
Qed.

Lemma emits_set_params (P : Params) : emits Q (set_params P).
Proof.
  intros s r s' H. injection H as <- <-. exists []. simpl. now rewrite app_nil_r.
Qed.

Lemma emits_write (text : string) : emits Q (write text).
Proof.
  intros s r s' H. injection H as <- <-. exists []. simpl. now rewrite app_nil_r.
Qed.

Lemma emits_log (e : Event) : Q e -> emits Q (log e).
Proof.
  intros He s r s' H. injection H as <- <-. exists [e]. simpl. auto.
Qed.

Lemma emits_bind {A B : Type} (m : M A) (k : A -> M B) :
  emits Q m -> (forall a, emits Q (k a)) -> emits Q (bind m k).
Proof.
  intros Hm Hk s r s' H. unfold bind in H.
  destruct (m s) as [[a | e | c] s1] eqn:Hms.
  - destruct (Hm _ _ _ Hms) as (tr1 & E1 & F1).
    destruct (Hk a _ _ _ H) as (tr2 & E2 & F2).
    exists (tr1 ++ tr2). split.
    + now rewrite E2, E1, app_assoc.
    + now apply Forall_app.
  - injection H as <- <-. exact (Hm _ _ _ Hms).
  - injection H as <- <-. exact (Hm _ _ _ Hms).
Qed.

Lemma emits_for_each {A L : Type} (body : L -> A -> M L) (l : list A) (acc : L) :
  (forall acc a, emits Q (body acc a)) -> emits Q (for_each body l acc).
Proof.
  intros Hb. revert acc. induction l as [|a l IH]; intros acc; simpl.
  - apply emits_ret.
  - apply emits_bind; [apply Hb | intros acc'; apply IH].
Qed.

Lemma emits_repeat_m {L : Type} (n : nat) (body : L -> M L) (acc : L) :
  (forall acc, emits Q (body acc)) -> emits Q (repeat_m n body acc).
Proof.
  intros Hb. revert acc. induction n as [|n IH]; intros acc; simpl.
  - apply emits_ret.
  - apply emits_bind; [apply Hb | intros acc'; apply IH].
Qed.

Variable env : Env.
Variable cfg : Config.

Lemma emits_open_read (path : option string) : emits Q (open_read env path).
Proof.
  unfold open_read. destruct path as [p|]; [ | apply emits_raise].
  destruct (read_file env p); [apply emits_ret | apply emits_raise].
Qed.

Lemma emits_get_file_line_count (path : option string) :
  emits Q (get_file_line_count env path).
Proof.
  unfold get_file_line_count. apply emits_bind; [apply emits_open_read | ].
  intros. apply emits_ret.
Qed.

Lemma emits_dir_plus (dir : option string) (suffix : string) :
  emits Q (dir_plus dir suffix).
Proof. destruct dir; [apply emits_ret | apply emits_raise]. Qed.

Lemma emits_build {A : Type} (b : Build A) : emits Q (build b).
Proof.
  unfold build. destruct (b empty_store) as [[a st]|];
    [apply emits_ret | apply emits_raise].
Qed.

Lemma emits_saver_save (path : string) :
  (forall P, Q (Save path P)) -> emits Q (saver_save env path).
Proof.
  intros HQ. unfold saver_save. destruct (can_write env path); [ | apply emits_raise].
  apply emits_bind; [apply emits_get_params | ]. intros P. now apply emits_log.
Qed.

Lemma emits_saver_restore (path : string) :
  Q (Restore path) -> emits Q (saver_restore env path).
Proof.
  intros HQ. unfold saver_restore. destruct (checkpoint_at env path);
    [ | apply emits_raise].
  apply emits_bind; [apply emits_set_params | ]. intros _. now apply emits_log.
Qed.

Lemma emits_initialize : Q InitAll -> emits Q (initialize_all_variables env).
Proof.
  intros HQ. unfold initialize_all_variables.
  apply emits_bind; [apply emits_set_params | ]. intros _. now apply emits_log.
Qed.

Lemma emits_run_optimizer tg f : Q TrainStep -> emits Q (run_optimizer env cfg tg f).
Proof.
  intros HQ. unfold run_optimizer. destruct (pair_feed_fits env cfg f);
    [ | apply emits_raise].
  apply emits_bind; [apply emits_get_params | ]. intros P.
  apply emits_bind; [apply emits_set_params | ]. intros _.
  apply emits_bind; [now apply emits_log | ]. intros _. apply emits_ret.
Qed.

Lemma emits_run_loss tg f : Q ValLoss -> emits Q (run_loss env cfg tg f).
Proof.
  intros HQ. unfold run_loss. destruct (pair_feed_fits env cfg f);
    [ | apply emits_raise].
  apply emits_bind; [apply emits_get_params | ]. intros P.
  apply emits_bind; [now apply emits_log | ]. intros _. apply emits_ret.
Qed.

Lemma emits_validation_pass tg path :
  Q ValLoss -> emits Q (validation_pass env cfg tg path).
Proof.
  intros HQ. unfold validation_pass.
  apply emits_bind; [apply emits_open_read | ]. intros stream.
  apply emits_bind.
  - apply emits_for_each. intros acc X.
    apply emits_bind; [now apply emits_run_loss | ]. intros l. apply emits_ret.
  - intros [total [|n]]; [apply emits_raise | apply emits_ret].
Qed.

Lemma emits_run_scores g X mask : Q Score -> emits Q (run_scores env cfg g X mask).
Proof.
  intros HQ. unfold run_scores. destruct (point_feed_fits _ _ _ _ _ _);
    [ | apply emits_raise].
  apply emits_bind; [apply emits_get_params | ]. intros P.
  destruct (Float32.fscores _ _ _ _ _ _ _ _ _ _); [ | apply emits_raise].
  apply emits_bind; [now apply emits_log | ]. intros _. apply emits_ret.
Qed.

Lemma emits_test_batch g stream : Q Score -> emits Q (test_batch env cfg g stream).
Proof.
  intros HQ. unfold test_batch.
  destruct (pointwise_generate env stream (batch_size cfg)) as [[X rest]|];
    [ | apply emits_raise].
  apply emits_bind; [now apply emits_run_scores | ]. intros sc.
  apply emits_bind.
  - apply emits_for_each. intros. apply emits_write.
  - intros _. apply emits_ret.
Qed.

End Emits.

Lemma emits_nothing {A : Type} (m : M A) s r s' :
  emits (fun _ => False) m -> m s = (r, s') -> trace s' = trace s.
Proof.
  intros Hm H. destruct (Hm _ _ _ H) as (tr & E & F).
  destruct F as [|e tr He _]; [now rewrite app_nil_r in E | contradiction].
Qed.

Lemma bind_inv {A B : Type} (m : M A) (k : A -> M B) s r s' :
  bind m k s = (r, s') ->
  (exists a s1, m s = (Ok a, s1) /\ k a s1 = (r, s'))
  \/ (is_ok r = false
      /\ exists r0 : Result A, m s = (r0, s') /\ is_ok r0 = false).
Proof.
  unfold bind. destruct (m s) as [[a | e | c] s1]; intros H.
  - left. now exists a, s1.
  - right. injection H as <- <-. split; [reflexivity | now exists (Raise e)].
  - right. injection H as <- <-. split; [reflexivity | now exists (Exit c)].
Qed.

Lemma final_is_not_best (dir : string) : train_final_path dir <> train_best_path dir.
Proof.
  unfold train_final_path, train_best_path. intros H.
  apply append_inv_head in H. discriminate H.
Qed.

Section TrainFacts.

Variable env : Env.
Variable cfg : Config.

Lemma emits_train_start Q dir load_model :
  Q InitAll -> (forall p, Q (Restore p)) ->
  emits Q (train_start env dir load_model).
Proof.
  intros Hi Hr. unfold train_start. destruct load_model; simpl.
  - destruct dir as [dir|]; [ | apply emits_raise].
    destruct (get_checkpoint_state env dir) as [ckpt|]; [ | apply emits_exit].
    destruct (String.eqb _ _); [apply emits_exit | now apply emits_saver_restore].
  - now apply emits_initialize.
Qed.

Lemma emits_bind_raise {A B : Type} Q (e : Exn) (k : A -> M B) :
  emits Q (bind (raise e) k).
Proof.
  intros s r s' H. injection H as <- <-. exists []. now rewrite app_nil_r.
Qed.

Lemma emits_bind_ret {A B : Type} Q (a : A) (k : A -> M B) :
  emits Q (k a) -> emits Q (bind (ret a) k).
Proof. intros Hk s r s' H. exact (Hk s r s' H). Qed.

Lemma emits_train_batch tg val_path dir loc X :
  emits (best_save_only dir) (train_batch env cfg tg val_path dir loc X).
Proof.
  unfold train_batch. destruct (negb _); [apply emits_ret | ].
  apply emits_bind; [now apply emits_run_optimizer | ]. intros l.
  destruct (Z.eqb (eval_frequency cfg) 0); [apply emits_raise | ].
  destruct (Z.eqb _ 0); [ | apply emits_ret].
  apply emits_bind; [now apply emits_validation_pass | ]. intros v.
  destruct (Rlt_dec v (smallest_val_loss loc)); [ | apply emits_ret].
  destruct dir as [dir|]; simpl; [ | apply emits_bind_raise].
  apply emits_bind_ret. apply emits_bind; [ | intros; apply emits_ret].
  apply emits_saver_save. intros P. simpl. now exists dir.
Qed.

Lemma emits_train_epoch tg train_path val_path dir loc :
  emits (best_save_only dir) (train_epoch env cfg tg train_path val_path dir loc).
Proof.
  unfold train_epoch. apply emits_bind; [apply emits_open_read | ].
  intros stream. apply emits_for_each. intros. apply emits_train_batch.
Qed.

(** C1 (as stated, refuted).  Two epochs run to completion and the only
    checkpoint written is the end-of-training one: the end of an epoch
    writes none. *)
Lemma two_epochs_one_checkpoint :
  let r := train sample_env sample_cfg (Some "train.txt"%string)
             (Some "val.txt"%string) (Some "ckpt"%string) false false
             fresh_session in
  is_ok (fst r) = true
  /\ max_epochs sample_cfg = 2%nat
  /\ map kind (trace (snd r))
     = [KInitAll; KTrainStep; KTrainStep; KSave "ckpt/final_data.ckpt"]
  /\ saved_paths (trace (snd r)) = ["ckpt/final_data.ckpt"%string].
Proof. repeat split; reflexivity. Qed.

Lemma saves_after_validation_weaken (b : bool) (tr : list Event) :
  saves_after_validation false tr = true -> saves_after_validation b tr = true.
Proof. destruct tr as [|[] tr]; simpl; auto; discriminate. Qed.

Lemma saves_after_validation_app (b : bool) (t1 t2 : list Event) :
  saves_after_validation b t1 = true ->
  saves_after_validation false t2 = true ->
  saves_after_validation b (t1 ++ t2) = true.
Proof.
  revert b. induction t1 as [|e t1 IH]; intros b H1 H2; simpl.
  - now apply saves_after_validation_weaken.
  - destruct e; simpl in *; auto.
    apply andb_prop in H1. destruct H1 as (-> & H1). simpl. auto.
Qed.

Lemma no_save_after_validation (b : bool) (tr : list Event) :
  Forall not_save tr -> saves_after_validation b tr = true.
Proof.
  intros F. revert b. induction F as [|e tr He F IH]; intros b;
    [reflexivity | ].
  destruct e; simpl in *; auto; contradiction.
Qed.

Lemma no_save_paths (tr : list Event) : Forall not_save tr -> saved_paths tr = [].
Proof.
  induction 1 as [|e tr He F IH]; [reflexivity | ].
  destruct e; simpl in *; auto; contradiction.
Qed.

Lemma validated_save (b : bool) (n : nat) (p : string) (P : Params) :
  saves_after_validation b (repeat ValLoss (S n) ++ [Save p P]) = true.
Proof. simpl. induction n as [|n IH]; [reflexivity | exact IH]. Qed.

Lemma repeat_no_save (n : nat) : Forall not_save (repeat ValLoss n).
Proof. induction n; constructor; simpl; auto. Qed.

(** A validation pass that returns has evaluated the loss of at least one
    batch, and the session has done nothing else. *)
Lemma validation_loop_trace tg (batches : list PairBatch) (acc acc' : R * nat) s s' :
  for_each
    (fun (acc : R * nat) (X_val : PairBatch) =>
       l <- run_loss env cfg tg
              (pair_feed env cfg X_val (gen_mask env (q X_val) (d X_val))
                         (gen_mask env (q X_val) (d_aux X_val))) ;;
       ret (fst acc + l, S (snd acc)))
    batches acc s = (Ok acc', s') ->
  trace s' = trace s ++ repeat ValLoss (length batches)
  /\ snd acc' = (snd acc + length batches)%nat.
Proof.
  revert acc s. induction batches as [|X batches IH]; intros acc s H; simpl in H.
  - injection H as <- <-. simpl. rewrite app_nil_r. split; [reflexivity | lia].
  - apply bind_ok in H. destruct H as (acc1 & s1 & H1 & H).
    apply bind_ok in H1. destruct H1 as (l & s2 & H1 & Hr).
    injection Hr as <- <-.
    unfold run_loss in H1. destruct (pair_feed_fits env cfg _); [ | discriminate H1].
    injection H1 as _ <-.
    apply IH in H. destruct H as (E & Hn). simpl in *.
    rewrite E, Hn, <- app_assoc. split; [reflexivity | lia].
Qed.

Lemma validation_pass_trace tg val_path s v s' :
  validation_pass env cfg tg val_path s = (Ok v, s') ->
  exists n, trace s' = trace s ++ repeat ValLoss (S n).
Proof.
  intros H. unfold validation_pass in H.
  apply bind_ok in H. destruct H as (stream & s1 & H1 & H).
  apply emits_nothing in H1; [ | apply emits_open_read].
  apply bind_ok in H. destruct H as (acc & s2 & H2 & H).
  apply validation_loop_trace in H2. destruct H2 as (E & Hn). simpl in Hn.
  destruct (snd acc) as [|n] eqn:Hs; [discriminate H | ].
  injection H as _ <-. exists n. now rewrite E, H1, <- Hn.
Qed.

(** What one batch of the training loop does to the checkpoints: it saves
    only directly after a validation loss, and only when that loss is
    below the smallest one so far. *)
Lemma train_batch_saves tg val_path dir loc X s loc' s' :
  train_batch env cfg tg val_path dir loc X s = (Ok loc', s') ->
  exists tr,
    trace s' = trace s ++ tr
    /\ saves_after_validation false tr = true
    /\ smallest_val_loss loc' <= smallest_val_loss loc
    /\ (smallest_val_loss loc' = smallest_val_loss loc -> saved_paths tr = []).
Proof.
  intros H. unfold train_batch in H.
  destruct (negb _).
  { injection H as <- <-. exists []. rewrite app_nil_r. simpl.
    repeat split; auto; lra. }
  apply bind_ok in H. destruct H as (l & s1 & H1 & H).
  apply (emits_run_optimizer not_save) in H1; [ | exact I].
  destruct H1 as (t1 & E1 & F1).
  destruct (Z.eqb (eval_frequency cfg) 0); [discriminate H | ].
  destruct (Z.eqb _ 0).
  2:{ injection H as <- <-. exists t1. simpl.
      repeat split; auto using no_save_after_validation, no_save_paths; lra. }
  apply bind_ok in H. destruct H as (v & s2 & H2 & H).
  apply validation_pass_trace in H2. destruct H2 as (n & E2).
  destruct (Rlt_dec v (smallest_val_loss loc)) as [Hlt | Hge].
  - destruct dir as [dir|]; [ | discriminate H]. simpl in H.
    apply bind_ok in H. destruct H as (path & s2' & Hp & H).
    injection Hp as <- <-.
    apply bind_ok in H. destruct H as ([] & s3 & H3 & H).
    injection H as <- <-.
    unfold saver_save in H3. destruct (can_write env _); [ | discriminate H3].
    injection H3 as <-. simpl.
    exists (t1 ++ repeat ValLoss (S n) ++ [Save (dir ++ "/data.ckpt")%string (params s2)]).
    split; [rewrite E2, E1, <- !app_assoc; reflexivity | ].
    split.
    { apply saves_after_validation_app;
        [now apply no_save_after_validation | apply validated_save]. }
    split; [lra | intros Heq; lra].
  - injection H as <- <-. simpl.
    exists (t1 ++ repeat ValLoss (S n)).
    assert (F : Forall not_save (t1 ++ repeat ValLoss (S n)))
      by (apply Forall_app; split; [exact F1 | apply repeat_no_save]).
    split; [rewrite E2, E1, <- app_assoc; reflexivity | ].
    repeat split; auto using no_save_after_validation, no_save_paths; lra.
Qed.

Lemma saved_paths_app (t1 t2 : list Event) :
  saved_paths (t1 ++ t2) = saved_paths t1 ++ saved_paths t2.
Proof. unfold saved_paths. apply flat_map_app. Qed.

Lemma train_batches_saves tg val_path dir batches loc s loc' s' :
  for_each (train_batch env cfg tg val_path dir) batches loc s = (Ok loc', s') ->
  exists tr,
    trace s' = trace s ++ tr
    /\ saves_after_validation false tr = true
    /\ smallest_val_loss loc' <= smallest_val_loss loc
    /\ (smallest_val_loss loc' = smallest_val_loss loc -> saved_paths tr = []).
Proof.
  revert loc s. induction batches as [|X batches IH]; intros loc s H; simpl in H.
  - injection H as <- <-. exists []. rewrite app_nil_r. simpl.
    repeat split; auto; lra.
  - apply bind_ok in H. destruct H as (loc1 & s1 & H1 & H).
    apply train_batch_saves in H1. destruct H1 as (t1 & E1 & V1 & L1 & N1).
    apply IH in H. destruct H as (t2 & E2 & V2 & L2 & N2).
    exists (t1 ++ t2). split; [rewrite E2, E1, <- app_assoc; reflexivity | ].
    split; [now apply saves_after_validation_app | ].
    split; [lra | ]. intros Heq.
    rewrite saved_paths_app, N1, N2 by lra. reflexivity.
Qed.

(** An epoch is its batches and nothing more: when it ends without having
    lowered the smallest validation loss, it has written no checkpoint. *)
Lemma train_epoch_saves tg train_path val_path dir loc s loc' s' :
  train_epoch env cfg tg train_path val_path dir loc s = (Ok loc', s') ->
  exists tr,
    trace s' = trace s ++ tr
    /\ saves_after_validation false tr = true
    /\ smallest_val_loss loc' <= smallest_val_loss loc
    /\ (smallest_val_loss loc' = smallest_val_loss loc -> saved_paths tr = []).
Proof.
  intros H. unfold train_epoch in H.
  apply bind_ok in H. destruct H as (stream & s1 & H1 & H).
  apply emits_nothing in H1; [ | apply emits_open_read].
  apply train_batches_saves in H. rewrite H1 in H. exact H.
Qed.

Lemma train_epochs_saves tg train_path val_path dir n loc s loc' s' :
  repeat_m n (train_epoch env cfg tg train_path val_path dir) loc s = (Ok loc', s') ->
  exists tr,
    trace s' = trace s ++ tr
    /\ saves_after_validation false tr = true
    /\ smallest_val_loss loc' <= smallest_val_loss loc
    /\ (smallest_val_loss loc' = smallest_val_loss loc -> saved_paths tr = []).
Proof.
  revert loc s. induction n as [|n IH]; intros loc s H; simpl in H.
  - injection H as <- <-. exists []. rewrite app_nil_r. simpl.
    repeat split; auto; lra.
  - apply bind_ok in H. destruct H as (loc1 & s1 & H1 & H).
    apply train_epoch_saves in H1. destruct H1 as (t1 & E1 & V1 & L1 & N1).
    apply IH in H. destruct H as (t2 & E2 & V2 & L2 & N2).
    exists (t1 ++ t2). split; [rewrite E2, E1, <- app_assoc; reflexivity | ].
    split; [now apply saves_after_validation_app | ].
    split; [lra | ]. intros Heq.
    rewrite saved_paths_app, N1, N2 by lra. reflexivity.
Qed.

(** C1 (amended).  Whenever train runs to completion, the last thing the
    session does is persist all the parameters as the end-of-training
    checkpoint [checkpoint_dir + '/final_data.ckpt'], a path distinct from
    that of the best-validation checkpoint.  Every checkpoint written
    before it is a best-validation checkpoint
    [checkpoint_dir + '/data.ckpt'], written directly after the evaluation
    of a validation loss.  The end of an epoch writes no checkpoint of its
    own: an epoch that returns has written checkpoints only directly after
    validation losses, and none at all unless it has lowered the smallest
    validation loss. *)
Theorem train_checkpoints
  (train_path val_path checkpoint_dir : option string) (load_model conv : bool)
  (s0 s : Sess) :
  train env cfg train_path val_path checkpoint_dir load_model conv s0 = (Ok tt, s) ->
  exists (dir : string) (tr : list Event),
    checkpoint_dir = Some dir
    /\ trace s = trace s0 ++ tr ++ [Save (train_final_path dir) (params s)]
    /\ (forall p P, In (Save p P) tr -> p = train_best_path dir)
    /\ train_final_path dir <> train_best_path dir
    /\ saves_after_validation false tr = true
    /\ (forall tg loc loc' s1 s2,
          train_epoch env cfg tg train_path val_path checkpoint_dir loc s1
          = (Ok loc', s2) ->
          exists tr_epoch,
            trace s2 = trace s1 ++ tr_epoch
            /\ saves_after_validation false tr_epoch = true
            /\ (smallest_val_loss loc' = smallest_val_loss loc ->
                saved_paths tr_epoch = [])
            /\ (saved_paths tr_epoch <> [] ->
                smallest_val_loss loc' < smallest_val_loss loc)).
Proof.
  intros H. unfold train in H.
  apply bind_ok in H. destruct H as (n & s1 & H1 & H).
  apply bind_ok in H. destruct H as (tg & s2 & H2 & H).
  apply bind_ok in H. destruct H as ([] & s3 & H3 & H).
  apply bind_ok in H. destruct H as (loc & s4 & H4 & H).
  apply bind_ok in H. destruct H as (path & s5 & H5 & H).
  destruct checkpoint_dir as [dir|]; [ | discriminate H5].
  injection H5 as <- <-.
  unfold saver_save in H. destruct (can_write env _); [ | discriminate H].
  injection H as <-.
  apply emits_nothing in H1; [ | apply emits_get_file_line_count].
  apply emits_nothing in H2; [ | apply emits_build].
  apply (emits_train_start (fun e => best_save_only (Some dir) e /\ not_save e))
    in H3; [ | split; exact I | intros; split; exact I].
  pose proof (train_epochs_saves _ _ _ _ _ _ _ _ _ H4) as (t4' & E4' & V4 & _ & _).
  apply (emits_repeat_m (best_save_only (Some dir))) in H4;
    [ | intros; apply emits_train_epoch].
  destruct H3 as (t3 & E3 & F3). destruct H4 as (t4 & E4 & F4).
  assert (t4' = t4) by (rewrite E4 in E4'; now apply app_inv_head in E4').
  subst t4'.
  assert (F3b : Forall (best_save_only (Some dir)) t3)
    by (eapply Forall_impl; [ | exact F3]; now intros e (Hb & _)).
  assert (F3n : Forall not_save t3)
    by (eapply Forall_impl; [ | exact F3]; now intros e (_ & Hn)).
  exists dir, (t3 ++ t4). split; [reflexivity | ].
  split; [simpl; rewrite E4, E3, H2, H1; now rewrite <- !app_assoc | ].
  split.
  { intros p P Hin.
    assert (F : Forall (best_save_only (Some dir)) (t3 ++ t4))
      by (apply Forall_app; split; assumption).
    rewrite Forall_forall in F. specialize (F _ Hin). simpl in F.
    destruct F as (dir' & Hd & ->). now injection Hd as <-. }
  split; [apply final_is_not_best | ].
  split.
  { apply saves_after_validation_app;
      [now apply no_save_after_validation | exact V4]. }
  intros tg' loc0 loc' sa sb He.
  apply train_epoch_saves in He. destruct He as (te & Ee & Ve & Le & Ne).
  exists te. split; [exact Ee | ]. split; [exact Ve | ].
  split; [exact Ne | ]. intros Hs.
  destruct Le as [Hlt | Heq]; [exact Hlt | ]. now apply Ne in Heq.
Qed.

Lemma bind_step {A B : Type} (m : M A) (k : A -> M B) s a s1 :
  m s = (Ok a, s1) -> bind m k s = k a s1.
Proof. intros H. unfold bind. now rewrite H. Qed.

Lemma bind_exit {A B : Type} (m : M A) (k : A -> M B) s c s1 :
  m s = (Exit c, s1) -> bind m k s = (Exit c, s1).
Proof. intros H. unfold bind. now rewrite H. Qed.

Lemma bind_raise {A B : Type} (m : M A) (k : A -> M B) s e s1 :
  m s = (Raise e, s1) -> bind m k s = (Raise e, s1).
Proof. intros H. unfold bind. now rewrite H. Qed.

Lemma build_train_graph (conv : bool) (s : Sess) :
  exists tg, build (train_graph conv) s = (Ok tg, s).
Proof.
  unfold build. destruct conv.
  - rewrite train_graph_conv. eexists. reflexivity.
  - eexists. reflexivity.
Qed.

Lemma build_test_graph (conv : bool) (s : Sess) :
  exists g, build (test_graph conv) s = (Ok g, s).
Proof.
  unfold build. destruct conv.
  - rewrite test_graph_conv. eexists. reflexivity.
  - eexists. reflexivity.
Qed.

Lemma train_start_without_checkpoint (dir : string) (s : Sess) :
  usable_checkpoint env dir = None ->
  train_start env (Some dir) true s = (Exit (-1), s).
Proof.
  intros Hu. unfold train_start, usable_checkpoint in *. simpl.
  destruct (get_checkpoint_state env dir) as [ckpt|]; [ | reflexivity].
  destruct (String.eqb (model_checkpoint_path ckpt) ""); [reflexivity | ].
  discriminate Hu.
Qed.

(** C8. When train is asked to resume ([load_model]) and the checkpoint
    directory holds no usable checkpoint, the run ends before the session
    has done anything - no initialisation, no restore, no training step -
    and the process ends with a non-zero status: [exit(-1)] once the
    training file has been read. *)
Theorem resume_without_checkpoint_is_fatal
  (train_path val_path : option string) (dir : string) (conv : bool) (s0 : Sess) :
  usable_checkpoint env dir = None ->
  let r := train env cfg train_path val_path (Some dir) true conv s0 in
  snd r = s0
  /\ is_ok (fst r) = false
  /\ exit_status (fst r) <> 0%Z
  /\ (forall p lines, train_path = Some p -> read_file env p = Some lines ->
        fst r = Exit (-1)).
Proof.
  intros Hu r.
  destruct train_path as [p|].
  2:{ subst r. simpl. repeat split; discriminate. }
  destruct (read_file env p) as [lines|] eqn:Hread.
  - assert (Hr : r = (Exit (-1), s0)).
    { subst r. unfold train.
      rewrite (bind_step _ _ s0 (length lines) s0)
        by (unfold get_file_line_count, open_read; rewrite Hread; reflexivity).
      destruct (build_train_graph conv s0) as (tg & Hb).
      rewrite (bind_step _ _ s0 tg s0 Hb).
      apply bind_exit. now apply train_start_without_checkpoint. }
    rewrite Hr. simpl. repeat split; discriminate.
  - assert (Hr : r = (Raise (IOError p), s0)).
    { subst r. unfold train. apply bind_raise.
      unfold get_file_line_count, open_read. rewrite Hread. reflexivity. }
    rewrite Hr. simpl. repeat split; try discriminate.
    intros p' lines Hp Hl. injection Hp as <-. congruence.
Qed.

(** C2 (as stated, refuted).  Called with [load_model=False] (its default)
    the test operation initialises the variables and scores with them,
    restoring nothing. *)
Lemma test_can_initialize :
  let r := test sample_env sample_cfg (Some "test.txt"%string)
             (Some "out.txt"%string) (Some "ckpt/"%string) false false
             fresh_session in
  is_ok (fst r) = true
  /\ map kind (trace (snd r)) = [KInitAll; KScore; KScore].
Proof. split; reflexivity. Qed.

Lemma test_start_loaded (checkpoint_dir : option string) (s1 s : Sess)
  (r : Result unit) :
  test_start env checkpoint_dir true s1 = (r, s) ->
  (is_ok r = false /\ s = s1)
  \/ exists dir P,
       checkpoint_dir = Some dir /\ r = Ok tt
       /\ s = {| params := P;
                 trace := trace s1 ++ [Restore (test_restore_path dir)];
                 written := written s1 |}.
Proof.
  unfold test_start, dir_plus, saver_restore, test_restore_path.
  destruct checkpoint_dir as [dir|].
  - unfold bind at 1. unfold ret at 1.
    destruct (checkpoint_at env (dir ++ "data.ckpt")) as [P|].
    + intros H. injection H as <- <-. right. now exists dir, P.
    + intros H. injection H as <- <-. now left.
  - intros H. injection H as <- <-. now left.
Qed.

Lemma test_loaded_trace
  (test_path out_path checkpoint_dir : option string) (conv : bool)
  (s0 s : Sess) (r : Result unit) :
  test env cfg test_path out_path checkpoint_dir true conv s0 = (r, s) ->
  exists tr : list Event,
    trace s = trace s0 ++ tr
    /\ Forall not_init tr
    /\ (tr = []
        \/ exists dir tr',
             checkpoint_dir = Some dir
             /\ tr = Restore (test_restore_path dir) :: tr'
             /\ Forall is_score tr').
Proof.
  intros H. unfold test in H.
  assert (Hquiet : forall s1, trace s1 = trace s0 ->
            exists tr, trace s1 = trace s0 ++ tr /\ Forall not_init tr
                       /\ (tr = [] \/ exists dir tr', checkpoint_dir = Some dir
                             /\ tr = Restore (test_restore_path dir) :: tr'
                             /\ Forall is_score tr')).
  { intros s1 E. exists []. rewrite app_nil_r. auto. }
  assert (Hout : emits (fun _ => False)
                   (match out_path with
                    | None => raise TypeError
                    | Some p => if can_write env p then ret tt
                                else raise (IOError p)
                    end)).
  { destruct out_path as [p|]; [ | apply emits_raise].
    destruct (can_write env p); [apply emits_ret | apply emits_raise]. }
  apply bind_inv in H. destruct H as [(n & s1 & H1 & H) | (_ & r0 & H1 & _)].
  2:{ apply Hquiet. eapply emits_nothing; [ | exact H1].
      apply emits_get_file_line_count. }
  apply emits_nothing in H1; [ | apply emits_get_file_line_count].
  apply bind_inv in H. destruct H as [(g & s2 & H2 & H) | (_ & r0 & H2 & _)].
  2:{ apply Hquiet. rewrite <- H1. eapply emits_nothing; [ | exact H2].
      apply emits_build. }
  apply emits_nothing in H2; [ | apply emits_build].
  apply bind_inv in H. destruct H as [(stream & s3 & H3 & H) | (_ & r0 & H3 & _)].
  2:{ apply Hquiet. rewrite <- H1, <- H2. eapply emits_nothing; [ | exact H3].
      apply emits_open_read. }
  apply emits_nothing in H3; [ | apply emits_open_read].
  apply bind_inv in H. destruct H as [([] & s4 & H4 & H) | (_ & r0 & H4 & _)].
  2:{ apply Hquiet. rewrite <- H1, <- H2, <- H3.
      eapply emits_nothing; [exact Hout | exact H4]. }
  apply (emits_nothing _ _ _ _ Hout) in H4.
  assert (E4 : trace s4 = trace s0) by congruence. clear H1 H2 H3 H4.
  apply bind_inv in H. destruct H as [([] & s5 & H5 & H) | (_ & r0 & H5 & Hr0)].
  2:{ apply test_start_loaded in H5.
      destruct H5 as [(_ & ->) | (dir & P & _ & -> & _)];
        [now apply Hquiet | discriminate Hr0]. }
  apply test_start_loaded in H5.
  destruct H5 as [(Hr & _) | (dir & P & -> & _ & ->)]; [discriminate Hr | ].
  assert (Hloop : exists tr',
            trace s = (trace s4 ++ [Restore (test_restore_path dir)]) ++ tr'
            /\ Forall is_score tr').
  { revert H. apply (emits_bind is_score).
    - destruct (batch_size cfg) eqn:Hbs; [apply emits_raise | ].
      apply emits_repeat_m. intros acc. now apply emits_test_batch.
    - intros _. apply emits_ret. }
  destruct Hloop as (tr' & E & F).
  exists (Restore (test_restore_path dir) :: tr'). split; [ | split].
  - rewrite E, E4, <- app_assoc. reflexivity.
  - constructor; [exact I | ].
    eapply Forall_impl; [ | exact F]. intros [] Hs; simpl in *; auto.
  - right. exists dir, tr'. auto.
Qed.

(** C2 (amended).  Started from the command line without [--train], the
    program calls test with [load_model=True]: the session never
    initialises the variables, and it scores only after having restored
    them from [checkpoint_dir + 'data.ckpt'].  The test method itself
    restores only when its [load_model] argument is true. *)
Theorem main_inference_restores (args : Args) (s0 s : Sess) (r : Result unit) :
  arg_train args = false ->
  main env cfg args s0 = (r, s) ->
  exists tr : list Event,
    trace s = trace s0 ++ tr
    /\ Forall not_init tr
    /\ (tr = []
        \/ exists dir tr',
             arg_checkpoint_dir args = Some dir
             /\ tr = Restore (test_restore_path dir) :: tr'
             /\ Forall is_score tr').
Proof.
  intros Ht H. unfold main in H. rewrite Ht in H.
  exact (test_loaded_trace _ _ _ _ _ _ _ H).
Qed.

Lemma has_shape2_rows {A : Type} rows cols (m : list (list A)) :
  has_shape2 rows cols m = true -> length m = rows.
Proof.
  unfold has_shape2. intros H. apply andb_prop in H. now apply Nat.eqb_eq.
Qed.

Lemma has_shape3_rows {A : Type} n rows cols (t : list (list (list A))) :
  has_shape3 n rows cols t = true -> length t = n.
Proof.
  unfold has_shape3. intros H. apply andb_prop in H. now apply Nat.eqb_eq.
Qed.

Lemma scores_length P g fq fd (mask : list Mat) (fw : list Vec) mu sigma n :
  length fq = n -> length fd = n -> length mask = n -> length fw = n ->
  length (scores cfg P g fq fd mask fw mu sigma) = n.
Proof.
  intros Hq Hd Hm Hw. destruct g as [|layers]; simpl;
    rewrite !length_map, map4_length; congruence.
Qed.

Lemma fscores_length max_nan P g fq fd (mask : list Mat) (fw : list Vec)
  mu sigma n v :
  length fq = n -> length fd = n -> length mask = n -> length fw = n ->
  Float32.fscores max_nan cfg P g fq fd mask fw mu sigma = Some v ->
  length v = n.
Proof.
  intros Hq Hd Hm Hw. destruct g as [|layers]; simpl;
    [unfold Float32.fmodel | unfold Float32.fconv_model];
    destruct (_ && _)%bool; simpl; intros H; try discriminate H;
    injection H as <-; rewrite !length_map, map4_length; congruence.
Qed.

Lemma run_scores_ok g X mask s v s' :
  run_scores env cfg g X mask s = (Ok v, s') ->
  Float32.fscores (maximum_of_nan env) cfg (params s) g
    (re_pad_ids env (q X) (batch_size cfg))
    (re_pad_ids env (d X) (batch_size cfg))
    mask
    (re_pad_weights env (idf X) (batch_size cfg))
    (mus env) (sigmas env) = Some v
  /\ length v = batch_size cfg
  /\ written s' = written s
  /\ params s' = params s.
Proof.
  unfold run_scores. destruct (point_feed_fits _ _ _ _ _ _) eqn:Hfit;
    [ | discriminate].
  unfold bind at 1. unfold get_params.
  destruct (Float32.fscores _ _ _ _ _ _ _ _ _ _) as [o|] eqn:Ho; [ | discriminate].
  intros H. injection H as <- <-. split; [reflexivity | ].
  split; [ | split; reflexivity].
  unfold point_feed_fits in Hfit.
  apply andb_prop in Hfit. destruct Hfit as [Hfit _].
  apply andb_prop in Hfit. destruct Hfit as [Hfit Hm].
  apply andb_prop in Hfit. destruct Hfit as [Hfit Hw].
  apply andb_prop in Hfit. destruct Hfit as [Hq Hd].
  eapply fscores_length; [ | | | | exact Ho];
    first [ eapply has_shape2_rows; eassumption
          | eapply has_shape3_rows; eassumption ].
Qed.

Lemma for_each_write {A : Type} (f : A -> string) (l : list A) (s : Sess) :
  for_each (fun (_ : unit) (x : A) => write (f x)) l tt s
  = (Ok tt, {| params := params s; trace := trace s;
               written := written s ++ map f l |}).
Proof.
  revert s. induction l as [|x l IH]; intros s; simpl.
  - unfold ret. rewrite app_nil_r. now destruct s.
  - unfold bind, write. rewrite IH. simpl. now rewrite <- app_assoc.
Qed.

Lemma test_batch_ok g stream s rest s' :
  test_batch env cfg g stream s = (Ok rest, s') ->
  exists v : Float32.FVec,
    length v = batch_size cfg
    /\ written s' = written s ++ map (score_line env) v.
Proof.
  unfold test_batch.
  destruct (pointwise_generate env stream (batch_size cfg)) as [[X rest']|];
    [ | discriminate].
  intros H. apply bind_ok in H. destruct H as (v & s1 & Hv & H).
  apply run_scores_ok in Hv. destruct Hv as (_ & Hlen & Hw & _).
  apply bind_ok in H. destruct H as ([] & s2 & Hwrite & H).
  injection H as _ <-.
  rewrite for_each_write in Hwrite. injection Hwrite as <-.
  exists v. simpl. now rewrite Hw.
Qed.

Lemma test_loop_ok g n stream s rest s' :
  repeat_m n (test_batch env cfg g) stream s = (Ok rest, s') ->
  exists batches : list Float32.FVec,
    length batches = n
    /\ Forall (fun b => length b = batch_size cfg) batches
    /\ written s' = written s ++ map (score_line env) (concat batches).
Proof.
  revert stream s. induction n as [|n IH]; intros stream s H; simpl in H.
  - injection H as _ <-. exists []. simpl. now rewrite app_nil_r.
  - apply bind_ok in H. destruct H as (stream1 & s1 & Hb & H).
    apply test_batch_ok in Hb. destruct Hb as (v & Hv & Hw).
    apply IH in H. destruct H as (batches & Hn & Hall & Hw').
    exists (v :: batches). simpl. split; [now rewrite Hn | ]. split.
    + now constructor.
    + now rewrite Hw', Hw, map_app, app_assoc.
Qed.

Lemma ceil_div_covers (n m : nat) : (0 < m)%nat -> (n <= ceil_div n m * m)%nat.
Proof.
  intros Hm. unfold ceil_div.
  pose proof (Nat.div_mod_eq (n + m - 1) m) as E.
  pose proof (Nat.mod_upper_bound (n + m - 1) m) as U.
  nia.
Qed.

Lemma concat_length_uniform {A : Type} (ls : list (list A)) (k : nat) :
  Forall (fun l => length l = k) ls -> length (concat ls) = (length ls * k)%nat.
Proof.
  induction 1 as [|l ls Hl _ IH]; simpl; [reflexivity | ].
  now rewrite length_app, Hl, IH.
Qed.

Lemma test_start_written dir load_model s r s' :
  test_start env dir load_model s = (r, s') -> written s' = written s.
Proof.
  unfold test_start, dir_plus, saver_restore, initialize_all_variables.
  destruct load_model.
  - destruct dir as [dir|]; [ | intros H; now injection H as _ <-].
    unfold bind at 1. unfold ret at 1.
    destruct (checkpoint_at env _); intros H; now injection H as _ <-.
  - intros H. now injection H as _ <-.
Qed.

Lemma test_batch_scores g stream s rest s' :
  test_batch env cfg g stream s = (Ok rest, s') ->
  exists (X : PairBatch) (v : Float32.FVec),
    pointwise_generate env stream (batch_size cfg) = Some (X, rest)
    /\ batch_scores env cfg g (params s) X = Some v
    /\ params s' = params s
    /\ length v = batch_size cfg
    /\ written s' = written s ++ map (score_line env) v.
Proof.
  unfold test_batch.
  destruct (pointwise_generate env stream (batch_size cfg)) as [[X rest']|];
    [ | discriminate].
  intros H. apply bind_ok in H. destruct H as (v & s1 & Hv & H).
  apply run_scores_ok in Hv. destruct Hv as (Hv & Hlen & Hw & HP).
  apply bind_ok in H. destruct H as ([] & s2 & Hwrite & H).
  injection H as <- <-.
  rewrite for_each_write in Hwrite. injection Hwrite as <-.
  exists X, v. simpl. rewrite Hw. auto.
Qed.

(** The batches of [n] rounds and the scores of each. *)
Lemma test_loop_scores g n stream s rest s' :
  repeat_m n (test_batch env cfg g) stream s = (Ok rest, s') ->
  exists (batches : list PairBatch) (rows : list Float32.FVec),
    point_batches env cfg n stream = Some batches
    /\ params s' = params s
    /\ Forall2 (fun X v => batch_scores env cfg g (params s) X = Some v) batches rows
    /\ Forall (fun v => length v = batch_size cfg) rows
    /\ written s' = written s ++ map (score_line env) (concat rows).
Proof.
  revert stream s. induction n as [|n IH]; intros stream s H; simpl in H.
  - injection H as _ <-. exists [], []. simpl. rewrite app_nil_r. auto.
  - apply bind_ok in H. destruct H as (stream1 & s1 & Hb & H).
    apply test_batch_scores in Hb.
    destruct Hb as (X & v & Hgen & Hv & HP & Hlen & Hw).
    apply IH in H. destruct H as (batches & rows & Hpb & HP' & Hrows & Hall & Hw').
    rewrite HP in *.
    exists (X :: batches), (v :: rows). simpl. rewrite Hgen, Hpb. simpl.
    split; [reflexivity | ]. split; [exact HP' | ]. split; [now constructor | ].
    split; [now constructor | ].
    now rewrite Hw', Hw, map_app, app_assoc.
Qed.

Lemma point_batches_length n stream batches :
  point_batches env cfg n stream = Some batches -> length batches = n.
Proof.
  revert stream batches. induction n as [|n IH]; intros stream batches H; simpl in H.
  - now injection H as <-.
  - destruct (pointwise_generate env stream (batch_size cfg)) as [[X rest]|];
      [ | discriminate H].
    destruct (point_batches env cfg n rest) as [bs|] eqn:Hpb; [ | discriminate H].
    injection H as <-. simpl. f_equal. now apply (IH rest).
Qed.

(** C9 (amended).  When the test operation runs to completion on a test
    point file of [N] lines, it has taken [ceil(N / batch_size)] batches
    from the point stream, one after the other, and the output holds, after
    what was there before, exactly the scores the graph computes for these
    batches under the parameters of the session: for every batch in the
    order taken, for every row of the batch in row order, the formatted
    score followed by a newline.  Every batch has exactly [batch_size]
    rows, so [ceil(N / batch_size) * batch_size] lines are written, which
    is at least [N]. *)
Theorem test_output_lines
  (test_path out_path checkpoint_dir : option string) (load_model conv : bool)
  (s0 s : Sess) :
  test env cfg test_path out_path checkpoint_dir load_model conv s0 = (Ok tt, s) ->
  exists (p : string) (lines : list string) (g : ScoreGraph)
         (batches : list PairBatch) (rows : list Float32.FVec),
    test_path = Some p
    /\ read_file env p = Some lines
    /\ option_map fst (test_graph conv empty_store) = Some g
    /\ point_batches env cfg (ceil_div (length lines) (batch_size cfg)) lines
       = Some batches
    /\ length batches = ceil_div (length lines) (batch_size cfg)
    /\ Forall2 (fun X v => batch_scores env cfg g (params s) X = Some v) batches rows
    /\ Forall (fun v => length v = batch_size cfg) rows
    /\ written s
       = written s0
         ++ map (fun score => (format_score env score ++ newline)%string)
                (concat rows)
    /\ length (written s)
       = (length (written s0)
          + ceil_div (length lines) (batch_size cfg) * batch_size cfg)%nat
    /\ (length lines <= ceil_div (length lines) (batch_size cfg) * batch_size cfg)%nat.
Proof.
  intros H. unfold test in H.
  apply bind_ok in H. destruct H as (n & s1 & H1 & H).
  apply bind_ok in H. destruct H as (g & s2 & H2 & H).
  apply bind_ok in H. destruct H as (stream & s3 & H3 & H).
  apply bind_ok in H. destruct H as ([] & s4 & H4 & H).
  apply bind_ok in H. destruct H as ([] & s5 & H5 & H).
  apply bind_ok in H. destruct H as (u & s6 & H6 & H).
  injection H as <-.
  unfold get_file_line_count, open_read in H1.
  destruct test_path as [p|]; [ | discriminate H1].
  destruct (read_file env p) as [lines|] eqn:Hread; [ | discriminate H1].
  injection H1 as <- <-.
  assert (Hg : option_map fst (test_graph conv empty_store) = Some g /\ s2 = s0).
  { unfold build in H2. destruct (test_graph conv empty_store) as [[g' st]|];
      [now injection H2 as <- <- | discriminate H2]. }
  destruct Hg as (Hg & ->).
  assert (stream = lines /\ s3 = s0) as (-> & ->).
  { unfold open_read in H3. rewrite Hread in H3. now injection H3 as <- <-. }
  assert (s4 = s0) as ->.
  { destruct out_path as [o|]; [ | discriminate H4].
    destruct (can_write env o); [now injection H4 as <- | discriminate H4]. }
  apply test_start_written in H5.
  destruct (batch_size cfg) as [|bs] eqn:Hbs; [discriminate H6 | ].
  rewrite <- Hbs in *.
  apply test_loop_scores in H6.
  destruct H6 as (batches & rows & Hpb & HP & Hrows & Hall & Hw).
  rewrite <- HP in Hrows.
  pose proof (point_batches_length _ _ _ Hpb) as Hn.
  assert (Hnr : length rows = length batches)
    by (symmetry; eapply Forall2_length; exact Hrows).
  exists p, lines, g, batches, rows.
  split; [reflexivity | ]. split; [exact Hread | ]. split; [exact Hg | ].
  split; [exact Hpb | ]. split; [exact Hn | ]. split; [exact Hrows | ].
  split; [exact Hall | ]. split; [ | split].
  - now rewrite Hw, H5.
  - rewrite Hw, H5, length_app, length_map.
    rewrite (concat_length_uniform _ (batch_size cfg)) by exact Hall.
    f_equal. f_equal. etransitivity; [exact Hnr | exact Hn].
  - apply ceil_div_covers. lia.
Qed.

End TrainFacts.

(** C9 (as stated, refuted).  With three test points and batches of two,
    test runs to completion and writes four score lines: the padded last
    batch is scored and written in full. *)
Lemma three_points_four_lines :
  let r := test sample_env sample_cfg (Some "test.txt"%string)
             (Some "out.txt"%string) (Some "ckpt/"%string) true false
             fresh_session in
  is_ok (fst r) = true
  /\ option_map (@length string) (read_file sample_env "test.txt") = Some 3%nat
  /\ batch_size sample_cfg = 2%nat
  /\ length (written (snd r)) = 4%nat.
Proof. repeat split; reflexivity. Qed.

Lemma resume_without_checkpoint_sample :
  usable_checkpoint sample_env "ckpt" = None
  /\ fst (train sample_env sample_cfg (Some "train.txt"%string)
            (Some "val.txt"%string) (Some "ckpt"%string) true false
            fresh_session)
     = Exit (-1)
  /\ snd (train sample_env sample_cfg (Some "train.txt"%string)
            (Some "val.txt"%string) (Some "ckpt"%string) true false
            fresh_session)
     = fresh_session.
Proof.
  assert (H : usable_checkpoint sample_env "ckpt" = None) by reflexivity.
  destruct (resume_without_checkpoint_is_fatal sample_env sample_cfg
              (Some "train.txt"%string) (Some "val.txt"%string) "ckpt" false
              fresh_session H) as (Hs & _ & _ & Hexit).
  split; [exact H | ]. split; [ | exact Hs].
  exact (Hexit "train.txt"%string ["a"; "b"]%string eq_refl eq_refl).
Defined.

Lemma main_inference_restores_sample :
  arg_train sample_args = false
  /\ main sample_env sample_cfg sample_args fresh_session
     = (fst sample_inference, snd sample_inference)
  /\ exists tr : list Event,
       trace (snd sample_inference) = trace fresh_session ++ tr
       /\ Forall not_init tr
       /\ (tr = []
           \/ exists dir tr',
                arg_checkpoint_dir sample_args = Some dir
                /\ tr = Restore (test_restore_path dir) :: tr'
                /\ Forall is_score tr').
Proof.
  assert (H1 : arg_train sample_args = false) by reflexivity.
  assert (H2 : main sample_env sample_cfg sample_args fresh_session
               = (fst sample_inference, snd sample_inference)) by reflexivity.
  split; [exact H1 | ]. split; [exact H2 | ].
  exact (main_inference_restores sample_env sample_cfg _ _ _ _ H1 H2).
Defined.

Lemma test_output_lines_sample :
  test sample_env sample_cfg (Some "test.txt"%string) (Some "out.txt"%string)
       (Some "ckpt/"%string) true false fresh_session
  = (Ok tt, snd sample_inference)
  /\ point_batches sample_env sample_cfg 2 ["a"; "b"; "c"]%string
     = Some [sample_batch 2; sample_batch 1]
  /\ exists (p : string) (lines : list string) (g : ScoreGraph)
            (batches : list PairBatch) (rows : list Float32.FVec),
       Some "test.txt"%string = Some p
       /\ read_file sample_env p = Some lines
       /\ option_map fst (test_graph false empty_store) = Some g
       /\ point_batches sample_env sample_cfg
            (ceil_div (length lines) (batch_size sample_cfg)) lines
          = Some batches
       /\ length batches = ceil_div (length lines) (batch_size sample_cfg)
       /\ Forall2 (fun X v =>
                     batch_scores sample_env sample_cfg g
                       (params (snd sample_inference)) X = Some v)
                  batches rows
       /\ Forall (fun v => length v = batch_size sample_cfg) rows
       /\ written (snd sample_inference)
          = written fresh_session
            ++ map (fun score => (format_score sample_env score ++ newline)%string)
                   (concat rows)
       /\ length (written (snd sample_inference))
          = (length (written fresh_session)
             + ceil_div (length lines) (batch_size sample_cfg)
               * batch_size sample_cfg)%nat
       /\ (length lines
           <= ceil_div (length lines) (batch_size sample_cfg)
              * batch_size sample_cfg)%nat.
Proof.
  assert (H : test sample_env sample_cfg (Some "test.txt"%string)
                (Some "out.txt"%string) (Some "ckpt/"%string) true false
                fresh_session
              = (Ok tt, snd sample_inference)) by reflexivity.
  split; [exact H | ]. split; [reflexivity | ].
  exact (test_output_lines sample_env sample_cfg _ _ _ _ _ _ _ H).
Defined.

End Run.

(* ===================================================================== *)
(** ** Loading pretrained embeddings *)
(* ===================================================================== *)

(** [KNRM.load_word2vec], lines 67-84.  The parsing builtins ([str.split],
    [int], [float]) are taken as given; the table is a NumPy array, whose
    row assignment [emb[tid, :] = vec] accepts a negative index (counted
    from the end) and a one-element vector (broadcast over the row). *)

Module Embedding.

Import Tensor.
Local Open Scope Z_scope.

Inductive LoadError : Type :=
| IndexError   (* [items[0]] on a blank line, or a row index out of bounds *)
| ValueError.  (* [int] or [float] rejects a token, or the vector does not fit *)

Inductive Loaded : Type :=
| Table (emb : Mat)
| Failed (e : LoadError).

(** Assignment of one row of a list-of-rows array. *)
Fixpoint set_nth (i : nat) (row : Vec) (emb : Mat) : Mat :=
  match emb, i with
  | [], _ => []
  | _ :: emb', O => row :: emb'
  | r :: emb', S i' => r :: set_nth i' row emb'
  end.

Section Load.

Variable split : string -> list string.       (* [line.split()] *)
Variable parse_int : string -> option Z.      (* [int(s)] *)
Variable parse_float : string -> option R.    (* [float(s)] *)
Variable vocabulary_size : nat.
Variable embedding_size : nat.

(** [[float(t) for t in items[1:]]]. *)
Fixpoint parse_floats (items : list string) : option Vec :=
  match items with
  | [] => Some []
  | t :: items' =>
      match parse_float t, parse_floats items' with
      | Some x, Some xs => Some (x :: xs)
      | _, _ => None
      end
  end.

(** NumPy's position of index [tid] among [rows] rows. *)
Definition row_index (rows : nat) (tid : Z) : option nat :=
  let i := if tid <? 0 then tid + Z.of_nat rows else tid in
  if (i <? 0) || (Z.of_nat rows <=? i) then None else Some (Z.to_nat i).

(** The row a vector is broadcast to, if it fits. *)
Definition broadcast_row (vec : Vec) : option Vec :=
  if Nat.eqb (length vec) embedding_size then Some vec
  else match vec with
       | [x] => Some (repeat x embedding_size)
       | _ => None
       end.

(** [emb[tid, :] = vec]. *)
Definition assign_row (emb : Mat) (tid : Z) (vec : Vec) : Loaded :=
  match row_index (length emb) tid with
  | None => Failed IndexError
  | Some i =>
      match broadcast_row vec with
      | None => Failed ValueError
      | Some row => Table (set_nth i row emb)
      end
  end.

(** The body of the loop for a line after the first, lines 75-81. *)
Definition load_line (emb : Mat) (line : string) : Loaded :=
  match split line with
  | [] => Failed IndexError
  | item0 :: items =>
      match parse_int item0 with
      | None => Failed ValueError
      | Some tid =>
          if Z.of_nat vocabulary_size <? tid then Table emb   (* continue *)
          else
            match parse_floats items with
            | None => Failed ValueError
            | Some vec => assign_row emb tid vec
            end
      end
  end.

Fixpoint load_lines (emb : Mat) (lines : list string) : Loaded :=
  match lines with
  | [] => Table emb
  | line :: lines' =>
      match load_line emb line with
      | Table emb' => load_lines emb' lines'
      | Failed e => Failed e
      end
  end.

(** [load_word2vec] on the lines of the opened file; [initial] is the
    table drawn by [np.random.uniform].  The first line is skipped. *)
Definition load_word2vec (initial : Mat) (lines : list string) : Loaded :=
  match lines with
  | [] => Table initial
  | _ :: lines' => load_lines initial lines'
  end.

(** A line whose id exceeds the vocabulary size. *)
Definition beyond_vocabulary (line : string) : Prop :=
  exists item0 items tid,
    split line = item0 :: items
    /\ parse_int item0 = Some tid
    /\ Z.of_nat vocabulary_size < tid.

(** Every row of a table has the embedding width. *)
Definition well_shaped (emb : Mat) : Prop :=
  Forall (fun row => length row = embedding_size) emb.

(* --------------------------------------------------------------------- *)

Lemma set_nth_length i row emb : length (set_nth i row emb) = length emb.
Proof.
  revert i. induction emb as [|r emb IH]; intros [|i]; simpl; auto.
Qed.

Lemma set_nth_same i row emb d :
  (i < length emb)%nat -> nth i (set_nth i row emb) d = row.
Proof.
  revert i. induction emb as [|r emb IH]; intros [|i] H; simpl in *;
    try lia; auto. apply IH. lia.
Qed.

Lemma set_nth_other i j row emb d :
  i <> j -> nth j (set_nth i row emb) d = nth j emb d.
Proof.
  revert i j. induction emb as [|r emb IH]; intros [|i] [|j] H; simpl;
    try reflexivity; try congruence. apply IH. congruence.
Qed.

Lemma set_nth_Forall (Q : Vec -> Prop) i row emb :
  Q row -> Forall Q emb -> Forall Q (set_nth i row emb).
Proof.
  intros Hrow H. revert i. induction H as [|r emb Hr Hemb IH]; intros [|i]; simpl;
    constructor; auto.
Qed.

Lemma row_index_bound rows tid i :
  row_index rows tid = Some i -> (i < rows)%nat.
Proof.
  unfold row_index. destruct (tid <? 0) eqn:Hneg;
    destruct (_ || _) eqn:Hout; try discriminate;
    intros H; injection H as <-;
    apply orb_false_iff in Hout; destruct Hout as [H1 H2];
    apply Z.ltb_ge in H1; apply Z.leb_gt in H2; lia.
Qed.

Lemma broadcast_row_length vec row :
  broadcast_row vec = Some row -> length row = embedding_size.
Proof.
  unfold broadcast_row. destruct (Nat.eqb (length vec) embedding_size) eqn:E.
  - intros H. injection H as <-. now apply Nat.eqb_eq.
  - destruct vec as [|x [|y vec]]; try discriminate.
    intros H. injection H as <-. apply repeat_length.
Qed.

Lemma load_line_shape emb line emb' :
  load_line emb line = Table emb' ->
  length emb' = length emb /\ (well_shaped emb -> well_shaped emb').
Proof.
  unfold load_line. destruct (split line) as [|item0 items]; [discriminate | ].
  destruct (parse_int item0) as [tid|]; [ | discriminate].
  destruct (Z.of_nat vocabulary_size <? tid).
  - intros H. injection H as <-. auto.
  - destruct (parse_floats items) as [vec|]; [ | discriminate].
    unfold assign_row. destruct (row_index (length emb) tid) as [i|];
      [ | discriminate].
    destruct (broadcast_row vec) as [row|] eqn:Hrow; [ | discriminate].
    intros H. injection H as <-. split; [apply set_nth_length | ].
    intros Hw. apply set_nth_Forall; [ | exact Hw].
    now apply broadcast_row_length in Hrow.
Qed.

(** X1. A successful load keeps the number of rows of the table, and keeps
    every row at the embedding width if the initial table had it. *)
Theorem load_word2vec_shape (initial : Mat) (lines : list string) (emb : Mat) :
  load_word2vec initial lines = Table emb ->
  length emb = length initial /\ (well_shaped initial -> well_shaped emb).
Proof.
  destruct lines as [|header lines]; simpl.
  - intros H. injection H as <-. auto.
  - revert initial. induction lines as [|line lines IH]; intros initial; simpl.
    + intros H. injection H as <-. auto.
    + destruct (load_line initial line) as [emb1|e] eqn:Hline; [ | discriminate].
      intros H. apply IH in H. apply load_line_shape in Hline.
      destruct H as (L1 & W1), Hline as (L2 & W2). split; [congruence | auto].
Qed.

Lemma load_line_beyond emb line :
  beyond_vocabulary line -> load_line emb line = Table emb.
Proof.
  intros (item0 & items & tid & Hs & Hi & Ht). unfold load_line.
  rewrite Hs, Hi. apply Z.ltb_lt in Ht. now rewrite Ht.
Qed.

(** X2. The first line is never read, and a line whose id is larger than the
    vocabulary size is skipped before its numbers are parsed: a file made
    of any header followed by such lines leaves the table as drawn, even
    if the numbers on those lines are malformed. *)
Theorem load_word2vec_skips (initial : Mat) (header : string) (lines : list string) :
  Forall beyond_vocabulary lines ->
  load_word2vec initial (header :: lines) = Table initial.
Proof.
  simpl. induction 1 as [|line lines Hl _ IH]; simpl; [reflexivity | ].
  now rewrite load_line_beyond.
Qed.

Lemma load_lines_app emb ls1 ls2 :
  load_lines emb (ls1 ++ ls2)
  = match load_lines emb ls1 with
    | Table emb1 => load_lines emb1 ls2
    | Failed e => Failed e
    end.
Proof.
  revert emb. induction ls1 as [|l ls1 IH]; intros emb; simpl; [reflexivity | ].
  destruct (load_line emb l); [apply IH | reflexivity].
Qed.

(** X3. The last line of the file decides its row: if the lines before it
    load, and it carries an id [tid] with [-rows <= tid <= vocabulary_size]
    and a vector of the embedding width, the load succeeds, the row at
    NumPy position [tid] (counted from the end when [tid] is negative) is
    that vector, and every other row is as the earlier lines left it. *)
Theorem load_word2vec_last_line
  (initial : Mat) (header : string) (lines : list string) (line : string)
  (before : Mat) (item0 : string) (items : list string) (tid : Z) (vec : Vec) :
  load_word2vec initial (header :: lines) = Table before ->
  split line = item0 :: items ->
  parse_int item0 = Some tid ->
  parse_floats items = Some vec ->
  length vec = embedding_size ->
  - Z.of_nat (length before) <= tid <= Z.of_nat vocabulary_size ->
  tid < Z.of_nat (length before) ->
  exists emb,
    load_word2vec initial (header :: lines ++ [line]) = Table emb
    /\ nth (Z.to_nat (tid mod Z.of_nat (length before))) emb [] = vec
    /\ forall j, j <> Z.to_nat (tid mod Z.of_nat (length before)) ->
         nth j emb [] = nth j before [].
Proof.
  simpl. intros Hbefore Hs Hi Hf Hlen Hrange Hlt.
  rewrite load_lines_app, Hbefore. simpl. unfold load_line.
  rewrite Hs, Hi, Hf.
  replace (Z.of_nat vocabulary_size <? tid) with false
    by (symmetry; apply Z.ltb_ge; lia).
  unfold assign_row, broadcast_row.
  replace (Nat.eqb (length vec) embedding_size) with true
    by (symmetry; now apply Nat.eqb_eq).
  set (rows := Z.of_nat (length before)) in *.
  assert (Hidx : row_index (length before) tid = Some (Z.to_nat (tid mod rows))).
  { unfold row_index. fold rows. destruct (tid <? 0) eqn:Hneg.
    - apply Z.ltb_lt in Hneg.
      replace ((tid + rows <? 0) || (rows <=? tid + rows)) with false.
      + f_equal. f_equal.
        rewrite <- (Z.mod_small (tid + rows) rows) by lia.
        rewrite <- (Z_mod_plus_full tid 1 rows). f_equal. lia.
      + symmetry. apply orb_false_iff. split;
          [apply Z.ltb_ge | apply Z.leb_gt]; lia.
    - apply Z.ltb_ge in Hneg.
      replace ((tid <? 0) || (rows <=? tid)) with false.
      + now rewrite Z.mod_small by lia.
      + symmetry. apply orb_false_iff. split;
          [apply Z.ltb_ge | apply Z.leb_gt]; lia. }
  rewrite Hidx. eexists. split; [reflexivity | ]. split.
  - apply set_nth_same. apply row_index_bound in Hidx. exact Hidx.
  - intros j Hj. apply set_nth_other. congruence.
Qed.

(** X4. A blank line after the header aborts the load with [IndexError],
    whatever follows it. *)
Theorem load_word2vec_blank_line
  (initial : Mat) (header : string) (lines rest : list string) (line : string)
  (before : Mat) :
  load_word2vec initial (header :: lines) = Table before ->
  split line = [] ->
  load_word2vec initial (header :: lines ++ line :: rest) = Failed IndexError.
Proof.
  simpl. intros Hbefore Hs. rewrite load_lines_app, Hbefore. simpl.
  unfold load_line. now rewrite Hs.
Qed.

End Load.

(** *** A sample file *)

Local Open Scope string_scope.

(** Parsing restricted to the tokens of the sample lines. *)
Definition sample_split (line : string) : list string :=
  if String.eqb line "1 0.5" then ["1"; "0.5"]
  else if String.eqb line "-1 0.25" then ["-1"; "0.25"]
  else if String.eqb line "9 x" then ["9"; "x"]
  else [].

Definition sample_int (s : string) : option Z :=
  if String.eqb s "1" then Some 1
  else if String.eqb s "-1" then Some (-1)
  else if String.eqb s "9" then Some 9
  else None.

Definition sample_float (s : string) : option R :=
  if String.eqb s "0.5" then Some 0.5%R
  else if String.eqb s "0.25" then Some 0.25%R
  else None.

Definition sample_initial : Mat := [[0%R]; [0%R]; [0%R]].

Definition sample_load : Mat -> list string -> Loaded :=
  load_word2vec sample_split sample_int sample_float 2 1.

Lemma load_word2vec_shape_sample :
  sample_load sample_initial ["3 1"; "1 0.5"] = Table [[0%R]; [0.5%R]; [0%R]]
  /\ length [[0%R]; [0.5%R]; [0%R]] = length sample_initial
  /\ (well_shaped 1 sample_initial -> well_shaped 1 [[0%R]; [0.5%R]; [0%R]]).
Proof.
  assert (H : sample_load sample_initial ["3 1"; "1 0.5"]
              = Table [[0%R]; [0.5%R]; [0%R]]) by reflexivity.
  split; [exact H | ].
  exact (load_word2vec_shape sample_split sample_int sample_float 2 1 _ _ _ H).
Defined.

Lemma load_word2vec_skips_sample :
  Forall (beyond_vocabulary sample_split sample_int 2) ["9 x"]
  /\ sample_load sample_initial ["3 1"; "9 x"] = Table sample_initial.
Proof.
  assert (H : Forall (beyond_vocabulary sample_split sample_int 2) ["9 x"]).
  { constructor; [ | constructor].
    exists "9", ["x"], 9%Z. repeat split; reflexivity. }
  split; [exact H | ].
  exact (load_word2vec_skips sample_split sample_int sample_float 2 1
           sample_initial "3 1" _ H).
Defined.

Lemma load_word2vec_last_line_sample :
  sample_load sample_initial ["3 1"; "1 0.5"] = Table [[0%R]; [0.5%R]; [0%R]]
  /\ exists emb,
       sample_load sample_initial ("3 1" :: ["1 0.5"] ++ ["-1 0.25"]) = Table emb
       /\ nth (Z.to_nat (-1 mod Z.of_nat (length [[0%R]; [0.5%R]; [0%R]]))) emb []
          = [0.25%R]
       /\ forall j,
            j <> Z.to_nat (-1 mod Z.of_nat (length [[0%R]; [0.5%R]; [0%R]])) ->
            nth j emb [] = nth j [[0%R]; [0.5%R]; [0%R]] [].
Proof.
  assert (H : sample_load sample_initial ["3 1"; "1 0.5"]
              = Table [[0%R]; [0.5%R]; [0%R]]) by reflexivity.
  split; [exact H | ].
  refine (load_word2vec_last_line sample_split sample_int sample_float 2 1
            sample_initial "3 1" ["1 0.5"] "-1 0.25" _ "-1" ["0.25"] (-1)%Z
            [0.25%R] H eq_refl eq_refl eq_refl eq_refl _ _); simpl; lia.
Defined.

Lemma load_word2vec_blank_line_sample :
  sample_load sample_initial ["3 1"; "1 0.5"] = Table [[0%R]; [0.5%R]; [0%R]]
  /\ sample_split "" = []
  /\ sample_load sample_initial ("3 1" :: ["1 0.5"] ++ "" :: ["1 0.5"])
     = Failed IndexError.
Proof.
  assert (H : sample_load sample_initial ["3 1"; "1 0.5"]
              = Table [[0%R]; [0.5%R]; [0%R]]) by reflexivity.
  split; [exact H | ]. split; [reflexivity | ].
  exact (load_word2vec_blank_line sample_split sample_int sample_float 2 1
           sample_initial "3 1" ["1 0.5"] ["1 0.5"] "" _ H eq_refl).
Defined.

End Embedding.

(* ===================================================================== *)
(** ** Further properties of the scoring graph *)
(* ===================================================================== *)

Module GraphFacts.

Import Tensor.
Import VarScope.
Import Graph.
Local Open Scope R_scope.

(** The squared Euclidean length of a row, [tf.reduce_sum(tf.square(x))]. *)
Definition sumsq (v : Vec) : R := reduce_sum (map Rsqr v).

(** The in-range predicate of a cosine. *)
Definition unit_range (s : R) : Prop := -1 <= s <= 1.

(** An id whose embedding row has a non-zero norm (a zero norm makes the
    normalisation divide by zero). *)
Definition normalizable (emb : Mat) (id : nat) : Prop :=
  l2_norm (nth id emb []) <> 0.

(** A mask entry as [gen_mask] produces them. *)
Definition binary (m : R) : Prop := m = 0 \/ m = 1.

Lemma sumsq_nonneg (v : Vec) : 0 <= sumsq v.
Proof.
  unfold sumsq. apply reduce_sum_nonneg. apply Forall_forall.
  intros x Hx. apply in_map_iff in Hx. destruct Hx as (y & <- & _).
  apply Rle_0_sqr.
Qed.

Lemma dot_bound (u v : Vec) :
  - ((sumsq u + sumsq v) / 2) <= dot u v <= (sumsq u + sumsq v) / 2.
Proof.
  revert v. induction u as [|x u IH]; intros v.
  - unfold dot. simpl. pose proof (sumsq_nonneg v). unfold sumsq at 1 3. simpl. lra.
  - destruct v as [|y v].
    + unfold dot. simpl. pose proof (sumsq_nonneg (x :: u)).
      unfold sumsq at 2 4. simpl. lra.
    + specialize (IH v). unfold dot, sumsq in *. simpl in *.
      unfold Rsqr in *.
      assert (H1 : 2 * (x * y) <= x * x + y * y)
        by (pose proof (Rle_0_sqr (x - y)) as Hsq; unfold Rsqr in Hsq; lra).
      assert (H2 : - (2 * (x * y)) <= x * x + y * y)
        by (pose proof (Rle_0_sqr (x + y)) as Hsq; unfold Rsqr in Hsq; lra).
      lra.
Qed.

Lemma sumsq_scaled (c : R) (v : Vec) :
  sumsq (map (fun x => x / c) v) = sumsq v * Rsqr (/ c).
Proof.
  unfold sumsq. induction v as [|x v IH]; simpl; [lra | ].
  rewrite IH. unfold Rsqr, Rdiv. lra.
Qed.

Lemma sumsq_normalize (v : Vec) : l2_norm v <> 0 -> sumsq (normalize v) = 1.
Proof.
  intros Hn. unfold normalize. rewrite sumsq_scaled.
  assert (Hs : Rsqr (l2_norm v) = sumsq v).
  { unfold l2_norm. apply Rsqr_sqrt. apply sumsq_nonneg. }
  rewrite <- Hs. unfold Rsqr. field. exact Hn.
Qed.

Lemma cosine_in_range (a b : Vec) :
  l2_norm a <> 0 -> l2_norm b <> 0 ->
  unit_range (dot (normalize a) (normalize b)).
Proof.
  intros Ha Hb. pose proof (dot_bound (normalize a) (normalize b)) as H.
  rewrite !sumsq_normalize in H by assumption. unfold unit_range. lra.
Qed.

(** X5. Every entry of the unigram similarity matrix is a cosine: it lies in
    [-1, 1] as soon as the embedding rows of the query and document terms
    have non-zero norm. *)
Theorem similarity_in_unit_range (P : Params) (q d : list nat) :
  Forall (normalizable (embeddings P)) q ->
  Forall (normalizable (embeddings P)) d ->
  Forall (Forall unit_range) (model_sim P q d).
Proof.
  intros Hq Hd. unfold model_sim, matmul_nt, embedding_lookup.
  rewrite !map_map. apply Forall_forall. intros row Hrow.
  apply in_map_iff in Hrow. destruct Hrow as (i & <- & Hi).
  rewrite map_map. apply Forall_forall. intros s Hs.
  apply in_map_iff in Hs. destruct Hs as (j & <- & Hj).
  rewrite Forall_forall in Hq, Hd.
  apply cosine_in_range; [now apply Hq | now apply Hd].
Qed.

Lemma similarity_in_unit_range_sample :
  Forall (normalizable (embeddings sample_params)) [1%nat; 2%nat]
  /\ Forall (normalizable (embeddings sample_params)) [0%nat]
  /\ Forall (Forall unit_range) (model_sim sample_params [1%nat; 2%nat] [0%nat]).
Proof.
  assert (Hrow : forall x : R, x <> 0 -> l2_norm [x] <> 0).
  { intros x Hx. unfold l2_norm. simpl. rewrite Rplus_0_r, sqrt_Rsqr_abs.
    now apply Rabs_no_R0. }
  assert (H1 : Forall (normalizable (embeddings sample_params)) [1%nat; 2%nat]).
  { repeat constructor; unfold normalizable; simpl; apply Hrow; lra. }
  assert (H2 : Forall (normalizable (embeddings sample_params)) [0%nat]).
  { repeat constructor; unfold normalizable; simpl; apply Hrow; lra. }
  split; [exact H1 | ]. split; [exact H2 | ].
  exact (similarity_in_unit_range sample_params _ _ H1 H2).
Defined.

(* --------------------------------------------------------------------- *)
(** *** The kernel responses *)

Lemma gaussian_le_1 (mu sigma s : R) : sigma <> 0 -> gaussian mu sigma s <= 1.
Proof.
  intros Hs. unfold gaussian. rewrite <- exp_0.
  assert (H2 : 0 < Rsqr sigma * 2).
  { pose proof (Rsqr_pos_lt sigma Hs). lra. }
  assert (Hle : - Rsqr (s - mu) / (Rsqr sigma * 2) <= 0).
  { pose proof (Rle_0_sqr (s - mu)). unfold Rdiv.
    pose proof (Rinv_0_lt_compat _ H2). nra. }
  destruct Hle as [Hlt | ->]; [left; now apply exp_increasing | right; reflexivity].
Qed.

Lemma gaussian_at_centre (mu sigma : R) : gaussian mu sigma mu = 1.
Proof.
  unfold gaussian. replace (mu - mu) with 0 by lra.
  rewrite Rsqr_0. unfold Rdiv. rewrite Ropp_0, Rmult_0_l. apply exp_0.
Qed.

(** X6. The summed density of a kernel of non-zero width under a 0/1 mask lies
    between 0 and the number of unmasked document positions (the sum of
    the mask row); a similarity equal to the kernel centre responds with
    exactly 1. *)
Theorem kernel_density_bounds (mu sigma : R) (sim_row mask_row : Vec) :
  sigma <> 0 ->
  Forall binary mask_row ->
  0 <= kde_row mu sigma sim_row mask_row <= reduce_sum mask_row
  /\ gaussian mu sigma mu = 1.
Proof.
  intros Hs Hm. split; [ | apply gaussian_at_centre].
  unfold kde_row. revert sim_row.
  induction Hm as [|m mask_row Hm0 Hm IH]; intros sim_row.
  - destruct sim_row; simpl; lra.
  - destruct sim_row as [|s sim_row]; simpl.
    + assert (0 <= reduce_sum mask_row).
      { apply reduce_sum_nonneg. eapply Forall_impl; [ | exact Hm].
        intros x [-> | ->]; lra. }
      destruct Hm0 as [-> | ->]; lra.
    + specialize (IH sim_row).
      pose proof (gaussian_pos mu sigma s). pose proof (gaussian_le_1 mu sigma s Hs).
      destruct Hm0 as [-> | ->]; lra.
Qed.

Lemma kernel_density_bounds_sample :
  1e-3 <> 0
  /\ Forall binary [1; 0; 1]
  /\ 0 <= kde_row 1 1e-3 [1; 0.5; 0.2] [1; 0; 1] <= reduce_sum [1; 0; 1].
Proof.
  assert (H1 : 1e-3 <> 0) by lra.
  assert (H2 : Forall binary [1; 0; 1])
    by (repeat constructor; unfold binary; auto).
  split; [exact H1 | ]. split; [exact H2 | ].
  exact (proj1 (kernel_density_bounds 1 1e-3 [1; 0.5; 0.2] [1; 0; 1] H1 H2)).
Defined.

(* --------------------------------------------------------------------- *)
(** *** The convolution layer *)

(** The properties of one output row of a convolution layer. *)
Definition conv_row_ok (f : ConvFilter) (row : Vec) : Prop :=
  length row = Nat.min (length (kernel f)) (length (bias f))
  /\ Forall (fun y => 0 <= y) row.

Lemma pad_same_length (size channels : nat) (x : Mat) :
  length (pad_same size channels x) = (length x + (size - 1))%nat.
Proof.
  unfold pad_same. rewrite !length_app, !repeat_length.
  assert ((size - 1) / 2 <= size - 1)%nat by (apply Nat.Div0.div_le_upper_bound; lia).
  lia.
Qed.

(** X7. With [padding='same'] a convolution layer returns one row per input
    position, whatever the window size; every output position is computed
    from a window of exactly [size] rows of the zero-padded input; every
    output row has one entry per filter and, after the rectifier, no
    negative entry. *)
Theorem conv1d_same_padding (f : ConvFilter) (size channels : nat) (x : Mat) :
  length (conv1d f size channels x) = length x
  /\ Forall (fun w => length w = size)
            (windows size (pad_same size channels x) (length x))
  /\ Forall (conv_row_ok f) (conv1d f size channels x).
Proof.
  split; [ | split].
  - unfold conv1d, windows. now rewrite !length_map, length_seq.
  - unfold windows. apply Forall_forall. intros w Hw.
    apply in_map_iff in Hw. destruct Hw as (t & <- & Ht).
    apply in_seq in Ht.
    rewrite length_firstn, length_skipn, pad_same_length. lia.
  - unfold conv1d. apply Forall_forall. intros row Hrow.
    apply in_map_iff in Hrow. destruct Hrow as (w & <- & _). split.
    + now rewrite length_map, length_combine.
    + apply Forall_forall. intros y Hy. apply in_map_iff in Hy.
      destruct Hy as (kb & <- & _). unfold relu. apply Rmax_r.
Qed.

(* --------------------------------------------------------------------- *)
(** *** Rows of padding *)

Definition is_zero (x : R) : Prop := x = 0.

Lemma reduce_sum_zeros (v : Vec) : Forall is_zero v -> reduce_sum v = 0.
Proof.
  induction 1 as [|x v Hx _ IH]; simpl; [reflexivity | ].
  unfold is_zero in Hx. lra.
Qed.

Lemma dot_zeros_l (u v : Vec) : Forall is_zero u -> dot u v = 0.
Proof.
  intros Hu. unfold dot. apply reduce_sum_zeros. revert v.
  induction Hu as [|x u Hx _ IH]; intros [|y v]; simpl; constructor.
  - unfold is_zero in *. subst x. lra.
  - apply IH.
Qed.






















(* --------------------------------------------------------------------- *)
(** *** Pairs of padding on the multi-scale path *)

Lemma in_firstn {A : Type} (n : nat) (l : list A) (x : A) :
  In x (firstn n l) -> In x l.
Proof.
  revert l. induction n as [|n IH]; intros [|a l]; simpl; try tauto.
  intros [-> | H]; [now left | right; now apply IH].
Qed.

Lemma in_skipn {A : Type} (n : nat) (l : list A) (x : A) :
  In x (skipn n l) -> In x l.
Proof.
  revert l. induction n as [|n IH]; intros [|a l]; simpl; try tauto.
  intros H. right. now apply IH.
Qed.

(** A convolution layer with zero biases maps a sequence of zero rows to
    zero rows. *)
Lemma conv1d_zeros (f : ConvFilter) (size channels : nat) (x : Mat) :
  Forall (Forall is_zero) x -> Forall is_zero (bias f) ->
  Forall (Forall is_zero) (conv1d f size channels x).
Proof.
  intros Hx Hb.
  assert (Hpad : Forall (Forall is_zero) (pad_same size channels x)).
  { unfold pad_same. repeat (apply Forall_app; split); try exact Hx;
      apply Forall_forall; intros r Hr; apply repeat_spec in Hr; subst r;
      apply Forall_forall; intros y Hy; apply repeat_spec in Hy; exact Hy. }
  unfold conv1d, windows. apply Forall_forall. intros row Hrow.
  apply in_map_iff in Hrow. destruct Hrow as (w & <- & Hw).
  apply in_map_iff in Hw. destruct Hw as (t & <- & _).
  apply Forall_forall. intros y Hy. apply in_map_iff in Hy.
  destruct Hy as ([k b] & <- & Hkb). simpl.
  assert (Hb0 : b = 0).
  { apply in_combine_r in Hkb. rewrite Forall_forall in Hb. now apply Hb. }
  subst b. unfold is_zero. apply Float32.relu_zero. unfold conv_at.
  rewrite reduce_sum_zeros; [lra | ].
  apply Forall_forall. intros z Hz. apply in_map_iff in Hz.
  destruct Hz as ([wi ki] & <- & Hin). simpl. apply dot_zeros_l.
  apply in_combine_l in Hin. apply in_firstn, in_skipn in Hin.
  rewrite Forall_forall in Hpad. now apply Hpad.
Qed.

(** A non-empty row of not-a-number entries. *)
Definition nan_row (r : Float32.FVec) : Prop :=
  r <> [] /\ Forall (fun a => a = Float32.NaN) r.

Lemma fsum_nan (v : Float32.FVec) : In Float32.NaN v -> Float32.fsum v = Float32.NaN.
Proof.
  induction v as [|a v IH]; intros H; [contradiction | ].
  change (Float32.fsum (a :: v)) with (Float32.fadd a (Float32.fsum v)).
  destruct H as [-> | H]; [reflexivity | ].
  rewrite IH by exact H. apply Float32.fadd_nan_r.
Qed.

Lemma fdot_nan (u v : Float32.FVec) :
  nan_row u -> v <> [] -> Float32.fdot u v = Float32.NaN.
Proof.
  intros (Hne & Hu) Hv. destruct u as [|a u]; [now destruct Hne | ].
  destruct v as [|b v]; [now destruct Hv | ].
  inversion Hu; subst. unfold Float32.fdot. apply fsum_nan. now left.
Qed.

Lemma fnormalize_nan_row (v : Vec) :
  v <> [] -> Forall is_zero v -> nan_row (Float32.fnormalize v).
Proof.
  intros Hne Hz. rewrite Float32.fnormalize_zeros by exact Hz. split.
  - destruct v; [now destruct Hne | discriminate].
  - apply Forall_forall. intros a Ha. apply in_map_iff in Ha.
    now destruct Ha as (x & <- & _).
Qed.

Lemma fmatmul_nt_nan (a b : Float32.FMat) :
  Forall nan_row a -> Forall (fun r => r <> []) b ->
  Forall (fun row => length row = length b
                     /\ Forall (fun s => s = Float32.NaN) row)
         (Float32.fmatmul_nt a b).
Proof.
  intros Ha Hb. unfold Float32.fmatmul_nt. apply Forall_forall. intros row Hrow.
  apply in_map_iff in Hrow. destruct Hrow as (ai & <- & Hai).
  split; [apply length_map | ].
  apply Forall_forall. intros s Hs. apply in_map_iff in Hs.
  destruct Hs as (bj & <- & Hbj). apply fdot_nan.
  - rewrite Forall_forall in Ha. now apply Ha.
  - rewrite Forall_forall in Hb. now apply Hb.
Qed.

Lemma fgaussian_nan (mu sigma : R) : Float32.fgaussian mu sigma Float32.NaN = Float32.NaN.
Proof. reflexivity. Qed.

Lemma fkde_row_nan (mu sigma : R) (sim_row : Float32.FVec) (mask_row : Vec) :
  sim_row <> [] -> mask_row <> [] ->
  Forall (fun s => s = Float32.NaN) sim_row ->
  Float32.fkde_row mu sigma sim_row mask_row = Float32.NaN.
Proof.
  intros Hs Hm Hnan. destruct sim_row as [|s sim_row]; [now destruct Hs | ].
  destruct mask_row as [|m mask_row]; [now destruct Hm | ].
  inversion Hnan; subst. unfold Float32.fkde_row. apply fsum_nan. now left.
Qed.

Lemma fsoft_tf_nan (sim : Float32.FMat) (mask : Mat) (qw : Vec) (mu sigma : R)
  (s0 : Float32.FVec) (sim' : Float32.FMat) (m0 : Vec) (mask' : Mat)
  (w0 : R) (qw' : Vec) :
  sim = s0 :: sim' -> mask = m0 :: mask' -> qw = w0 :: qw' ->
  s0 <> [] -> m0 <> [] -> Forall (fun s => s = Float32.NaN) s0 ->
  Float32.fsoft_tf Float32.flog1p sim mask qw mu sigma = Float32.NaN.
Proof.
  intros -> -> -> Hs Hm Hnan. unfold Float32.fsoft_tf. apply fsum_nan.
  left. now rewrite fkde_row_nan.
Qed.

(** X27. On the multi-scale path a pair made of padding scores
    not-a-number: when every id of the query and of the document selects a
    zero row of the embedding table and the convolution layers have zero
    biases (as they are initialised), every convolution row is zero, every
    normalisation divides zero by zero, and every similarity, every feature
    and the score are not-a-number - whatever the mask and the weights,
    provided there is at least one layer, filter, kernel, scoring weight
    and term. *)
Theorem padding_pair_scores_nan (cfg : Config) (P : Params)
  (layers : list ConvLayer) (q d : list nat) (mu sigma : Vec)
  (mask : Mat) (q_weights : Vec) :
  layers <> [] -> mu <> [] -> sigma <> [] -> W2 P <> [] ->
  q <> [] -> d <> [] -> q_weights <> [] ->
  mask <> [] -> Forall (fun m_row => m_row <> []) mask ->
  Float32.in_table (embeddings P) [q] && Float32.in_table (embeddings P) [d] = true ->
  Forall (fun i => Forall is_zero (nth i (embeddings P) [])) q ->
  Forall (fun i => Forall is_zero (nth i (embeddings P) [])) d ->
  Forall (fun l =>
            Forall is_zero (bias (conv_filter P (q_scope l)))
            /\ combine (kernel (conv_filter P (q_scope l)))
                       (bias (conv_filter P (q_scope l))) <> []
            /\ Forall is_zero (bias (conv_filter P (d_scope l)))
            /\ combine (kernel (conv_filter P (d_scope l)))
                       (bias (conv_filter P (d_scope l))) <> [])
         layers ->
  Forall (Forall (Forall (fun s => s = Float32.NaN)))
         (Float32.fconv_simis cfg P layers q d)
  /\ Float32.fconv_feats mu sigma (Float32.fconv_simis cfg P layers q d)
                         mask q_weights <> []
  /\ Forall (fun feat => feat = Float32.NaN)
            (Float32.fconv_feats mu sigma (Float32.fconv_simis cfg P layers q d)
                                 mask q_weights)
  /\ Float32.ftanh
       (Float32.fconv_lo P
          (Float32.fconv_feats mu sigma (Float32.fconv_simis cfg P layers q d)
                               mask q_weights))
     = Float32.NaN
  /\ option_map Float32.ff_o
       (Float32.fconv_model cfg P layers [q] [d] [mask] [q_weights] mu sigma)
     = Some [Float32.NaN].
Proof.
  intros Hl Hmu Hsigma HW Hq Hd Hqw Hmask Hrows Htable Hzq Hzd Hf.
  assert (Hrow : forall (f : ConvFilter) (sz : nat) (ids : list nat),
            ids <> [] ->
            Forall (fun i => Forall is_zero (nth i (embeddings P) [])) ids ->
            Forall is_zero (bias f) -> combine (kernel f) (bias f) <> [] ->
            map Float32.fnormalize
                (conv1d f sz (embedding_size cfg)
                        (embedding_lookup (embeddings P) ids)) <> []
            /\ Forall nan_row
                 (map Float32.fnormalize
                      (conv1d f sz (embedding_size cfg)
                              (embedding_lookup (embeddings P) ids)))).
  { intros f sz ids Hids Hz Hb Hk.
    assert (Hx : Forall (Forall is_zero) (embedding_lookup (embeddings P) ids)).
    { unfold embedding_lookup. apply Forall_forall. intros r Hr.
      apply in_map_iff in Hr. destruct Hr as (i & <- & Hi).
      rewrite Forall_forall in Hz. now apply Hz. }
    pose proof (conv1d_zeros f sz (embedding_size cfg) _ Hx Hb) as Hc.
    destruct (conv1d_same_padding f sz (embedding_size cfg)
                (embedding_lookup (embeddings P) ids)) as (Hlen & _ & Hok).
    split.
    - intros E. apply (f_equal (@length _)) in E. rewrite length_map, Hlen in E.
      unfold embedding_lookup in E. rewrite length_map in E.
      destruct ids; [now destruct Hids | discriminate E].
    - apply Forall_forall. intros r Hr. apply in_map_iff in Hr.
      destruct Hr as (row & <- & Hin).
      rewrite Forall_forall in Hc, Hok.
      apply fnormalize_nan_row; [ | now apply Hc].
      destruct (Hok row Hin) as (Hrl & _).
      rewrite <- length_combine in Hrl.
      intros ->. simpl in Hrl. destruct (combine _ _); [now destruct Hk | discriminate]. }
  assert (Hsim : Forall (fun sim =>
                           Forall (fun row => row <> []
                                              /\ Forall (fun s => s = Float32.NaN) row)
                                  sim
                           /\ sim <> [])
                        (Float32.fconv_simis cfg P layers q d)).
  { unfold Float32.fconv_simis. apply Forall_forall. intros sim Hs.
    apply in_flat_map in Hs. destruct Hs as (nq & Hnq & Hs).
    apply in_map_iff in Hs. destruct Hs as (nd & <- & Hnd).
    apply in_map_iff in Hnq. destruct Hnq as (cq & <- & Hcq).
    apply in_map_iff in Hcq. destruct Hcq as (lq & <- & Hlq).
    apply in_map_iff in Hnd. destruct Hnd as (cd & <- & Hcd).
    apply in_map_iff in Hcd. destruct Hcd as (ld & <- & Hld).
    rewrite Forall_forall in Hf.
    destruct (Hf lq Hlq) as (Hbq & Hkq & _ & _).
    destruct (Hf ld Hld) as (_ & _ & Hbd & Hkd).
    destruct (Hrow (conv_filter P (q_scope lq)) (size lq) q Hq Hzq Hbq Hkq)
      as (Hqne & Hqn).
    destruct (Hrow (conv_filter P (d_scope ld)) (size ld) d Hd Hzd Hbd Hkd)
      as (Hdne & Hdn).
    assert (Hdrows : Forall (fun r : Float32.FVec => r <> [])
                       (map Float32.fnormalize
                            (conv1d (conv_filter P (d_scope ld)) (size ld)
                                    (embedding_size cfg)
                                    (embedding_lookup (embeddings P) d))))
      by (eapply Forall_impl; [ | exact Hdn]; now intros r (Hr & _)).
    pose proof (fmatmul_nt_nan _ _ Hqn Hdrows) as Hm. split.
    - eapply Forall_impl; [ | exact Hm]. intros row (Hrl & Hnan).
      split; [ | exact Hnan]. intros ->. simpl in Hrl.
      symmetry in Hrl. apply length_zero_iff_nil in Hrl. contradiction.
    - unfold Float32.fmatmul_nt. intros E. apply map_eq_nil in E. contradiction. }
  assert (Hfeat : forall sim k,
            In sim (Float32.fconv_simis cfg P layers q d) ->
            Float32.fsoft_tf Float32.flog1p sim mask q_weights (fst k) (snd k)
            = Float32.NaN).
  { intros sim k Hin. rewrite Forall_forall in Hsim.
    destruct (Hsim sim Hin) as (Hrs & Hne).
    destruct sim as [|s0 sim']; [now destruct Hne | ].
    destruct mask as [|m0 mask']; [now destruct Hmask | ].
    destruct q_weights as [|w0 qw']; [now destruct Hqw | ].
    inversion Hrs as [|? ? (Hs0 & Hnan) _]; subst.
    inversion Hrows; subst.
    eapply fsoft_tf_nan; try reflexivity; assumption. }
  assert (Hall : Forall (fun feat => feat = Float32.NaN)
                   (Float32.fconv_feats mu sigma
                      (Float32.fconv_simis cfg P layers q d) mask q_weights)).
  { unfold Float32.fconv_feats. apply Forall_concat. apply Forall_forall.
    intros feats Hfe. apply in_map_iff in Hfe. destruct Hfe as (sim & <- & Hin).
    unfold Float32.fkernel_pooling. apply Forall_forall. intros y Hy.
    apply in_map_iff in Hy. destruct Hy as (k & <- & _). now apply Hfeat. }
  assert (Hne : Float32.fconv_feats mu sigma
                  (Float32.fconv_simis cfg P layers q d) mask q_weights <> []).
  { intros E. apply (f_equal (@length _)) in E.
    rewrite Float32.fconv_feats_length, Float32.fconv_simis_length in E.
    simpl in E.
    destruct layers; [now destruct Hl | ]. destruct mu; [now destruct Hmu | ].
    destruct sigma; [now destruct Hsigma | ]. simpl in E. discriminate E. }
  split.
  { eapply Forall_impl; [ | exact Hsim]. intros sim (Hrs & _).
    eapply Forall_impl; [ | exact Hrs]. now intros row (_ & Hnan). }
  split; [exact Hne | ]. split; [exact Hall | ].
  assert (Hscore : Float32.ftanh
                     (Float32.fconv_lo P
                        (Float32.fconv_feats mu sigma
                           (Float32.fconv_simis cfg P layers q d) mask q_weights))
                   = Float32.NaN).
  { unfold Float32.fconv_lo.
    rewrite fdot_nan; [reflexivity | split; assumption | ].
    destruct (W2 P); [now destruct HW | discriminate]. }
  split; [exact Hscore | ].
  unfold Float32.fconv_model. rewrite Htable.
  cbn [option_map Float32.ff_o map4 map]. now rewrite Hscore.
Qed.

Lemma padding_pair_scores_nan_sample :
  (conv_layers_built <> [] /\ [1; 0] <> [] /\ [1e-3; 1] <> []
   /\ W2 Float32.padded_params <> []
   /\ Forall (fun i => Forall is_zero (nth i (embeddings Float32.padded_params) []))
             [0%nat])
  /\ option_map Float32.ff_o
       (Float32.fconv_model sample_cfg Float32.padded_params conv_layers_built
          [[0%nat]] [[0%nat]] [[[0]]] [[0]] [1; 0] [1e-3; 1])
     = Some [Float32.NaN].
Proof.
  assert (H1 : conv_layers_built <> []) by discriminate.
  assert (H2 : [1; 0] <> []) by discriminate.
  assert (H3 : [1e-3; 1] <> []) by discriminate.
  assert (H4 : W2 Float32.padded_params <> []) by discriminate.
  assert (H5 : [0%nat] <> []) by discriminate.
  assert (H6 : [0] <> []) by discriminate.
  assert (H7 : [[0]] <> []) by discriminate.
  assert (H8 : Forall (fun m_row : Vec => m_row <> []) [[0]])
    by (constructor; [discriminate | constructor]).
  assert (H9 : Forall (fun i => Forall is_zero
                                  (nth i (embeddings Float32.padded_params) []))
                 [0%nat])
    by (constructor; [constructor; [reflexivity | constructor] | constructor]).
  assert (H10 : Forall (fun l =>
                  Forall is_zero (bias (conv_filter Float32.padded_params (q_scope l)))
                  /\ combine (kernel (conv_filter Float32.padded_params (q_scope l)))
                             (bias (conv_filter Float32.padded_params (q_scope l))) <> []
                  /\ Forall is_zero (bias (conv_filter Float32.padded_params (d_scope l)))
                  /\ combine (kernel (conv_filter Float32.padded_params (d_scope l)))
                             (bias (conv_filter Float32.padded_params (d_scope l))) <> [])
                 conv_layers_built).
  { apply Forall_forall. intros l Hin. simpl in Hin.
    destruct Hin as [<- | [<- | [<- | []]]];
      (split; [ | split; [ | split]]);
      first [ discriminate
            | constructor; [reflexivity | constructor] ]. }
  split; [repeat split; assumption | ].
  exact (proj2 (proj2 (proj2 (proj2
           (padding_pair_scores_nan sample_cfg Float32.padded_params
              conv_layers_built [0%nat] [0%nat] [1; 0] [1e-3; 1] [[0]] [0]
              H1 H2 H3 H4 H5 H5 H6 H7 H8 eq_refl H9 H9 H10))))).
Defined.

(* --------------------------------------------------------------------- *)
(** *** Batches *)

Lemma map4_app {A B C D E : Type} (f : A -> B -> C -> D -> E)
  la1 la2 lb1 lb2 lc1 lc2 ld1 ld2 :
  length lb1 = length la1 -> length lc1 = length la1 -> length ld1 = length la1 ->
  map4 f (la1 ++ la2) (lb1 ++ lb2) (lc1 ++ lc2) (ld1 ++ ld2)
  = map4 f la1 lb1 lc1 ld1 ++ map4 f la2 lb2 lc2 ld2.
Proof.
  revert lb1 lc1 ld1.
  induction la1 as [|a la1 IH]; intros [|b lb1] [|c lc1] [|d ld1]; simpl;
    try discriminate; intros Hb Hc Hd; [reflexivity | ].
  f_equal. apply IH; congruence.
Qed.

(** X9. The score of a pair does not depend on the rest of its batch: the
    scores of two batches fed one after the other in a single batch are
    the scores of the first followed by the scores of the second. *)
Theorem scores_batchwise (cfg : Config) (P : Params) (g : ScoreGraph)
  (q1 q2 d1 d2 : list (list nat)) (m1 m2 : list Mat) (w1 w2 : list Vec)
  (mu sigma : Vec) :
  length d1 = length q1 -> length m1 = length q1 -> length w1 = length q1 ->
  scores cfg P g (q1 ++ q2) (d1 ++ d2) (m1 ++ m2) (w1 ++ w2) mu sigma
  = scores cfg P g q1 d1 m1 w1 mu sigma ++ scores cfg P g q2 d2 m2 w2 mu sigma.
Proof.
  intros Hd Hm Hw. destruct g as [|layers]; simpl;
    rewrite map4_app by assumption; now rewrite !map_app.
Qed.

Lemma scores_batchwise_sample :
  length [[1%nat]] = length [[2%nat]]
  /\ length [[[1]]] = length [[2%nat]]
  /\ length [[1]] = length [[2%nat]]
  /\ scores sample_cfg sample_params Unigram ([[2%nat]] ++ [[1%nat]])
       ([[1%nat]] ++ [[0%nat]]) ([[[1]]] ++ [[[0]]]) ([[1]] ++ [[0]])
       [1; 0] [1e-3; 1]
     = scores sample_cfg sample_params Unigram [[2%nat]] [[1%nat]] [[[1]]] [[1]]
         [1; 0] [1e-3; 1]
       ++ scores sample_cfg sample_params Unigram [[1%nat]] [[0%nat]] [[[0]]] [[0]]
            [1; 0] [1e-3; 1].
Proof.
  split; [reflexivity | ]. split; [reflexivity | ]. split; [reflexivity | ].
  exact (scores_batchwise sample_cfg sample_params Unigram
           [[2%nat]] [[1%nat]] [[1%nat]] [[0%nat]] [[[1]]] [[[0]]] [[1]] [[0]]
           [1; 0] [1e-3; 1] eq_refl eq_refl eq_refl).
Defined.

(* --------------------------------------------------------------------- *)
(** *** The loss of a batch *)

Definition open_unit (s : R) : Prop := -1 < s < 1.

Definition separated (pn : R * R) : Prop := 1 <= fst pn - snd pn.

Lemma hinge_nonneg (p n : R) : 0 <= hinge p n.
Proof. unfold hinge. apply Rmax_l. Qed.

Lemma hinge_lt_3 (p n : R) : open_unit p -> open_unit n -> hinge p n < 3.
Proof.
  unfold open_unit, hinge, Rmax. intros Hp Hn.
  destruct (Rle_dec 0 (1 - p + n)); lra.
Qed.

Lemma hinge_sum_bounds (o_pos o_neg : Vec) :
  Forall open_unit o_pos -> Forall open_unit o_neg ->
  combine o_pos o_neg <> [] ->
  0 <= reduce_sum (map (fun pn => hinge (fst pn) (snd pn)) (combine o_pos o_neg))
    < 3 * INR (length (combine o_pos o_neg)).
Proof.
  intros Hp. revert o_neg. induction Hp as [|p o_pos Hp0 Hp IH]; intros o_neg Hn Hne.
  - now destruct Hne.
  - destruct Hn as [|n o_neg Hn0 Hn]; [now destruct Hne | ].
    change (combine (p :: o_pos) (n :: o_neg)) with ((p, n) :: combine o_pos o_neg).
    cbn [map reduce_sum fold_right length fst snd]. rewrite S_INR.
    pose proof (hinge_nonneg p n). pose proof (hinge_lt_3 p n Hp0 Hn0).
    destruct (combine o_pos o_neg) as [|pn rest] eqn:Hc.
    + simpl. lra.
    + assert (Hne' : pn :: rest <> []) by discriminate.
      rewrite <- Hc in Hne'. specialize (IH o_neg Hn Hne').
      rewrite Hc in IH. unfold reduce_sum in *. lra.
Qed.



Lemma nonneg_sum_zero (v : Vec) :
  Forall (fun x => 0 <= x) v -> (reduce_sum v = 0 <-> Forall is_zero v).
Proof.
  induction 1 as [|x v Hx Hv IH]; simpl.
  - split; [constructor | reflexivity].
  - pose proof (reduce_sum_nonneg v Hv) as Hs. unfold reduce_sum in *. split.
    + intros H. assert (x = 0) by lra. assert (Hv0 : fold_right Rplus 0 v = 0) by lra.
      constructor; [assumption | now apply IH].
    + intros H. inversion H as [|? ? Hx0 Hv0]; subst.
      unfold is_zero in Hx0. apply IH in Hv0. lra.
Qed.

(** X11. On a non-empty batch the training loss is zero exactly when every
    positive score exceeds its negative score by at least the margin 1. *)
Theorem loss_zero_iff (o_pos o_neg : Vec) :
  combine o_pos o_neg <> [] ->
  (loss o_pos o_neg = 0 <-> Forall separated (combine o_pos o_neg)).
Proof.
  intros Hne. unfold loss, reduce_mean. rewrite length_map.
  set (pairs := combine o_pos o_neg) in *.
  assert (Hlen : 0 < INR (length pairs)).
  { apply lt_0_INR. destruct pairs; [now destruct Hne | simpl; lia]. }
  assert (Hnn : Forall (fun x => 0 <= x)
                  (map (fun pn => hinge (fst pn) (snd pn)) pairs)).
  { apply Forall_forall. intros x Hx. apply in_map_iff in Hx.
    destruct Hx as (pn & <- & _). apply hinge_nonneg. }
  assert (Hz : reduce_sum (map (fun pn => hinge (fst pn) (snd pn)) pairs)
               / INR (length pairs) = 0
               <-> reduce_sum (map (fun pn => hinge (fst pn) (snd pn)) pairs) = 0).
  { split; intros H.
    - apply Rmult_eq_reg_r with (/ INR (length pairs)).
      + unfold Rdiv in H. rewrite H. lra.
      + apply Rinv_neq_0_compat. lra.
    - unfold Rdiv. rewrite H. lra. }
  rewrite Hz, (nonneg_sum_zero _ Hnn). rewrite Forall_map.
  split; intros H; (eapply Forall_impl; [ | exact H]); intros [p n]; simpl;
    unfold is_zero, separated; simpl; apply hinge_zero_iff.
Qed.

Lemma loss_zero_iff_sample :
  combine [0.9] [-0.2] <> []
  /\ (loss [0.9] [-0.2] = 0 <-> Forall separated (combine [0.9] [-0.2])).
Proof.
  assert (H : combine [0.9] [-0.2] <> []) by discriminate.
  split; [exact H | exact (loss_zero_iff _ _ H)].
Defined.

(* --------------------------------------------------------------------- *)
(** *** The graphs of [train] and [test] *)

(** The variables a graph construction has declared. *)
Definition declared {A : Type} (r : option (A * Store)) : option (list string) :=
  option_map (fun x => variables (snd x)) r.

(** X12. In either mode, building the inference graph succeeds, declares
    exactly the variables the training graph declares (so a checkpoint
    written by train names the variables test restores), and its scoring
    pass is the positive pass of the training graph. *)
Theorem test_graph_matches_train_graph (conv : bool) :
  declared (test_graph conv empty_store) = declared (train_graph conv empty_store)
  /\ declared (test_graph conv empty_store) <> None
  /\ option_map fst (test_graph conv empty_store)
     = option_map (fun x => fst (fst x)) (train_graph conv empty_store).
Proof.
  destruct conv.
  - rewrite test_graph_conv, train_graph_conv. simpl.
    repeat split; try reflexivity. discriminate.
  - repeat split; try reflexivity. discriminate.
Qed.

End GraphFacts.

(* ===================================================================== *)
(** ** Further properties of [train] and [test] *)
(* ===================================================================== *)

Module RunFacts.

Import Tensor.
Import VarScope.
Import Graph.
Import Paths.
Import Run.
Import GraphFacts.
Local Open Scope R_scope.
Local Open Scope run_scope.

(** [m] leaves the component [proj] of the session as it found it. *)
Definition preserves {X A : Type} (proj : Sess -> X) (m : M A) : Prop :=
  forall s r s', m s = (r, s') -> proj s' = proj s.

(** The events of inference. *)
Definition inference_event (e : Event) : Prop :=
  match e with
  | InitAll | Restore _ | Score => True
  | _ => False
  end.

(** The events of the training loop and of the final save. *)
Definition step_event (e : Event) : Prop :=
  match e with
  | TrainStep | ValLoss | Save _ _ => True
  | _ => False
  end.

(** The event that gives the training session its parameters. *)
Definition start_event (env : Env) (checkpoint_dir : option string)
  (load_model : bool) (e : Event) : Prop :=
  if load_model then
    exists dir ckpt,
      checkpoint_dir = Some dir
      /\ get_checkpoint_state env dir = Some ckpt
      /\ e = Restore (model_checkpoint_path ckpt)
  else e = InitAll.

(** A batch the training loop skips (line 365). *)
Definition short_batch (cfg : Config) (X : PairBatch) : Prop :=
  length (idf X) <> batch_size cfg.

(** Variations of the sample environment and configuration: a file
    system whose every file is empty, batches of three, no evaluation
    frequency, no batch size. *)
Definition empty_files_env : Env :=
  {| mus := mus sample_env;
     sigmas := sigmas sample_env;
     gen_mask := gen_mask sample_env;
     re_pad_ids := re_pad_ids sample_env;
     re_pad_weights := re_pad_weights sample_env;
     pairwise_reader := pairwise_reader sample_env;
     val_pairwise_reader := val_pairwise_reader sample_env;
     pointwise_generate := pointwise_generate sample_env;
     read_file := fun _ => Some [];
     can_write := can_write sample_env;
     get_checkpoint_state := get_checkpoint_state sample_env;
     checkpoint_at := checkpoint_at sample_env;
     initial_values := initial_values sample_env;
     minimize := minimize sample_env;
     maximum_of_nan := maximum_of_nan sample_env;
     format_score := format_score sample_env |}.

Definition wide_cfg : Config :=
  {| n_bins := 2; vocabulary_size := 2; embedding_size := 1;
     batch_size := 3; max_q_len := 1; max_d_len := 1;
     max_epochs := 2; eval_frequency := 10; num_filters := 1 |}.


Definition zero_batch_cfg : Config :=
  {| n_bins := 2; vocabulary_size := 2; embedding_size := 1;
     batch_size := 0; max_q_len := 1; max_d_len := 1;
     max_epochs := 2; eval_frequency := 10; num_filters := 1 |}.

(** One epoch, with a validation pass after the first batch. *)
Definition eval_cfg : Config :=
  {| n_bins := 2; vocabulary_size := 2; embedding_size := 1;
     batch_size := 2; max_q_len := 1; max_d_len := 1;
     max_epochs := 1; eval_frequency := 2; num_filters := 1 |}.

(** The session at the end of the training run under [eval_cfg]. *)
Definition validated_session : Sess :=
  {| params := sample_params;
     trace := [InitAll; TrainStep; ValLoss;
               Save "ckpt/data.ckpt" sample_params;
               Save "ckpt/final_data.ckpt" sample_params];
     written := [] |}.

Definition value_of (r : Result R * Sess) : R :=
  match fst r with
  | Ok v => v
  | _ => 0
  end.

Definition first_locals : Locals :=
  {| step := 0; smallest_val_loss := 100000; train_loss := 0 |}.

(** One epoch of the sample training run. *)
Definition sample_epoch : Result Locals * Sess :=
  train_epoch sample_env sample_cfg (Unigram, Unigram)
    (Some "train.txt"%string) (Some "val.txt"%string) (Some "ckpt"%string)
    first_locals fresh_session.

Definition locals_of (r : Result Locals * Sess) : Locals :=
  match fst r with
  | Ok loc => loc
  | _ => first_locals
  end.

(* --------------------------------------------------------------------- *)
(** *** Invariance *)

Section Preserves.

Context {X : Type}.
Variable proj : Sess -> X.

Lemma preserves_ret {A : Type} (a : A) : preserves proj (ret a).
Proof. intros s r s' H. now injection H as _ <-. Qed.

Lemma preserves_raise {A : Type} (e : Exn) : preserves proj (@raise A e).
Proof. intros s r s' H. now injection H as _ <-. Qed.

Lemma preserves_get_params : preserves proj get_params.
Proof. intros s r s' H. now injection H as _ <-. Qed.

Lemma preserves_bind {A B : Type} (m : M A) (k : A -> M B) :
  preserves proj m -> (forall a, preserves proj (k a)) -> preserves proj (bind m k).
Proof.
  intros Hm Hk s r s' H. unfold bind in H.
  destruct (m s) as [[a | e | c] s1] eqn:Hms.
  - rewrite (Hk a _ _ _ H). exact (Hm _ _ _ Hms).
  - injection H as _ <-. exact (Hm _ _ _ Hms).
  - injection H as _ <-. exact (Hm _ _ _ Hms).
Qed.

Lemma preserves_for_each {A L : Type} (body : L -> A -> M L) (l : list A) (acc : L) :
  (forall acc a, preserves proj (body acc a)) -> preserves proj (for_each body l acc).
Proof.
  intros Hb. revert acc. induction l as [|a l IH]; intros acc; simpl.
  - apply preserves_ret.
  - apply preserves_bind; [apply Hb | intros; apply IH].
Qed.

Lemma preserves_repeat_m {L : Type} (n : nat) (body : L -> M L) (acc : L) :
  (forall acc, preserves proj (body acc)) -> preserves proj (repeat_m n body acc).
Proof.
  intros Hb. revert acc. induction n as [|n IH]; intros acc; simpl.
  - apply preserves_ret.
  - apply preserves_bind; [apply Hb | intros; apply IH].
Qed.

Lemma preserves_open_read env path : preserves proj (open_read env path).
Proof.
  unfold open_read. destruct path as [p|]; [ | apply preserves_raise].
  destruct (read_file env p); [apply preserves_ret | apply preserves_raise].
Qed.

End Preserves.

Lemma preserves_log_params (e : Event) : preserves params (log e).
Proof. intros s r s' H. now injection H as _ <-. Qed.

Lemma preserves_log_written (e : Event) : preserves written (log e).
Proof. intros s r s' H. now injection H as _ <-. Qed.

Lemma preserves_write_params (text : string) : preserves params (write text).
Proof. intros s r s' H. now injection H as _ <-. Qed.

Section Facts.

Variable env : Env.
Variable cfg : Config.

Lemma run_loss_preserves {X : Type} (proj : Sess -> X) tg f :
  preserves proj (log ValLoss) -> preserves proj (run_loss env cfg tg f).
Proof.
  intros Hl. unfold run_loss. destruct (pair_feed_fits env cfg f);
    [ | apply preserves_raise].
  apply preserves_bind; [apply preserves_get_params | ]. intros P.
  apply preserves_bind; [exact Hl | ]. intros _. apply preserves_ret.
Qed.

Lemma validation_pass_preserves {X : Type} (proj : Sess -> X) tg path :
  preserves proj (log ValLoss) -> preserves proj (validation_pass env cfg tg path).
Proof.
  intros Hl. unfold validation_pass.
  apply preserves_bind; [apply preserves_open_read | ]. intros stream.
  apply preserves_bind.
  - apply preserves_for_each. intros acc Xv.
    apply preserves_bind; [now apply run_loss_preserves | ].
    intros; apply preserves_ret.
  - intros [total [|n]]; [apply preserves_raise | apply preserves_ret].
Qed.

(** X13. A validation pass only evaluates the loss: however it ends, the
    parameters of the session and the output written so far are what they
    were before it, and the only events it adds are loss evaluations. *)
Theorem validation_is_read_only (tg : ScoreGraph * ScoreGraph)
  (val_pair_file_path : option string) (s : Sess) :
  let s' := snd (validation_pass env cfg tg val_pair_file_path s) in
  params s' = params s
  /\ written s' = written s
  /\ exists tr, trace s' = trace s ++ tr
                /\ Forall (fun e => e = ValLoss) tr.
Proof.
  intros s'. subst s'.
  destruct (validation_pass env cfg tg val_pair_file_path s) as [r s'] eqn:H.
  simpl. split; [ | split].
  - revert H. apply validation_pass_preserves. apply preserves_log_params.
  - revert H. apply validation_pass_preserves. apply preserves_log_written.
  - revert H. apply emits_validation_pass. reflexivity.
Qed.

(** X14. With an empty validation stream the mean validation loss divides by
    zero: the pass raises [ZeroDivisionError] and leaves the session as it
    found it. *)
Theorem validation_of_nothing (tg : ScoreGraph * ScoreGraph) (p : string)
  (lines : list string) (s : Sess) :
  read_file env p = Some lines ->
  val_pairwise_reader env lines (batch_size cfg) = [] ->
  validation_pass env cfg tg (Some p) s = (Raise ZeroDivisionError, s).
Proof.
  intros Hread Hnone. unfold validation_pass, open_read.
  rewrite Hread. unfold bind at 1. unfold ret at 1. now rewrite Hnone.
Qed.

(* --------------------------------------------------------------------- *)
(** *** The training loop *)

Lemma train_batch_locals tg val_path dir loc Xb s loc' s' :
  train_batch env cfg tg val_path dir loc Xb s = (Ok loc', s') ->
  step loc' = S (step loc)
  /\ smallest_val_loss loc' <= smallest_val_loss loc.
Proof.
  unfold train_batch. destruct (negb _).
  { intros H. injection H as <- _. simpl. split; [reflexivity | lra]. }
  intros H. apply bind_ok in H. destruct H as (l & s1 & _ & H).
  destruct (Z.eqb (eval_frequency cfg) 0); [discriminate H | ].
  destruct (Z.eqb _ 0).
  2:{ injection H as <- _. simpl. split; [reflexivity | lra]. }
  apply bind_ok in H. destruct H as (v & s2 & _ & H).
  destruct (Rlt_dec v (smallest_val_loss loc)) as [Hlt | Hge].
  - apply bind_ok in H. destruct H as (path & s3 & _ & H).
    apply bind_ok in H. destruct H as ([] & s4 & _ & H).
    injection H as <- _. simpl. split; [reflexivity | lra].
  - injection H as <- _. simpl. split; [reflexivity | lra].
Qed.

Lemma train_batches_locals tg val_path dir batches loc s loc' s' :
  for_each (train_batch env cfg tg val_path dir) batches loc s = (Ok loc', s') ->
  step loc' = (step loc + length batches)%nat
  /\ smallest_val_loss loc' <= smallest_val_loss loc.
Proof.
  revert loc s. induction batches as [|Xb batches IH]; intros loc s H; simpl in H.
  - injection H as <- _. simpl. split; [lia | lra].
  - apply bind_ok in H. destruct H as (loc1 & s1 & H1 & H).
    apply train_batch_locals in H1. apply IH in H. simpl.
    destruct H1 as (E1 & L1), H as (E2 & L2). split; [lia | lra].
Qed.

(** X15. The step counter counts every batch the reader yields, the skipped
    short ones included: after an epoch that runs to its end it has grown
    by the number of batches of the training stream. *)
Theorem epoch_counts_every_batch (tg : ScoreGraph * ScoreGraph)
  (train_path val_path checkpoint_dir : option string)
  (loc loc' : Locals) (s s' : Sess) :
  train_epoch env cfg tg train_path val_path checkpoint_dir loc s = (Ok loc', s') ->
  exists p lines,
    train_path = Some p
    /\ read_file env p = Some lines
    /\ step loc'
       = (step loc + length (pairwise_reader env lines (batch_size cfg)))%nat.
Proof.
  unfold train_epoch, open_read. intros H.
  destruct train_path as [p|]; [ | discriminate H].
  destruct (read_file env p) as [lines|] eqn:Hread; [ | discriminate H].
  unfold bind at 1 in H. unfold ret at 1 in H.
  apply train_batches_locals in H. exists p, lines. tauto.
Qed.

(** X16. The smallest validation loss kept by the loop never grows: after an
    epoch that runs to its end it is at most what it was before. *)
Theorem epoch_best_loss_never_grows (tg : ScoreGraph * ScoreGraph)
  (train_path val_path checkpoint_dir : option string)
  (loc loc' : Locals) (s s' : Sess) :
  train_epoch env cfg tg train_path val_path checkpoint_dir loc s = (Ok loc', s') ->
  smallest_val_loss loc' <= smallest_val_loss loc.
Proof.
  unfold train_epoch. intros H. apply bind_ok in H.
  destruct H as (stream & s1 & _ & H). now apply train_batches_locals in H.
Qed.

Lemma short_batches_do_nothing tg val_path dir batches loc s :
  Forall (short_batch cfg) batches ->
  for_each (train_batch env cfg tg val_path dir) batches loc s
  = (Ok {| step := step loc + length batches;
           smallest_val_loss := smallest_val_loss loc;
           train_loss := train_loss loc |}, s).
Proof.
  intros Hshort. revert loc.
  induction Hshort as [|Xb batches Hx _ IH]; intros loc; simpl.
  - rewrite Nat.add_0_r. now destruct loc.
  - unfold bind, train_batch.
    replace (negb (Nat.eqb (length (idf Xb)) (batch_size cfg))) with true
      by (symmetry; apply negb_true_iff; now apply Nat.eqb_neq).
    unfold ret at 1. rewrite IH. simpl. do 3 f_equal. lia.
Qed.

Lemma short_epoch_does_nothing tg p val_path dir lines loc s :
  read_file env p = Some lines ->
  Forall (short_batch cfg) (pairwise_reader env lines (batch_size cfg)) ->
  exists loc',
    train_epoch env cfg tg (Some p) val_path dir loc s = (Ok loc', s).
Proof.
  intros Hread Hshort. unfold train_epoch.
  rewrite (bind_step _ _ s lines s)
    by (unfold open_read; rewrite Hread; reflexivity).
  rewrite short_batches_do_nothing by exact Hshort. eexists. reflexivity.
Qed.

Lemma short_epochs_do_nothing tg p val_path dir lines n loc s :
  read_file env p = Some lines ->
  Forall (short_batch cfg) (pairwise_reader env lines (batch_size cfg)) ->
  exists loc',
    repeat_m n (train_epoch env cfg tg (Some p) val_path dir) loc s = (Ok loc', s).
Proof.
  intros Hread Hshort. revert loc.
  induction n as [|n IH]; intros loc; simpl.
  - now exists loc.
  - destruct (short_epoch_does_nothing tg p val_path dir lines loc s Hread Hshort)
      as (loc1 & H1).
    rewrite (bind_step _ _ s loc1 s H1). apply IH.
Qed.

(** X17. When every batch of the training stream is shorter than the batch
    size - a training file with fewer pairs than [batch_size], say -
    training runs to completion without a single optimizer step or
    validation, and the end-of-training checkpoint holds the freshly
    initialised parameters. *)
Theorem training_on_short_batches_only
  (p dir : string) (val_path : option string) (conv : bool)
  (lines : list string) (s0 : Sess) :
  read_file env p = Some lines ->
  Forall (short_batch cfg) (pairwise_reader env lines (batch_size cfg)) ->
  can_write env (train_final_path dir) = true ->
  train env cfg (Some p) val_path (Some dir) false conv s0
  = (Ok tt,
     {| params := initial_values env;
        trace := trace s0
                 ++ [InitAll; Save (train_final_path dir) (initial_values env)];
        written := written s0 |}).
Proof.
  intros Hread Hshort Hwrite. unfold train.
  rewrite (bind_step _ _ s0 (length lines) s0)
    by (unfold get_file_line_count, open_read; rewrite Hread; reflexivity).
  destruct (build_train_graph conv s0) as (tg & Hb).
  rewrite (bind_step _ _ s0 tg s0 Hb).
  set (s1 := {| params := initial_values env; trace := trace s0 ++ [InitAll];
                written := written s0 |}).
  rewrite (bind_step _ _ s0 tt s1) by reflexivity.
  destruct (short_epochs_do_nothing tg p val_path (Some dir) lines (max_epochs cfg)
              {| step := 0; smallest_val_loss := 100000; train_loss := 0 |} s1
              Hread Hshort) as (loc' & Hloop).
  rewrite (bind_step _ _ s1 loc' s1 Hloop).
  simpl. unfold bind at 1. unfold ret at 1. unfold saver_save.
  unfold train_final_path in Hwrite. rewrite Hwrite.
  unfold bind, get_params, log. simpl. now rewrite <- app_assoc.
Qed.


Lemma emits_train_batch_any Q tg val_path dir loc Xb :
  Q TrainStep -> Q ValLoss -> (forall p P, Q (Save p P)) ->
  emits Q (train_batch env cfg tg val_path dir loc Xb).
Proof.
  intros Ht Hv Hs. unfold train_batch. destruct (negb _); [apply emits_ret | ].
  apply emits_bind; [now apply emits_run_optimizer | ]. intros l.
  destruct (Z.eqb (eval_frequency cfg) 0); [apply emits_raise | ].
  destruct (Z.eqb _ 0); [ | apply emits_ret].
  apply emits_bind; [now apply emits_validation_pass | ]. intros v.
  destruct (Rlt_dec v (smallest_val_loss loc)); [ | apply emits_ret].
  apply emits_bind; [apply emits_dir_plus | ]. intros path.
  apply emits_bind; [apply emits_saver_save; intros; apply Hs | ].
  intros; apply emits_ret.
Qed.

Lemma train_start_first_event dir load_model s r s' :
  train_start env dir load_model s = (r, s') ->
  (is_ok r = false /\ trace s' = trace s)
  \/ exists e, start_event env dir load_model e /\ trace s' = trace s ++ [e].
Proof.
  unfold train_start, start_event. destruct load_model; simpl.
  - destruct dir as [dir|]; [ | intros H; injection H as <- <-; now left].
    destruct (get_checkpoint_state env dir) as [ckpt|] eqn:Hck;
      [ | intros H; injection H as <- <-; now left].
    destruct (String.eqb _ _); [intros H; injection H as <- <-; now left | ].
    unfold saver_restore.
    destruct (checkpoint_at env _); intros H; injection H as <- <-.
    + right. exists (Restore (model_checkpoint_path ckpt)). split; [ | reflexivity].
      now exists dir, ckpt.
    + now left.
  - intros H. injection H as <- <-. right. now exists InitAll.
Qed.

(** X19. The session's parameters are set exactly once, before anything else:
    whatever a run of train does and however it ends, either the session
    did nothing, or its first event is the initialisation (without
    [load_model]) or the restore of the checkpoint named by the checkpoint
    state of [checkpoint_dir] (with [load_model]), and every later event is
    an optimizer step, a validation loss or a save. *)
Theorem train_sets_parameters_first
  (train_path val_path checkpoint_dir : option string) (load_model conv : bool)
  (s0 : Sess) :
  exists tr : list Event,
    trace (snd (train env cfg train_path val_path checkpoint_dir load_model conv s0))
    = trace s0 ++ tr
    /\ (tr = []
        \/ exists e tr',
             tr = e :: tr'
             /\ start_event env checkpoint_dir load_model e
             /\ Forall step_event tr').
Proof.
  destruct (train env cfg train_path val_path checkpoint_dir load_model conv s0)
    as [r s] eqn:H.
  simpl. unfold train in H.
  assert (Hquiet : forall s1, trace s1 = trace s0 ->
            exists tr, trace s1 = trace s0 ++ tr
              /\ (tr = [] \/ exists e tr', tr = e :: tr'
                    /\ start_event env checkpoint_dir load_model e
                    /\ Forall step_event tr')).
  { intros s1 E. exists []. rewrite app_nil_r. auto. }
  apply bind_inv in H. destruct H as [(n & s1 & H1 & H) | (_ & r0 & H1 & _)].
  2:{ apply Hquiet. eapply emits_nothing; [ | exact H1].
      apply emits_get_file_line_count. }
  apply emits_nothing in H1; [ | apply emits_get_file_line_count].
  apply bind_inv in H. destruct H as [(tg & s2 & H2 & H) | (_ & r0 & H2 & _)].
  2:{ apply Hquiet. rewrite <- H1. eapply emits_nothing; [ | exact H2].
      apply emits_build. }
  apply emits_nothing in H2; [ | apply emits_build].
  assert (E2 : trace s2 = trace s0) by congruence. clear H1 H2.
  apply bind_inv in H. destruct H as [([] & s3 & H3 & H) | (_ & r0 & H3 & Hr0)].
  2:{ apply train_start_first_event in H3.
      destruct H3 as [(_ & E) | (e & He & E)].
      - apply Hquiet. congruence.
      - exists [e]. split; [congruence | ]. right. exists e, []. auto. }
  apply train_start_first_event in H3.
  destruct H3 as [(Hr & _) | (e & He & E3)]; [discriminate Hr | ].
  assert (Hrest : exists tr', trace s = trace s3 ++ tr' /\ Forall step_event tr').
  { revert H. apply (emits_bind step_event).
    - apply emits_repeat_m. intros loc. unfold train_epoch.
      apply emits_bind; [apply emits_open_read | ]. intros stream.
      apply emits_for_each. intros. apply emits_train_batch_any; simpl; auto.
    - intros _. apply emits_bind; [apply emits_dir_plus | ]. intros path.
      apply emits_saver_save. intros; exact I. }
  destruct Hrest as (tr' & E & F).
  exists (e :: tr'). split.
  - rewrite E, E3, E2, <- app_assoc. reflexivity.
  - right. exists e, tr'. auto.
Qed.

(* --------------------------------------------------------------------- *)
(** *** Inference *)

Lemma emits_test_start Q dir load_model :
  Q InitAll -> (forall p, Q (Restore p)) ->
  emits Q (test_start env dir load_model).
Proof.
  intros Hi Hr. unfold test_start. destruct load_model.
  - apply emits_bind; [apply emits_dir_plus | ]. intros p.
    now apply emits_saver_restore.
  - now apply emits_initialize.
Qed.

(** X20. Inference only initialises or restores, and scores: whatever a run of
    test does and however it ends, no event of it is an optimizer step, a
    validation loss or a save. *)
Theorem test_only_scores
  (test_path out_path checkpoint_dir : option string) (load_model conv : bool)
  (s0 : Sess) :
  exists tr : list Event,
    trace (snd (test env cfg test_path out_path checkpoint_dir load_model conv s0))
    = trace s0 ++ tr
    /\ Forall inference_event tr.
Proof.
  destruct (test env cfg test_path out_path checkpoint_dir load_model conv s0)
    as [r s] eqn:H.
  simpl. revert H. unfold test.
  apply emits_bind; [apply emits_get_file_line_count | ]. intros n.
  apply emits_bind; [apply emits_build | ]. intros g.
  apply emits_bind; [apply emits_open_read | ]. intros stream.
  apply emits_bind.
  { destruct out_path as [o|]; [ | apply emits_raise].
    destruct (can_write env o); [apply emits_ret | apply emits_raise]. }
  intros _. apply emits_bind; [apply emits_test_start; simpl; auto | ].
  intros _. apply emits_bind; [ | intros; apply emits_ret].
  destruct (batch_size cfg); [apply emits_raise | ].
  apply emits_repeat_m. intros acc. apply emits_test_batch. exact I.
Qed.

Lemma test_ok_inv test_path out_path dir load_model conv s0 s :
  test env cfg test_path out_path dir load_model conv s0 = (Ok tt, s) ->
  exists p lines g s1 rest,
    test_path = Some p
    /\ read_file env p = Some lines
    /\ batch_size cfg <> O
    /\ test_start env dir load_model s0 = (Ok tt, s1)
    /\ repeat_m (ceil_div (length lines) (batch_size cfg))
                (test_batch env cfg g) lines s1 = (Ok rest, s).
Proof.
  intros H. unfold test in H.
  apply bind_ok in H. destruct H as (n & s1 & H1 & H).
  apply bind_ok in H. destruct H as (g & s2 & H2 & H).
  apply bind_ok in H. destruct H as (stream & s3 & H3 & H).
  apply bind_ok in H. destruct H as ([] & s4 & H4 & H).
  apply bind_ok in H. destruct H as ([] & s5 & H5 & H).
  apply bind_ok in H. destruct H as (rest & s6 & H6 & H).
  injection H as <-.
  unfold get_file_line_count, open_read in H1.
  destruct test_path as [p|]; [ | discriminate H1].
  destruct (read_file env p) as [lines|] eqn:Hread; [ | discriminate H1].
  injection H1 as <- <-.
  assert (s2 = s0) as ->.
  { unfold build in H2. destruct (test_graph conv empty_store) as [[g' st]|];
      [now injection H2 as _ <- | discriminate H2]. }
  assert (stream = lines /\ s3 = s0) as [-> ->].
  { unfold open_read in H3. rewrite Hread in H3. now injection H3 as <- <-. }
  assert (s4 = s0) as ->.
  { destruct out_path as [o|]; [ | discriminate H4].
    destruct (can_write env o); [now injection H4 as <- | discriminate H4]. }
  destruct (batch_size cfg) as [|bs] eqn:Hbs; [discriminate H6 | ].
  exists p, lines, g, s5, rest. repeat split; auto.
Qed.

Lemma test_start_params dir load_model s0 s1 :
  test_start env dir load_model s0 = (Ok tt, s1) ->
  if load_model
  then exists d, dir = Some d
                 /\ checkpoint_at env (test_restore_path d) = Some (params s1)
  else params s1 = initial_values env.
Proof.
  unfold test_start, dir_plus, saver_restore, test_restore_path.
  destruct load_model.
  - destruct dir as [d|]; [ | discriminate].
    unfold bind at 1. unfold ret at 1.
    destruct (checkpoint_at env (d ++ "data.ckpt")) as [P|] eqn:Hck;
      [ | discriminate].
    intros H. injection H as <-. exists d. now rewrite Hck.
  - intros H. now injection H as <-.
Qed.

Lemma test_batch_preserves_params g stream :
  preserves params (test_batch env cfg g stream).
Proof.
  unfold test_batch.
  destruct (pointwise_generate env stream (batch_size cfg)) as [[Xb rest]|];
    [ | apply preserves_raise].
  apply preserves_bind.
  - unfold run_scores. destruct (point_feed_fits _ _ _ _ _ _);
      [ | apply preserves_raise].
    apply preserves_bind; [apply preserves_get_params | ]. intros P.
    destruct (Float32.fscores _ _ _ _ _ _ _ _ _ _); [ | apply preserves_raise].
    apply preserves_bind; [apply preserves_log_params | ].
    intros; apply preserves_ret.
  - intros sc. apply preserves_bind; [ | intros; apply preserves_ret].
    apply preserves_for_each. intros. apply preserves_write_params.
Qed.

(** X21. Scoring never touches the parameters: when test runs to completion
    the session holds exactly the parameters of the checkpoint
    [checkpoint_dir + 'data.ckpt'] (with [load_model]) or the initial values
    (without). *)
Theorem test_keeps_parameters
  (test_path out_path checkpoint_dir : option string) (load_model conv : bool)
  (s0 s : Sess) :
  test env cfg test_path out_path checkpoint_dir load_model conv s0 = (Ok tt, s) ->
  if load_model
  then exists dir, checkpoint_dir = Some dir
                   /\ checkpoint_at env (test_restore_path dir) = Some (params s)
  else params s = initial_values env.
Proof.
  intros H. apply test_ok_inv in H.
  destruct H as (p & lines & g & s1 & rest & _ & _ & _ & Hstart & Hloop).
  apply test_start_params in Hstart.
  assert (E : params s = params s1).
  { revert Hloop. apply preserves_repeat_m. intros.
    apply test_batch_preserves_params. }
  now rewrite E.
Qed.

Lemma scores_in_range P g fq fd (mask : list Mat) (fw : list Vec) mu sigma :
  Forall open_unit (scores cfg P g fq fd mask fw mu sigma).
Proof. destruct g; simpl; apply tanh_all_in_range. Qed.




Lemma ceil_div_tight (n m : nat) :
  (0 < m)%nat ->
  (ceil_div n m * m < n + m)%nat
  /\ (ceil_div n m * m = n <-> n mod m = 0)%nat.
Proof.
  intros Hm. unfold ceil_div.
  pose proof (Nat.div_mod_eq (n + m - 1) m) as E.
  pose proof (Nat.mod_upper_bound (n + m - 1) m) as U.
  pose proof (Nat.div_mod_eq n m) as En.
  pose proof (Nat.mod_upper_bound n m) as Un.
  set (k := ((n + m - 1) / m)%nat) in *. set (r := ((n + m - 1) mod m)%nat) in *.
  set (a := (n / m)%nat) in *. set (b := (n mod m)%nat) in *.
  assert (Ub : (b < m)%nat) by (apply Un; lia).
  assert (Ur : (r < m)%nat) by (apply U; lia).
  split; [nia | ]. split; intros H.
  - assert (Hk : (m * k = m * a + b)%nat) by lia.
    assert (k = a) by nia. subst k. lia.
  - assert (Hk : (m * a + m - 1 = m * k + r)%nat) by lia.
    assert (k = a) by nia. subst k. lia.
Qed.

(** X23. The surplus of the output over the test points is under one batch:
    when test runs to completion on a file of [N] lines it has written
    fewer than [N + batch_size] lines, and exactly [N] if and only if
    [batch_size] divides [N]. *)
Theorem test_surplus_lines
  (test_path out_path checkpoint_dir : option string) (load_model conv : bool)
  (s0 s : Sess) :
  test env cfg test_path out_path checkpoint_dir load_model conv s0 = (Ok tt, s) ->
  exists p lines,
    test_path = Some p
    /\ read_file env p = Some lines
    /\ (length (written s) < length (written s0) + length lines + batch_size cfg)%nat
    /\ (length (written s) = (length (written s0) + length lines)%nat
        <-> (length lines mod batch_size cfg = 0)%nat).
Proof.
  intros H. apply test_ok_inv in H.
  destruct H as (p & lines & g & s1 & rest & Hp & Hread & Hbs & Hstart & Hloop).
  apply test_start_written in Hstart. apply test_loop_ok in Hloop.
  destruct Hloop as (batches & Hn & Hall & Hw).
  assert (Hlen : length (written s)
                 = (length (written s0)
                    + ceil_div (length lines) (batch_size cfg) * batch_size cfg)%nat).
  { rewrite Hw, Hstart, length_app, length_map.
    rewrite (concat_length_uniform _ _ Hall). f_equal. f_equal. exact Hn. }
  destruct (ceil_div_tight (length lines) (batch_size cfg)) as (Hlt & Hiff);
    [lia | ].
  exists p, lines. split; [exact Hp | ]. split; [exact Hread | ]. split; [lia | ].
  rewrite Hlen. rewrite <- Hiff. lia.
Qed.

(** X24. On an empty test point file test restores the checkpoint, scores
    nothing and writes nothing. *)
Theorem test_of_nothing (p o dir : string) (conv : bool) (P : Params) (s0 : Sess) :
  read_file env p = Some [] ->
  can_write env o = true ->
  checkpoint_at env (test_restore_path dir) = Some P ->
  batch_size cfg <> O ->
  test env cfg (Some p) (Some o) (Some dir) true conv s0
  = (Ok tt, {| params := P;
               trace := trace s0 ++ [Restore (test_restore_path dir)];
               written := written s0 |}).
Proof.
  intros Hread Hwrite Hck Hbs. unfold test.
  rewrite (bind_step _ _ s0 O s0)
    by (unfold get_file_line_count, open_read; rewrite Hread; reflexivity).
  destruct (build_test_graph conv s0) as (g & Hb).
  rewrite (bind_step _ _ s0 g s0 Hb).
  rewrite (bind_step _ _ s0 [] s0)
    by (unfold open_read; rewrite Hread; reflexivity).
  rewrite Hwrite. rewrite (bind_step _ _ s0 tt s0) by reflexivity.
  set (s1 := {| params := P;
                trace := trace s0 ++ [Restore (test_restore_path dir)];
                written := written s0 |}).
  rewrite (bind_step _ _ s0 tt s1).
  2:{ unfold test_start, dir_plus, saver_restore. unfold bind at 1. unfold ret at 1.
      unfold test_restore_path in Hck. rewrite Hck. reflexivity. }
  destruct (batch_size cfg) as [|bs] eqn:E; [congruence | ].
  assert (Hz : ceil_div 0 (S bs) = O).
  { unfold ceil_div. apply Nat.div_small. lia. }
  simpl length. rewrite Hz. reflexivity.
Qed.

(** X25. With [batch_size = 0] test never completes (the batch count divides
    by zero), and writes nothing. *)
Theorem test_zero_batch_size
  (test_path out_path checkpoint_dir : option string) (load_model conv : bool)
  (s0 : Sess) :
  batch_size cfg = O ->
  let r := test env cfg test_path out_path checkpoint_dir load_model conv s0 in
  is_ok (fst r) = false /\ written (snd r) = written s0.
Proof.
  intros Hbs r. subst r.
  destruct (test env cfg test_path out_path checkpoint_dir load_model conv s0)
    as [r s] eqn:H.
  simpl. split.
  - destruct r as [[]|e|c]; try reflexivity.
    apply test_ok_inv in H. destruct H as (? & ? & ? & ? & ? & _ & _ & Hne & _).
    contradiction.
  - revert H. unfold test. rewrite Hbs.
    apply preserves_bind.
    { unfold get_file_line_count. apply preserves_bind;
        [apply preserves_open_read | intros; apply preserves_ret]. }
    intros n. apply preserves_bind.
    { unfold build. destruct (test_graph conv empty_store) as [[g st]|];
        [apply preserves_ret | apply preserves_raise]. }
    intros g. apply preserves_bind; [apply preserves_open_read | ].
    intros stream. apply preserves_bind.
    { destruct out_path as [o|]; [ | apply preserves_raise].
      destruct (can_write env o); [apply preserves_ret | apply preserves_raise]. }
    intros _. apply preserves_bind.
    { intros s1 r1 s1' H1. now apply test_start_written in H1. }
    intros _. apply preserves_bind; [apply preserves_raise | ].
    intros; apply preserves_ret.
Qed.

End Facts.

Lemma loss_below_three (o_pos o_neg : Vec) :
  Forall open_unit o_pos -> Forall open_unit o_neg -> loss o_pos o_neg < 3.
Proof.
  intros Hp Hn. unfold loss, reduce_mean. rewrite length_map.
  destruct (combine o_pos o_neg) as [|pn rest] eqn:Hc.
  - simpl. lra.
  - assert (Hne : combine o_pos o_neg <> []) by (rewrite Hc; discriminate).
    pose proof (hinge_sum_bounds o_pos o_neg Hp Hn Hne) as (_ & Hlt).
    rewrite Hc in Hlt.
    assert (Hlen : 0 < INR (length (pn :: rest))) by (apply lt_0_INR; simpl; lia).
    apply Rmult_lt_reg_r with (r := INR (length (pn :: rest))); [exact Hlen | ].
    unfold Rdiv. rewrite Rmult_assoc, Rinv_l by lra. lra.
Qed.

(** A batch of the training loop on which the validation loss improves. *)
Lemma train_batch_improves env cfg tg val_path dir loc Xb s l s1 v s2 :
  Nat.eqb (length (idf Xb)) (batch_size cfg) = true ->
  run_optimizer env cfg tg
    (pair_feed env cfg Xb (gen_mask env (q Xb) (d Xb))
               (gen_mask env (q Xb) (d_aux Xb))) s = (Ok l, s1) ->
  Z.eqb (eval_frequency cfg) 0 = false ->
  Z.eqb ((Z.of_nat (S (step loc)) + 1) mod eval_frequency cfg) 0 = true ->
  validation_pass env cfg tg val_path s1 = (Ok v, s2) ->
  v < smallest_val_loss loc ->
  can_write env (train_best_path dir) = true ->
  train_batch env cfg tg val_path (Some dir) loc Xb s
  = (Ok {| step := S (step loc); smallest_val_loss := v; train_loss := 0 |},
     {| params := params s2;
        trace := trace s2 ++ [Save (train_best_path dir) (params s2)];
        written := written s2 |}).
Proof.
  intros Hlen Hopt Hz Hev Hval Hlt Hw. unfold train_batch.
  rewrite Hlen. cbn [negb]. rewrite (bind_step _ _ _ _ _ Hopt).
  rewrite Hz, Hev. rewrite (bind_step _ _ _ _ _ Hval).
  destruct (Rlt_dec v (smallest_val_loss loc)) as [_ | Hge]; [ | contradiction].
  unfold dir_plus, saver_save. fold (train_best_path dir).
  unfold bind at 1. unfold ret at 1. rewrite Hw. reflexivity.
Qed.

Lemma validated_training_run :
  train sample_env eval_cfg (Some "train.txt"%string) (Some "val.txt"%string)
        (Some "ckpt"%string) false false fresh_session
  = (Ok tt, validated_session).
Proof.
  set (tg := (Unigram, Unigram)).
  set (s_init := {| params := sample_params; trace := [InitAll]; written := [] |}).
  set (Xb := sample_batch 2).
  set (feed := pair_feed sample_env eval_cfg Xb
                 (gen_mask sample_env (q Xb) (d Xb))
                 (gen_mask sample_env (q Xb) (d_aux Xb))).
  set (opt := run_optimizer sample_env eval_cfg tg feed s_init).
  set (val := validation_pass sample_env eval_cfg tg (Some "val.txt"%string) (snd opt)).
  assert (Hopt : opt = (Ok (value_of opt), snd opt)) by reflexivity.
  assert (Hval : val = (Ok (value_of val), snd val)) by reflexivity.
  assert (Hbound : value_of val < 100000).
  { assert (E : value_of val
                = (0 + loss (fst (pair_scores sample_env eval_cfg tg sample_params feed))
                            (snd (pair_scores sample_env eval_cfg tg sample_params feed)))
                  / INR 1) by reflexivity.
    rewrite E.
    pose proof (loss_below_three
                  (fst (pair_scores sample_env eval_cfg tg sample_params feed))
                  (snd (pair_scores sample_env eval_cfg tg sample_params feed))
                  (scores_in_range eval_cfg _ _ _ _ _ _ _ _)
                  (scores_in_range eval_cfg _ _ _ _ _ _ _ _)) as Hl.
    simpl INR. lra. }
  assert (Hbatch :
    train_batch sample_env eval_cfg tg (Some "val.txt"%string) (Some "ckpt"%string)
      first_locals Xb s_init
    = (Ok {| step := 1; smallest_val_loss := value_of val; train_loss := 0 |},
       {| params := sample_params;
          trace := [InitAll; TrainStep; ValLoss; Save "ckpt/data.ckpt" sample_params];
          written := [] |})).
  { rewrite (train_batch_improves sample_env eval_cfg tg (Some "val.txt"%string)
               "ckpt" first_locals Xb s_init (value_of opt) (snd opt)
               (value_of val) (snd val));
      try reflexivity; exact Hbound. }
  unfold train.
  rewrite (bind_step _ _ fresh_session 2%nat fresh_session) by reflexivity.
  rewrite (bind_step _ _ fresh_session tg fresh_session) by reflexivity.
  rewrite (bind_step _ _ fresh_session tt s_init) by reflexivity.
  rewrite (bind_step _ _ s_init
             {| step := 1; smallest_val_loss := value_of val; train_loss := 0 |}
             {| params := sample_params;
                trace := [InitAll; TrainStep; ValLoss;
                          Save "ckpt/data.ckpt" sample_params];
                written := [] |}).
  - reflexivity.
  - change (max_epochs eval_cfg) with 1%nat. cbn [repeat_m].
    rewrite (bind_step _ _ s_init
               {| step := 1; smallest_val_loss := value_of val; train_loss := 0 |}
               {| params := sample_params;
                  trace := [InitAll; TrainStep; ValLoss;
                            Save "ckpt/data.ckpt" sample_params];
                  written := [] |}); [reflexivity | ].
    unfold train_epoch.
    rewrite (bind_step _ _ s_init ["a"; "b"]%string s_init) by reflexivity.
    change (pairwise_reader sample_env ["a"; "b"]%string (batch_size eval_cfg))
      with [Xb].
    cbn [for_each].
    rewrite (bind_step _ _ _ _ _ Hbatch). reflexivity.
Qed.

(** The run under [eval_cfg]: the validation pass after the first batch
    finds a loss below the initial 100000, so the best-validation
    checkpoint is written, directly after the validation loss, and the
    end-of-training checkpoint follows; the epoch's end adds nothing. *)
Lemma train_checkpoints_validated :
  train sample_env eval_cfg (Some "train.txt"%string) (Some "val.txt"%string)
        (Some "ckpt"%string) false false fresh_session
  = (Ok tt, validated_session)
  /\ map kind (trace validated_session)
     = [KInitAll; KTrainStep; KValLoss; KSave "ckpt/data.ckpt";
        KSave "ckpt/final_data.ckpt"]
  /\ exists (dir : string) (tr : list Event),
       Some "ckpt"%string = Some dir
       /\ trace validated_session
          = trace fresh_session ++ tr
            ++ [Save (train_final_path dir) (params validated_session)]
       /\ (forall p P, In (Save p P) tr -> p = train_best_path dir)
       /\ train_final_path dir <> train_best_path dir
       /\ saves_after_validation false tr = true
       /\ (forall tg loc loc' s1 s2,
             train_epoch sample_env eval_cfg tg (Some "train.txt"%string)
               (Some "val.txt"%string) (Some "ckpt"%string) loc s1
             = (Ok loc', s2) ->
             exists tr_epoch,
               trace s2 = trace s1 ++ tr_epoch
               /\ saves_after_validation false tr_epoch = true
               /\ (smallest_val_loss loc' = smallest_val_loss loc ->
                   saved_paths tr_epoch = [])
               /\ (saved_paths tr_epoch <> [] ->
                   smallest_val_loss loc' < smallest_val_loss loc)).
Proof.
  split; [exact validated_training_run | ]. split; [reflexivity | ].
  exact (train_checkpoints sample_env eval_cfg _ _ _ _ _ _ _ validated_training_run).
Defined.

Lemma validation_of_nothing_sample :
  read_file empty_files_env "val.txt" = Some []
  /\ val_pairwise_reader empty_files_env [] (batch_size sample_cfg) = []
  /\ validation_pass empty_files_env sample_cfg (Unigram, Unigram)
       (Some "val.txt"%string) fresh_session
     = (Raise ZeroDivisionError, fresh_session).
Proof.
  split; [reflexivity | ]. split; [reflexivity | ].
  exact (validation_of_nothing empty_files_env sample_cfg (Unigram, Unigram)
           "val.txt" [] fresh_session eq_refl eq_refl).
Defined.

Lemma epoch_counts_every_batch_sample :
  train_epoch sample_env sample_cfg (Unigram, Unigram)
    (Some "train.txt"%string) (Some "val.txt"%string) (Some "ckpt"%string)
    first_locals fresh_session
  = (Ok (locals_of sample_epoch), snd sample_epoch)
  /\ exists p lines,
       Some "train.txt"%string = Some p
       /\ read_file sample_env p = Some lines
       /\ step (locals_of sample_epoch)
          = (step first_locals
             + length (pairwise_reader sample_env lines (batch_size sample_cfg)))%nat.
Proof.
  assert (H : train_epoch sample_env sample_cfg (Unigram, Unigram)
                (Some "train.txt"%string) (Some "val.txt"%string)
                (Some "ckpt"%string) first_locals fresh_session
              = (Ok (locals_of sample_epoch), snd sample_epoch)) by reflexivity.
  split; [exact H | ].
  exact (epoch_counts_every_batch sample_env sample_cfg _ _ _ _ _ _ _ _ H).
Defined.

Lemma epoch_best_loss_never_grows_sample :
  train_epoch sample_env sample_cfg (Unigram, Unigram)
    (Some "train.txt"%string) (Some "val.txt"%string) (Some "ckpt"%string)
    first_locals fresh_session
  = (Ok (locals_of sample_epoch), snd sample_epoch)
  /\ smallest_val_loss (locals_of sample_epoch) <= smallest_val_loss first_locals.
Proof.
  assert (H : train_epoch sample_env sample_cfg (Unigram, Unigram)
                (Some "train.txt"%string) (Some "val.txt"%string)
                (Some "ckpt"%string) first_locals fresh_session
              = (Ok (locals_of sample_epoch), snd sample_epoch)) by reflexivity.
  split; [exact H | ].
  exact (epoch_best_loss_never_grows sample_env sample_cfg _ _ _ _ _ _ _ _ H).
Defined.

Lemma training_on_short_batches_only_sample :
  read_file sample_env "train.txt" = Some ["a"; "b"]%string
  /\ Forall (short_batch wide_cfg)
       (pairwise_reader sample_env ["a"; "b"]%string (batch_size wide_cfg))
  /\ can_write sample_env (train_final_path "ckpt") = true
  /\ train sample_env wide_cfg (Some "train.txt"%string) (Some "val.txt"%string)
       (Some "ckpt"%string) false false fresh_session
     = (Ok tt,
        {| params := initial_values sample_env;
           trace := trace fresh_session
                    ++ [InitAll;
                        Save (train_final_path "ckpt") (initial_values sample_env)];
           written := written fresh_session |}).
Proof.
  assert (H1 : read_file sample_env "train.txt" = Some ["a"; "b"]%string)
    by reflexivity.
  assert (H2 : Forall (short_batch wide_cfg)
                 (pairwise_reader sample_env ["a"; "b"]%string (batch_size wide_cfg))).
  { repeat constructor. unfold short_batch. simpl. discriminate. }
  assert (H3 : can_write sample_env (train_final_path "ckpt") = true)
    by reflexivity.
  split; [exact H1 | ]. split; [exact H2 | ]. split; [exact H3 | ].
  exact (training_on_short_batches_only sample_env wide_cfg "train.txt" "ckpt"
           (Some "val.txt"%string) false _ fresh_session H1 H2 H3).
Defined.


Lemma test_keeps_parameters_sample :
  test sample_env sample_cfg (Some "test.txt"%string) (Some "out.txt"%string)
       (Some "ckpt/"%string) true false fresh_session
  = (Ok tt, snd sample_inference)
  /\ exists dir,
       Some "ckpt/"%string = Some dir
       /\ checkpoint_at sample_env (test_restore_path dir)
          = Some (params (snd sample_inference)).
Proof.
  assert (H : test sample_env sample_cfg (Some "test.txt"%string)
                (Some "out.txt"%string) (Some "ckpt/"%string) true false
                fresh_session
              = (Ok tt, snd sample_inference)) by reflexivity.
  split; [exact H | ].
  exact (test_keeps_parameters sample_env sample_cfg _ _ _ true _ _ _ H).
Defined.


Lemma test_surplus_lines_sample :
  test sample_env sample_cfg (Some "test.txt"%string) (Some "out.txt"%string)
       (Some "ckpt/"%string) true false fresh_session
  = (Ok tt, snd sample_inference)
  /\ exists p lines,
       Some "test.txt"%string = Some p
       /\ read_file sample_env p = Some lines
       /\ (length (written (snd sample_inference))
           < length (written fresh_session) + length lines
             + batch_size sample_cfg)%nat
       /\ (length (written (snd sample_inference))
           = (length (written fresh_session) + length lines)%nat
           <-> (length lines mod batch_size sample_cfg = 0)%nat).
Proof.
  assert (H : test sample_env sample_cfg (Some "test.txt"%string)
                (Some "out.txt"%string) (Some "ckpt/"%string) true false
                fresh_session
              = (Ok tt, snd sample_inference)) by reflexivity.
  split; [exact H | ].
  exact (test_surplus_lines sample_env sample_cfg _ _ _ _ _ _ _ H).
Defined.

Lemma test_of_nothing_sample :
  read_file empty_files_env "test.txt" = Some []
  /\ can_write empty_files_env "out.txt" = true
  /\ checkpoint_at empty_files_env (test_restore_path "ckpt/") = Some sample_params
  /\ batch_size sample_cfg <> O
  /\ test empty_files_env sample_cfg (Some "test.txt"%string)
       (Some "out.txt"%string) (Some "ckpt/"%string) true false fresh_session
     = (Ok tt, {| params := sample_params;
                  trace := trace fresh_session
                           ++ [Restore (test_restore_path "ckpt/")];
                  written := written fresh_session |}).
Proof.
  assert (H4 : batch_size sample_cfg <> O) by discriminate.
  split; [reflexivity | ]. split; [reflexivity | ]. split; [reflexivity | ].
  split; [exact H4 | ].
  exact (test_of_nothing empty_files_env sample_cfg "test.txt" "out.txt" "ckpt/"
           false sample_params fresh_session eq_refl eq_refl eq_refl H4).
Defined.

Lemma test_zero_batch_size_sample :
  batch_size zero_batch_cfg = O
  /\ is_ok (fst (test sample_env zero_batch_cfg (Some "test.txt"%string)
                   (Some "out.txt"%string) (Some "ckpt/"%string) true false
                   fresh_session))
     = false
  /\ written (snd (test sample_env zero_batch_cfg (Some "test.txt"%string)
                     (Some "out.txt"%string) (Some "ckpt/"%string) true false
                     fresh_session))
     = written fresh_session.
Proof.
  split; [reflexivity | ].
  exact (test_zero_batch_size sample_env zero_batch_cfg (Some "test.txt"%string)
           (Some "out.txt"%string) (Some "ckpt/"%string) true false
           fresh_session eq_refl).
Defined.

End RunFacts.
